(** * The docker-tap packet pump: framing, pump loop and generic forwarder

    A shallow embedding of [exe-unit/docker-tap/pump/src/network.c] (function
    [pump]) and [exe-unit/docker-tap/pump/src/forward.c] ([read_fd],
    [write_fd], [writev_fd], [fwd], [fwd_stop]), with the properties of the
    specification stated over it.

    Conventions.
    - C [int] values are integers of [Z]; the values that occur are byte
      counts bounded by the requested lengths, so no [int] overflows.
      [uint16_t] values are written with their reduction modulo 2^16.
    - A byte of memory is a [Z] in [0, 255].
    - System calls are the environment: every result a call can give is an
      input of the model, and every call entered is logged as an event. *)

From Stdlib Require Import ZArith List Lia Bool.
From Stdlib Require DecimalNat.
Import ListNotations.
Open Scope Z_scope.

(** ** The two-byte length field: [union b_u16] *)

Module Codec.

(** Byte order of the host that runs the program. *)
Inductive endianness := LittleEndian | BigEndian.

(** [union b_u16 { uint16_t i; char b[2]; }]: two bytes of storage. *)
Record b_u16 := mk_b_u16 { b0 : Z; b1 : Z }.

(** Conversion to [uint16_t]. *)
Definition to_u16 (x : Z) : Z := x mod 65536.

(** [u.i = x]: the store through the [uint16_t] member, seen through [b]. *)
Definition set_i (host : endianness) (x : Z) : b_u16 :=
  let v := to_u16 x in
  match host with
  | LittleEndian => mk_b_u16 (Z.land v 255) (Z.shiftr v 8)
  | BigEndian => mk_b_u16 (Z.shiftr v 8) (Z.land v 255)
  end.

(** [u.i]: the load through the [uint16_t] member of the bytes [b]. *)
Definition get_i (host : endianness) (u : b_u16) : Z :=
  match host with
  | LittleEndian => Z.lor (b0 u) (Z.shiftl (b1 u) 8)
  | BigEndian => Z.lor (b1 u) (Z.shiftl (b0 u) 8)
  end.

(** The bytes as they lie in memory, lowest address first. *)
Definition bytes_of (u : b_u16) : list Z := [b0 u; b1 u].

End Codec.

(** ** Byte arrays *)

Module Mem.

(** [n] bytes of [buf] from offset [off]; past the end of the array the
    model has no bytes to give. *)
Definition slice (buf : list Z) (off n : Z) : list Z :=
  firstn (Z.to_nat n) (skipn (Z.to_nat off) buf).

(** [data] copied to [buf + off]. Bytes that land past the end of the array
    are kept, so that an access out of bounds stays visible. *)
Definition store (buf : list Z) (off : Z) (data : list Z) : list Z :=
  firstn (Z.to_nat off) buf ++ data ++ skipn (Z.to_nat off + length data) buf.

Definition count_of (data : list Z) : Z := Z.of_nat (length data).

End Mem.

(** ** The datagram pump: [pump] of network.c *)

Module Pump.
Import Codec Mem.

Definition EAGAIN : Z := 11.

(** [int hsz = 2]. *)
Definition hsz : Z := 2.

(** Result of [read] and [recvfrom]: [-1] with an errno, or the bytes
    delivered ([count] is their number). *)
Inductive rx := RxErr (errno : Z) | RxData (data : list Z).

(** Result of [sendto] and [write]: [-1] with an errno, or the number of
    bytes taken, [n >= 0]. *)
Inductive tx := TxErr (errno : Z) | TxCount (n : Z).

(** Result of [select]: [-1] with an errno, or the two [FD_ISSET] answers. *)
Inductive sel := SelErr (errno : Z) | SelReady (tun_ready read_ready : bool).

(** What the system calls of one loop iteration answer; a result is used
    only if the iteration enters the call. *)
Record syscalls := mk_syscalls {
  r_select : sel;
  r_read : rx;
  r_sendto : tx;
  r_recvfrom : rx;
  r_write : tx
}.

(** The system calls entered, in program order. [Sendto] and [Write] carry
    the bytes the call transferred. *)
Inductive event :=
| Select
| Read (off len : Z) (res : rx)
| Sendto (off len : Z) (res : tx) (sent : list Z)
| Recvfrom (len : Z) (res : rx)
| Write (off len : Z) (res : tx) (written : list Z).

(** The locals of [pump] that live across iterations. *)
Record state := mk_state {
  rbuf : list Z;
  wbuf : list Z;
  roff : Z;
  rtotal : Z;
  woff : Z;
  wtotal : Z
}.

(** Control flow of a piece of the loop body: fall through, [continue],
    or [return]. *)
Inductive flow := Fall (st : state) | Cont (st : state) | Ret (code : Z).

Definition step := state -> flow * list event.

Definition and_then (f g : step) : step := fun st =>
  match f st with
  | (Fall st1, ev) => let (r, ev') := g st1 in (r, ev ++ ev')
  | other => other
  end.

Notation "f ;; g" := (and_then f g) (at level 61, right associativity).

(** [if (count < 0) { if (errno == EAGAIN) continue; else return errno; }] *)
Definition on_errno (errno : Z) (st : state) : flow :=
  if errno =? EAGAIN then Cont st else Ret errno.

Section Body.
Variable mtu : Z.          (* the local [mtu] after [mtu += hsz] *)
Variable host : endianness.
Variable sc : syscalls.

(** Lines 481-498: an idle direction reads one frame from the TAP. *)
Definition tap_fill : step := fun st =>
  if rtotal st =? 0 then
    let ev := [Read hsz mtu (r_read sc)] in
    match r_read sc with
    | RxErr errno => (on_errno errno st, ev)
    | RxData data =>
        let count := count_of data in
        if count =? 0 then (Cont st, ev)
        else
          let rbuf1 := store (rbuf st) hsz data in
          let rbuf2 := store rbuf1 0 (bytes_of (set_i host count)) in
          (Fall (mk_state rbuf2 (wbuf st) 0 (count + hsz) (woff st) (wtotal st)), ev)
    end
  else (Fall st, []).

(** Lines 500-513: [sendto] of what is left of the frame. *)
Definition tap_drain : step := fun st =>
  let len := rtotal st - roff st in
  match r_sendto sc with
  | TxErr errno => (on_errno errno st, [Sendto (roff st) len (r_sendto sc) []])
  | TxCount count =>
      let roff1 := roff st + count in
      let ev := [Sendto (roff st) len (r_sendto sc) (slice (rbuf st) (roff st) count)] in
      if roff1 >=? rtotal st
      then (Fall (mk_state (rbuf st) (wbuf st) 0 0 (woff st) (wtotal st)), ev)
      else (Fall (mk_state (rbuf st) (wbuf st) roff1 (rtotal st) (woff st) (wtotal st)), ev)
  end.

(** Lines 480-514. *)
Definition tap_section (ready : bool) : step := fun st =>
  if ready then (tap_fill ;; tap_drain) st else (Fall st, []).

(** Lines 517-531: an idle direction receives one datagram. *)
Definition sock_fill : step := fun st =>
  if wtotal st =? 0 then
    let ev := [Recvfrom mtu (r_recvfrom sc)] in
    match r_recvfrom sc with
    | RxErr errno => (on_errno errno st, ev)
    | RxData data =>
        let count := count_of data in
        if count =? 0 then (Cont st, ev)
        else
          let wbuf1 := store (wbuf st) 0 data in
          let view := mk_b_u16 (nth 0 wbuf1 0) (nth 1 wbuf1 0) in
          (Fall (mk_state (rbuf st) wbuf1 (roff st) (rtotal st) (woff st) (get_i host view)), ev)
    end
  else (Fall st, []).

(** Lines 533-543: [write] of what is left of the payload. *)
Definition sock_drain : step := fun st =>
  if woff st <? wtotal st then
    let off := woff st + hsz in
    let len := wtotal st - woff st in
    match r_write sc with
    | TxErr errno => (on_errno errno st, [Write off len (r_write sc) []])
    | TxCount count =>
        (Fall (mk_state (rbuf st) (wbuf st) (roff st) (rtotal st) (woff st + count) (wtotal st)),
         [Write off len (r_write sc) (slice (wbuf st) off count)])
    end
  else (Fall st, []).

(** Lines 545-548. *)
Definition sock_reset : step := fun st =>
  if woff st >=? wtotal st
  then (Fall (mk_state (rbuf st) (wbuf st) (roff st) (rtotal st) 0 0), [])
  else (Fall st, []).

(** Lines 516-549. *)
Definition sock_section (ready : bool) : step := fun st =>
  if ready then (sock_fill ;; sock_drain ;; sock_reset) st else (Fall st, []).

(** Lines 470-549: one iteration of [while (1)]. *)
Definition pump_iter (st : state) : flow * list event :=
  match r_select sc with
  | SelErr errno => (Ret errno, [Select])
  | SelReady tun_ready read_ready =>
      let (r, ev) := (tap_section tun_ready ;; sock_section read_ready) st in
      (r, Select :: ev)
  end.

End Body.

(** Where a run of the loop stands: still looping, or returned. *)
Inductive outcome := Running (st : state) | Returned (code : Z).

(** [while (1) { ... }] against the answers of the environment, one record
    per iteration; when they are used up the loop is waiting in [select]. *)
Fixpoint pump_loop (mtu : Z) (host : endianness) (env : list syscalls)
    (st : state) : outcome * list event :=
  match env with
  | [] => (Running st, [])
  | sc :: env' =>
      match pump_iter mtu host sc st with
      | (Ret code, ev) => (Returned code, ev)
      | (Fall st1, ev) | (Cont st1, ev) =>
          let (out, ev') := pump_loop mtu host env' st1 in (out, ev ++ ev')
      end
  end.

(** Lines 451-467: [mtu += hsz], the zeroed buffers, the zeroed counters. *)
Definition init (mtu : Z) : state :=
  let n := Z.to_nat (mtu + hsz) in
  mk_state (repeat 0 n) (repeat 0 n) 0 0 0 0.

Definition pump (mtu : Z) (host : endianness) (env : list syscalls)
  : outcome * list event :=
  pump_loop (mtu + hsz) host env (init mtu).

(** *** Vocabulary of the properties *)

(** The bytes put on the wire by the [sendto] calls of a trace. *)
Fixpoint wire (evs : list event) : list Z :=
  match evs with
  | [] => []
  | Sendto _ _ _ sent :: evs' => sent ++ wire evs'
  | _ :: evs' => wire evs'
  end.

(** The bytes handed to the TAP by the [write] calls of a trace. *)
Fixpoint tap_written (evs : list event) : list Z :=
  match evs with
  | [] => []
  | Write _ _ _ written :: evs' => written ++ tap_written evs'
  | _ :: evs' => tap_written evs'
  end.

(** A frame as the host lays it out: the length through the union, then
    the payload. *)
Definition framed (host : endianness) (data : list Z) : list Z :=
  bytes_of (set_i host (count_of data)) ++ data.

(** The frames that the TAP reads of a trace delivered, framed, in order. *)
Fixpoint frames_read (host : endianness) (evs : list event) : list Z :=
  match evs with
  | [] => []
  | Read _ _ (RxData (b :: data)) :: evs' => framed host (b :: data) ++ frames_read host evs'
  | _ :: evs' => frames_read host evs'
  end.

(** What is left to send of the frame in the TAP-to-socket buffer. *)
Definition pending (st : state) : list Z :=
  slice (rbuf st) (roff st) (rtotal st - roff st).

Definition idle_tap (st : state) : Prop := rtotal st = 0 /\ roff st = 0.
Definition idle_sock (st : state) : Prop := wtotal st = 0 /\ woff st = 0.

(** The frame as the wire format words it: low byte of the length, high
    byte, payload. *)
Definition le_frame (data : list Z) : list Z :=
  let L := count_of data in
  [Z.land L 255; Z.land (Z.shiftr L 8) 255] ++ data.

Fixpoint le_frames (evs : list event) : list Z :=
  match evs with
  | [] => []
  | Read _ _ (RxData (b :: data)) :: evs' => le_frame (b :: data) ++ le_frames evs'
  | _ :: evs' => le_frames evs'
  end.

(** What the environment owes the pump: a transfer never exceeds the length
    asked for, and a frame read from the TAP is at most [MTU] bytes. *)
Definition tx_ok (len : Z) (res : tx) : Prop :=
  match res with
  | TxCount n => 0 <= n <= len
  | TxErr _ => True
  end.

Definition env_ok (MTU : Z) (e : event) : Prop :=
  match e with
  | Select => True
  | Read _ _ (RxData data) => count_of data <= MTU
  | Read _ _ (RxErr _) => True
  | Sendto _ len res _ => tx_ok len res
  | Recvfrom len (RxData data) => count_of data <= len
  | Recvfrom _ (RxErr _) => True
  | Write _ len res _ => tx_ok len res
  end.

(** The buffers have the size [pump] declares them with. *)
Definition sized (MTU : Z) (st : state) : Prop :=
  length (rbuf st) = Z.to_nat (MTU + hsz) /\
  length (wbuf st) = Z.to_nat (MTU + hsz).

(** The invariant of the specification, for both directions. *)
Definition dir_inv (MTU offset total : Z) : Prop :=
  0 <= offset <= total /\ total <= MTU + 2 /\ (total = 0 -> offset = 0).

Definition pump_inv (MTU : Z) (st : state) : Prop :=
  dir_inv MTU (roff st) (rtotal st) /\ dir_inv MTU (woff st) (wtotal st).

(** The part of it that the TAP-to-socket direction keeps. *)
Definition tap_busy_ok (st : state) : Prop :=
  0 <= roff st <= rtotal st /\ (rtotal st = 0 -> roff st = 0).

(** An iteration in which both descriptors are reported ready and neither
    has anything to give: every call says [EAGAIN]. *)
Definition quiet : syscalls :=
  mk_syscalls (SelReady true true) (RxErr EAGAIN) (TxErr EAGAIN)
              (RxErr EAGAIN) (TxErr EAGAIN).


(** The length that the first two bytes of a datagram decode to. *)
Definition decoded (host : endianness) (data : list Z) : Z :=
  get_i host (mk_b_u16 (nth 0 data 0) (nth 1 data 0)).

(** *** The properties as the specification words them *)

(** Oversize ingress drop: a datagram whose decoded length exceeds the MTU
    is discarded, nothing is written to the TAP and the direction is idle
    again. *)
Definition oversize_dropped : Prop :=
  forall MTU host sc st data,
    sized MTU st -> idle_sock st ->
    r_recvfrom sc = RxData data ->
    2 <= count_of data <= MTU + hsz ->
    MTU < decoded host data ->
    exists st',
      sock_section (MTU + hsz) host sc true st
        = (Fall st', [Recvfrom (MTU + hsz) (r_recvfrom sc)]) /\
      idle_sock st'.

(** Wire format: whatever the host, the bytes sent are the frames read from
    the TAP, each behind its length, low byte first; the bytes of the last
    frame not sent yet are in the buffer. *)
Definition wire_low_byte_first (host : endianness) : Prop :=
  forall MTU env st st' evs,
    0 <= MTU -> sized MTU st -> idle_tap st ->
    pump_loop (MTU + hsz) host env st = (Running st', evs) ->
    Forall (env_ok MTU) evs ->
    wire evs ++ pending st' = le_frames evs.



(** *** Vocabulary of the proofs *)

(** What a piece of the loop body leaves behind, unless it returned. *)
Definition state_of (r : flow) : option state :=
  match r with
  | Fall st | Cont st => Some st
  | Ret _ => None
  end.

(** What the TAP-to-socket direction needs of the state to work. *)
Definition tap_ok (st : state) : Prop :=
  (2 <= length (rbuf st))%nat /\ 0 <= roff st <= rtotal st.

(** A piece of the loop body neither loses nor repeats a byte of the
    TAP-to-socket direction. *)
Definition conserves (MTU : Z) (host : endianness) (f : step) : Prop :=
  forall st r ev st',
    tap_ok st -> f st = (r, ev) -> Forall (env_ok MTU) ev ->
    state_of r = Some st' ->
    tap_ok st' /\
    wire ev ++ pending st' = pending st ++ frames_read host ev.

(** The socket-to-TAP pieces leave the other direction alone. *)
Definition tap_untouched (host : endianness) (f : step) : Prop :=
  forall st r ev st',
    f st = (r, ev) -> state_of r = Some st' ->
    (rbuf st' = rbuf st /\ roff st' = roff st /\ rtotal st' = rtotal st) /\
    wire ev = [] /\ frames_read host ev = [].



(** *** Scenarios *)

(** The TAP is ready and yields [data]; [sendto] answers [sent]. *)
Definition tap_frame (data : list Z) (sent : tx) : syscalls :=
  mk_syscalls (SelReady true false) (RxData data) sent (RxErr EAGAIN) (TxErr EAGAIN).

(** The TAP is ready again while a frame is being sent. *)
Definition tap_again (sent : tx) : syscalls :=
  mk_syscalls (SelReady true false) (RxErr EAGAIN) sent (RxErr EAGAIN) (TxErr EAGAIN).

(** The socket is ready and yields [data]; [write] answers [written]. *)
Definition sock_datagram (data : list Z) (written : tx) : syscalls :=
  mk_syscalls (SelReady false true) (RxErr EAGAIN) (TxErr EAGAIN) (RxData data) written.

(** DE AD BE EF and CA FE BA BE. *)
Definition payload4 : list Z := [222; 173; 190; 239].
Definition reply4 : list Z := [202; 254; 186; 190].

(** The state of a pump of MTU 590 with [bytes] at the start of the
    TAP-to-socket buffer and the given counters. *)
Definition sending (bytes : list Z) (off total : Z) : state :=
  mk_state (bytes ++ repeat 0 (592 - length bytes)) (repeat 0 592) off total 0 0.

(** *** Vocabulary of the further properties *)

(** What is left to write of the frame in the socket-to-TAP buffer. *)
Definition pending_w (st : state) : list Z :=
  slice (wbuf st) (woff st + hsz) (wtotal st - woff st).

(** What the datagrams received carried behind their two length bytes, in
    order. *)
Fixpoint payloads (evs : list event) : list Z :=
  match evs with
  | [] => []
  | Recvfrom _ (RxData (b :: data)) :: evs' => skipn 2 (b :: data) ++ payloads evs'
  | _ :: evs' => payloads evs'
  end.

(** What the socket-to-TAP direction is owed: a datagram is no longer than
    asked for and its first two bytes announce the number of bytes that
    follow them; a write takes no more than asked for. *)
Definition ingress_ok (host : endianness) (e : event) : Prop :=
  match e with
  | Recvfrom len (RxData (b :: data)) =>
      2 <= count_of (b :: data) <= len /\
      decoded host (b :: data) = count_of (b :: data) - 2
  | Write _ len res _ => tx_ok len res
  | _ => True
  end.

Definition sock_ok (st : state) : Prop := 0 <= woff st <= wtotal st.

(** A piece of the loop body neither loses nor repeats a byte of the
    socket-to-TAP direction. *)
Definition delivers (host : endianness) (f : step) : Prop :=
  forall st r ev st',
    sock_ok st -> f st = (r, ev) -> Forall (ingress_ok host) ev ->
    state_of r = Some st' ->
    sock_ok st' /\
    tap_written ev ++ pending_w st' = pending_w st ++ payloads ev.

(** The TAP-to-socket pieces leave the other direction alone. *)
Definition sock_untouched (f : step) : Prop :=
  forall st r ev st',
    f st = (r, ev) -> state_of r = Some st' ->
    (wbuf st' = wbuf st /\ woff st' = woff st /\ wtotal st' = wtotal st) /\
    tap_written ev = [] /\ payloads ev = [].

(** A direction at the top of the loop: idle with both counters 0, or busy
    with the offset short of the total. *)
Definition dir_ok (offset total : Z) : Prop :=
  (total = 0 /\ offset = 0) \/ 0 <= offset < total.

(** What the loop keeps, [mtu] being the local after [mtu += hsz]. *)
Definition loop_inv (mtu : Z) (st : state) : Prop :=
  dir_ok (roff st) (rtotal st) /\ rtotal st <= mtu + hsz /\
  dir_ok (woff st) (wtotal st).

(** No call transfers more than it was asked for. *)
Definition lengths_ok (e : event) : Prop :=
  match e with
  | Read _ len (RxData data) => count_of data <= len
  | Recvfrom len (RxData data) => count_of data <= len
  | Sendto _ len res _ => tx_ok len res
  | Write _ len res _ => tx_ok len res
  | _ => True
  end.

(** The calls of a trace on the socket-to-TAP side. *)
Fixpoint sock_calls (evs : list event) : nat :=
  match evs with
  | [] => 0
  | Recvfrom _ _ :: evs' => S (sock_calls evs')
  | Write _ _ _ _ :: evs' => S (sock_calls evs')
  | _ :: evs' => sock_calls evs'
  end.

(** A pump whose buffers have the size they were declared with and whose
    counters point into them. *)
Definition safe (MTU : Z) (st : state) : Prop :=
  0 <= MTU /\ sized MTU st /\
  (0 <= roff st <= rtotal st /\ rtotal st <= MTU + hsz) /\
  (0 <= woff st <= wtotal st /\ wtotal st <= MTU).

(** The bytes that a call stores into a staging buffer of [MTU + 2] bytes,
    or takes from it, lie inside it. *)
Definition in_buffer (MTU : Z) (e : event) : Prop :=
  match e with
  | Read off _ (RxData data) => 0 <= off /\ off + count_of data <= MTU + hsz
  | Recvfrom _ (RxData data) => count_of data <= MTU + hsz
  | Sendto off len _ _ => 0 <= off /\ 0 <= len /\ off + len <= MTU + hsz
  | Write off len _ _ => 0 <= off /\ 0 <= len /\ off + len <= MTU + hsz
  | _ => True
  end.

(** Inputs as the wire format has them: frames of at most [MTU] bytes from
    the TAP, datagrams that announce what they carry, transfers within the
    lengths asked for. *)
Definition well_formed (MTU : Z) (host : endianness) (e : event) : Prop :=
  env_ok MTU e /\ ingress_ok host e.

(** A piece of the loop body stays inside the buffers. *)
Definition keeps_safe (MTU : Z) (host : endianness) (f : step) : Prop :=
  forall st r ev,
    safe MTU st -> f st = (r, ev) -> Forall (well_formed MTU host) ev ->
    Forall (in_buffer MTU) ev /\
    forall st', state_of r = Some st' -> safe MTU st'.

(** The answers of the readiness cycles that follow a partial [sendto],
    [left] bytes of the frame being still to send: a cycle in which the TAP
    is not reported ready sends nothing, neither does a [sendto] that says
    [EAGAIN]; a [sendto] takes [k] of the bytes left, and the cycle in which
    it takes the last of them ends the list. *)
Fixpoint sends_rest (left : Z) (env : list syscalls) : Prop :=
  match env with
  | [] => False
  | sc :: env' =>
      match r_select sc with
      | SelErr _ => False
      | SelReady false _ => sends_rest left env'
      | SelReady true _ =>
          match r_sendto sc with
          | TxErr errno => errno = EAGAIN /\ sends_rest left env'
          | TxCount k =>
              0 <= k <= left /\
              if k =? left then env' = [] else sends_rest (left - k) env'
          end
      end
  end.

(** The reads of the TAP in a trace. *)
Fixpoint tap_reads (evs : list event) : nat :=
  match evs with
  | [] => 0
  | Read _ _ _ :: evs' => S (tap_reads evs')
  | _ :: evs' => tap_reads evs'
  end.

(** A piece of the loop body neither sends nor reads the TAP, and leaves
    the frame being sent where it is. *)
Definition leaves_tap (f : step) : Prop :=
  forall st r ev st',
    f st = (r, ev) -> state_of r = Some st' ->
    (rbuf st' = rbuf st /\ roff st' = roff st /\ rtotal st' = rtotal st) /\
    wire ev = [] /\ tap_reads ev = 0%nat.

(** A call of the trace that failed with the errno [code]. *)
Definition call_failed (code : Z) (e : event) : Prop :=
  match e with
  | Read _ _ (RxErr errno) => errno = code
  | Sendto _ _ (TxErr errno) _ => errno = code
  | Recvfrom _ (RxErr errno) => errno = code
  | Write _ _ (TxErr errno) _ => errno = code
  | _ => False
  end.

(** The last call of [ev] failed with [code], and [code] is not [EAGAIN]. *)
Definition ends_in_failure (code : Z) (ev : list event) : Prop :=
  code <> EAGAIN /\ exists ev0 e, ev = ev0 ++ [e] /\ call_failed code e.

(** A piece of the loop body returns only from a call that it has entered
    and that has failed. *)
Definition returns_failed (f : step) : Prop :=
  forall st code ev, f st = (Ret code, ev) -> ends_in_failure code ev.

End Pump.

(** ** The generic forwarder: forward.c *)

Module Forward.
Import Codec Mem.

Definition ENOMEM : Z := 12.

(** What one trip through the ring gives: no submission entry, a failed
    wait, or a completion with its [res] (and, for a read, the bytes the
    kernel delivered). *)
Inductive cq :=
| NoSqe
| WaitErr (ret : Z)
| Cqe (res : Z) (data : list Z).

(** The answer of the environment to one submission; [c_stop] tells that
    [fwd_stop] ran on another thread while the worker was in the call. *)
Record completion := mk_completion { c_cq : cq; c_stop : bool }.

(** The submissions made, in program order: target or source range in the
    worker's buffer, and for the writes the bytes the call transferred. *)
Inductive io_event :=
| IoRead (fd off len : Z)
| IoWrite (fd off len : Z) (sent : list Z)
| IoWritev (fd : Z) (iovecs : list (list Z)) (sent : list Z).

(** [static int working], the worker's buffer, and the log of submissions. *)
Record world := mk_world {
  working : bool;
  buf : list Z;
  trace : list io_event
}.

(** [void fwd_stop() { working = false; }] *)
Definition fwd_stop (w : world) : world := mk_world false (buf w) (trace w).

Definition log (e : io_event) (w : world) : world :=
  mk_world (working w) (buf w) (trace w ++ [e]).

Definition set_buf (b : list Z) (w : world) : world :=
  mk_world (working w) b (trace w).

Definition stopped_by (c : completion) (w : world) : world :=
  if c_stop c then fwd_stop w else w.

(** A call returns its value, what is left of the environment's answers and
    the world; [None] when the answers are used up: the call is blocked. *)
Definition ran (A : Type) : Type := option (A * list completion * world).

(** Lines 194-199 of [read_fd] return on a negative [res] before the
    [io_uring_cqe_seen] of line 202: the failed completion stays at the head
    of the completion queue of the worker's ring. Every later wait finds it
    there and hands it back at once, whatever the kernel answers to the
    submission made on that trip: that answer queues up behind and is not
    looked at (nor is what it stores in the block followed here). A trip can
    still find no submission entry, and [fwd_stop] can still run. *)
Definition left_unseen (res : Z) (c : completion) : completion :=
  match c_cq c with
  | NoSqe => c
  | _ => mk_completion (Cqe res []) (c_stop c)
  end.

(** [read_fd] (lines 142-224), with [dst = buf] as at both call sites;
    [ro] is the loop variable, 0 at entry. *)
Fixpoint read_fd_from (ro : Z) (cs : list completion) (w : world)
    (fd count : Z) (exact : bool) {struct cs} : ran Z :=
  if working w && (ro <? count) then
    match cs with
    | [] => None
    | c :: cs' =>
        match c_cq c with
        | NoSqe => Some (-1, cs', stopped_by c w)
        | WaitErr ret =>
            Some (ret, cs', stopped_by c (log (IoRead fd ro (count - ro)) w))
        | Cqe res data =>
            let w1 := stopped_by c (log (IoRead fd ro (count - ro)) w) in
            if res <? 0 then Some (0, map (left_unseen res) cs', w1)
            else
              let rc := to_u16 res in
              if rc <=? 0 then read_fd_from ro cs' w1 fd count exact
              else
                let w2 := set_buf (store (buf w1) ro (firstn (Z.to_nat rc) data)) w1 in
                let ro1 := to_u16 (ro + rc) in
                if negb exact then Some (ro1, cs', w2)
                else read_fd_from ro1 cs' w2 fd count exact
        end
    end
  else Some (ro, cs, w).

Definition read_fd := read_fd_from 0.

(** [write_fd] (lines 235-277), with [src = buf]. *)
Fixpoint write_fd_from (wo : Z) (cs : list completion) (w : world)
    (fd count : Z) {struct cs} : ran Z :=
  if working w && (wo <? count) then
    match cs with
    | [] => None
    | c :: cs' =>
        match c_cq c with
        | NoSqe => Some (-1, cs', stopped_by c w)
        | WaitErr ret =>
            Some (ret, cs', stopped_by c (log (IoWrite fd wo (count - wo) []) w))
        | Cqe wc _ =>
            let sent := slice (buf w) wo wc in
            let w1 := stopped_by c (log (IoWrite fd wo (count - wo) sent) w) in
            if wc <? 0 then Some (-2, cs', w1)
            else write_fd_from (wo + wc) cs' w1 fd count
        end
    end
  else Some (0, cs, w).

Definition write_fd := write_fd_from 0.

(** Lines 293-295: [for (...) count = iovecs[i].iov_len;] *)
Definition writev_count (iovecs : list (list Z)) : Z :=
  fold_left (fun _ iov => count_of iov) iovecs 0.

(** The loop of [writev_fd] (lines 297-325). *)
Fixpoint writev_fd_from (wo : Z) (cs : list completion) (w : world)
    (fd : Z) (iovecs : list (list Z)) (count : Z) {struct cs} : ran Z :=
  if working w && (wo <? count) then
    match cs with
    | [] => None
    | c :: cs' =>
        match c_cq c with
        | NoSqe => Some (-1, cs', stopped_by c w)
        | WaitErr ret =>
            Some (ret, cs', stopped_by c (log (IoWritev fd iovecs []) w))
        | Cqe wc _ =>
            let sent := firstn (Z.to_nat wc) (concat iovecs) in
            let w1 := stopped_by c (log (IoWritev fd iovecs sent) w) in
            if wc <? 0 then Some (wc, cs', w1)
            else writev_fd_from (wo + wc) cs' w1 fd iovecs count
        end
    end
  else Some (0, cs, w).

(** [writev_fd] (lines 279-328). *)
Definition writev_fd (cs : list completion) (w : world) (fd : Z)
    (iovecs : list (list Z)) : ran Z :=
  writev_fd_from 0 cs w fd iovecs (writev_count iovecs).

(** [struct fwd_args], the descriptors left out: the worker addresses them
    by their registered indices [rfd = 0] and [wfd = 1]. *)
Record fwd_args := mk_fwd_args {
  read_sz : Z;
  read_hdr : bool;
  write_hdr : bool
}.

Definition rfd : Z := 0.
Definition wfd : Z := 1.

Notation "' ( x , cs , w ) <- e ;; k" :=
  (match e with
   | Some (x, cs, w) => k
   | None => None
   end)
  (at level 10, x name, cs name, w name, e at level 100, k at level 200).

Section Fwd.
Variable host : endianness.
Variable args : fwd_args.

(** Lines 385-418: the payload read and the write of one iteration; the
    result says whether the loop goes on ([inl ret]) or to [end] ([inr ret]). *)
Definition fwd_chunk (sz : Z) (exact : bool) (cs : list completion) (w : world)
  : ran (Z + Z) :=
  '(ret, cs1, w1) <- read_fd cs w rfd sz exact ;;
  if ret <? 0 then Some (inr ret, cs1, w1)
  else
    let sz1 := to_u16 ret in
    if sz1 <=? 0 then Some (inl ret, cs1, w1)
    else if write_hdr args then
      let iovecs := [bytes_of (set_i host sz1); slice (buf w1) 0 sz1] in
      '(ret1, cs2, w2) <- writev_fd cs1 w1 wfd iovecs ;;
      Some (if ret1 <? 0 then inr ret1 else inl ret1, cs2, w2)
    else
      '(ret1, cs2, w2) <- write_fd cs1 w1 wfd sz1 ;;
      Some (if ret1 <? 0 then inr ret1 else inl ret1, cs2, w2).

(** Lines 367-418: the body of [while (working)]. *)
Definition fwd_body (cs : list completion) (w : world) : ran (Z + Z) :=
  if read_hdr args then
    '(ret, cs1, w1) <- read_fd cs w rfd 2 true ;;
    if ret <? 0 then Some (inr ret, cs1, w1)
    else
      let sz := mk_b_u16 (nth 0 (buf w1) 0) (nth 1 (buf w1) 0) in
      fwd_chunk (get_i host sz) true cs1 w1
  else fwd_chunk (to_u16 (read_sz args)) false cs w.

(** Lines 366-419 and the [return ret] of line 426; [fuel] bounds the
    number of iterations, [None] also when it is used up. *)
Fixpoint fwd_loop (fuel : nat) (ret : Z) (cs : list completion) (w : world)
  : ran Z :=
  match fuel with
  | O => None
  | S fuel' =>
      if working w then
        '(r, cs1, w1) <- fwd_body cs w ;;
        match r with
        | inr ret1 => Some (ret1, cs1, w1)
        | inl ret1 => fwd_loop fuel' ret1 cs1 w1
        end
      else Some (ret, cs, w)
  end.

(** [fwd] (lines 330-427). [block] is what [malloc(read_sz)] gives: [None]
    for a null pointer, else the block with the bytes it happens to hold;
    [reg] is the result of [io_uring_register_files]. *)
Definition fwd (block : option (list Z)) (reg : Z) (flag : bool)
    (fuel : nat) (cs : list completion) : ran Z :=
  match block with
  | None => Some (- ENOMEM, cs, mk_world flag [] [])
  | Some bytes =>
      let w := mk_world flag bytes [] in
      if reg <? 0 then Some (reg, cs, w)
      else fwd_loop fuel reg cs w
  end.

End Fwd.

(** *** Vocabulary of the properties *)

(** The bytes that the writes of a trace put on the sink. *)
Fixpoint emitted (evs : list io_event) : list Z :=
  match evs with
  | [] => []
  | IoRead _ _ _ :: evs' => emitted evs'
  | IoWrite _ _ _ sent :: evs' => sent ++ emitted evs'
  | IoWritev _ _ sent :: evs' => sent ++ emitted evs'
  end.

(** A read submission stays inside a block of [size] bytes. *)
Definition read_in_bounds (size : Z) (e : io_event) : bool :=
  match e with
  | IoRead _ off len => (0 <=? off) && (off + len <=? size)
  | _ => true
  end.

(** *** Scenarios *)

(** A read that completes with 0 bytes: end of file. *)
Definition eof : completion := mk_completion (Cqe 0 []) false.

(** The same, with [fwd_stop] called meanwhile. *)
Definition eof_then_stop : completion := mk_completion (Cqe 0 []) true.

Definition completes (res : Z) (data : list Z) : completion :=
  mk_completion (Cqe res data) false.

Definition completes_then_stop (res : Z) (data : list Z) : completion :=
  mk_completion (Cqe res data) true.

(** [EBADF]. *)
Definition EBADF : Z := 9.

(** *** The properties as the specification words them *)

(** Read-exact: an end of file before [count] bytes ends the call with a
    failure, the later answers of the environment left unused. *)
Definition eof_fails_read : Prop :=
  forall cs w fd count,
    working w = true -> 0 < count ->
    exists ret w',
      read_fd (eof :: cs) w fd count true = Some (ret, cs, w') /\ ret < 0.

(** *** What the ring owes the forwarder *)

(** The answers to the writes of [left] bytes that are still to go: a wait
    that fails gives a negative value, and a write takes no more than is
    left. Once nothing is left the answers belong to later calls. *)
Fixpoint writes_ok (left : Z) (cs : list completion) : Prop :=
  match cs with
  | [] => True
  | c :: cs' =>
      left <= 0 \/
      match c_cq c with
      | NoSqe => True
      | WaitErr ret => ret < 0
      | Cqe wc _ => wc < 0 \/ (0 <= wc <= left /\ writes_ok (left - wc) cs')
      end
  end.

(** The same for reads; a read delivers the bytes it reports. *)
Fixpoint reads_ok (left : Z) (cs : list completion) : Prop :=
  match cs with
  | [] => True
  | c :: cs' =>
      left <= 0 \/
      match c_cq c with
      | NoSqe => True
      | WaitErr ret => ret < 0
      | Cqe res data =>
          res < 0 \/
          (0 <= res <= left /\ res <= count_of data /\ reads_ok (left - res) cs')
      end
  end.

(** The bytes that a completed read delivered. *)
Definition delivered (c : completion) : list Z :=
  match c_cq c with
  | Cqe res data => firstn (Z.to_nat res) data
  | _ => []
  end.

Definition all_delivered (cs : list completion) : list Z :=
  concat (map delivered cs).

(** Every read of a trace is a read of [len] bytes at the start of the
    block. *)
Definition reads_at_start (len : Z) (evs : list io_event) : Prop :=
  Forall (fun e => match e with
                   | IoRead _ off n => off = 0 /\ n = len
                   | _ => True
                   end) evs.

(** A call adds to the log, and what it adds has its reads at the start of
    the block, [len] bytes long. *)
Definition adds_reads_at_start (len : Z) (w w' : world) : Prop :=
  exists evs, trace w' = trace w ++ evs /\ reads_at_start len evs.

(** *** A worker that is stopped while it runs *)




End Forward.

(** ** Interface helpers of network.c: [parse_prefix_len], [net_if_alias] *)

Module Net.
Import Mem.

(** A C string is the list of its characters before the terminating NUL,
    each a character code. *)
Definition slash : Z := 47.
Definition colon : Z := 58.
Definition minus : Z := 45.
Definition plus : Z := 43.

(** [strchr(s, c)] for [c] other than NUL: the string from the first [c]
    on, or a null pointer. *)
Fixpoint strchr (s : list Z) (c : Z) : option (list Z) :=
  match s with
  | [] => None
  | x :: s' => if x =? c then Some s else strchr s' c
  end.

(** [atol] as the C library has it ([strtol] in base 10): white space, an
    optional sign, then the digits up to the first character that is none;
    a value out of range for [long] is clamped. *)
Definition isspace (c : Z) : bool := (c =? 32) || ((9 <=? c) && (c <=? 13)).
Definition isdigit (c : Z) : bool := (48 <=? c) && (c <=? 57).

Fixpoint skip_spaces (s : list Z) : list Z :=
  match s with
  | [] => []
  | x :: s' => if isspace x then skip_spaces s' else s
  end.

Fixpoint digits_value (acc : Z) (s : list Z) : Z :=
  match s with
  | [] => acc
  | x :: s' => if isdigit x then digits_value (10 * acc + (x - 48)) s' else acc
  end.

Definition LONG_MAX : Z := 2 ^ 63 - 1.
Definition LONG_MIN : Z := - 2 ^ 63.

Definition atol (s : list Z) : Z :=
  let s1 := skip_spaces s in
  let v := match s1 with
           | x :: s2 =>
               if x =? minus then - digits_value 0 s2
               else if x =? plus then digits_value 0 s2
               else digits_value 0 s1
           | [] => 0
           end in
  Z.max LONG_MIN (Z.min LONG_MAX v).

(** Conversion of a [long] or an [unsigned] to [int]. *)
Definition to_int (x : Z) : Z := (x + 2 ^ 31) mod 2 ^ 32 - 2 ^ 31.

(** [parse_prefix_len] (lines 31-37). *)
Definition parse_prefix_len (ip : list Z) : Z :=
  match strchr ip slash with
  | Some cp => to_int (atol (tl cp))
  | None => -1
  end.

(** [if ((pl = parse_prefix_len(ip6)) < 0) pl = 128;] of [net_if_addr6]
    (lines 274-276) and [net_route6] (lines 411-413): the local [pl]. *)
Definition prefix_len_or_128 (ip6 : list Z) : Z :=
  let pl := parse_prefix_len ip6 in
  if pl <? 0 then 128 else pl.

(** [ifr6.prefixlen = pl;] of [net_if_addr6] (line 279): the member of
    [struct ifreq6_stub] is a [uint32_t]. *)
Definition if_addr6_prefixlen (ip6 : list Z) : Z :=
  prefix_len_or_128 ip6 mod 2 ^ 32.

(** [rt.rtmsg_dst_len = pl;] of [net_route6] (line 415): the member of
    [struct in6_rtmsg], from <linux/ipv6_route.h>, is a [__u16]. *)
Definition route6_dst_len (ip6 : list Z) : Z :=
  prefix_len_or_128 ip6 mod 2 ^ 16.

(** The characters of a number in base 10. *)
Fixpoint uint_chars (d : Decimal.uint) : list Z :=
  match d with
  | Decimal.Nil => []
  | Decimal.D0 d' => 48 :: uint_chars d'
  | Decimal.D1 d' => 49 :: uint_chars d'
  | Decimal.D2 d' => 50 :: uint_chars d'
  | Decimal.D3 d' => 51 :: uint_chars d'
  | Decimal.D4 d' => 52 :: uint_chars d'
  | Decimal.D5 d' => 53 :: uint_chars d'
  | Decimal.D6 d' => 54 :: uint_chars d'
  | Decimal.D7 d' => 55 :: uint_chars d'
  | Decimal.D8 d' => 56 :: uint_chars d'
  | Decimal.D9 d' => 57 :: uint_chars d'
  end.

Definition decimal (n : nat) : list Z := uint_chars (Nat.to_uint n).

(** What ["%d"] prints for an [int]. *)
Definition fmt_d (v : Z) : list Z :=
  if v <? 0 then minus :: decimal (Z.to_nat (- v)) else decimal (Z.to_nat v).

(** [sizeof(ifr->ifr_name)], from <linux/if.h>. *)
Definition IFNAMSIZ : Z := 16.

(** [snprintf(dst, size, "%s:%d", name, v)]: what [dst] holds afterwards,
    at most [size - 1] characters. *)
Definition snprintf_s_colon_d (size : Z) (name : list Z) (v : Z) : list Z :=
  firstn (Z.to_nat (size - 1)) (name ++ [colon] ++ fmt_d v).

(** [static unsigned int alias_counter] and the [ifr_name] of the caller. *)
Record alias_state := mk_alias_state {
  alias_counter : Z;
  ifr_name : list Z
}.

(** [net_if_alias] (lines 39-47): the value returned and the state left. *)
Definition net_if_alias (s : alias_state) (name : list Z) : Z * alias_state :=
  let suffix_len := 5 in
  if count_of name >=? IFNAMSIZ - suffix_len then (-1, s)
  else
    let counter := (alias_counter s + 1) mod 2 ^ 32 in
    (0, mk_alias_state counter
          (snprintf_s_colon_d (IFNAMSIZ - 1) name (to_int counter))).

(** The text after the digits: nothing, or something that starts with a
    character that is no digit. *)
Definition no_digit_ahead (rest : list Z) : Prop :=
  match rest with
  | [] => True
  | x :: _ => isdigit x = false
  end.

End Net.

(** ** Set-up and [main]: network.c 69-160, pump.c *)

Module Setup.
Import Codec Pump.

(** The system calls of the set-up code that succeed or fail, with the
    value they returned, and the calls whose result the code does not look
    at. *)
Inductive call :=
| Socket (ret : Z)
| FcntlGetfl (fd ret : Z)
| FcntlSetfl (fd ret : Z)
| Unlink
| Bind (fd ret : Z)
| Chmod (ret : Z)
| Connect (fd ret : Z)
| OpenTun (ret : Z)
| IoctlTunsetiff (fd ret : Z)
| Close (fd : Z).

(** The values that the calls return, in the order the program makes
    them; the program is at answer number [k]. *)
Definition answers := nat -> Z.

Definition sysM (A : Type) : Type := answers -> nat -> A * list call * nat.

Definition ret {A : Type} (a : A) : sysM A := fun _ k => (a, [], k).

Definition bind {A B : Type} (m : sysM A) (f : A -> sysM B) : sysM B :=
  fun ans k =>
    let '(a, c1, k1) := m ans k in
    let '(b, c2, k2) := f a ans k1 in
    (b, c1 ++ c2, k2).

(** A call whose result the program uses. *)
Definition ask (mk : Z -> call) : sysM Z :=
  fun ans k => (ans k, [mk (ans k)], S k).

(** A call whose result the program drops. *)
Definition tell (c : call) : sysM unit := fun _ k => (tt, [c], k).

Notation "x <~ m ;; f" := (bind m (fun x => f))
  (at level 61, m at next level, right associativity).
Notation "m ;;; f" := (bind m (fun _ => f))
  (at level 61, right associativity).

(** [net_create_unix_socket] (lines 95-138). *)
Definition net_create_unix_socket (conn : bool) : sysM Z :=
  fd <~ ask Socket ;;
  if fd <? 0 then ret fd
  else
    flags <~ ask (FcntlGetfl fd) ;;
    r <~ ask (FcntlSetfl fd) ;;
    if r <? 0 then ret fd
    else
      tell Unlink ;;;
      r <~ ask (Bind fd) ;;
      if r <? 0 then tell (Close fd) ;;; ret (-1)
      else
        r <~ ask Chmod ;;
        if r <? 0 then tell (Close fd) ;;; ret (-1)
        else if conn then
          r <~ ask (Connect fd) ;;
          if r <? 0 then tell (Close fd) ;;; ret (-1) else ret fd
        else ret fd.

(** [net_connect_unix_socket] (lines 140-160). *)
Definition net_connect_unix_socket : sysM Z :=
  fd <~ ask Socket ;;
  if fd <? 0 then ret fd
  else
    r <~ ask (Connect fd) ;;
    if r <? 0 then tell (Close fd) ;;; ret (-1) else ret fd.

(** [net_create_tap] (lines 69-93). *)
Definition net_create_tap : sysM Z :=
  fd <~ ask OpenTun ;;
  if fd <? 0 then ret fd
  else
    r <~ ask (IoctlTunsetiff fd) ;;
    if r <? 0 then tell (Close fd) ;;; ret r else ret fd.

(** The descriptors of pump.c, -1 at the start. *)
Record globals := mk_globals {
  g_net_read_fd : Z;
  g_net_write_fd : Z;
  g_net_tap_fd : Z
}.

(** [#define MIN_MTU (576 + 14)] *)
Definition MIN_MTU : Z := 576 + 14.

(** How [main] ends: by [exit] or [return] with a status, or not at all
    because [pump] has not returned. *)
Inductive ending := Exited (status : Z) | InPump (st : state).

Definition close_if_open (fd : Z) : sysM unit :=
  if fd >? 0 then tell (Close fd) else ret tt.

(** [die] (lines 26-32). *)
Definition die (g : globals) : sysM ending :=
  close_if_open (g_net_tap_fd g) ;;;
  close_if_open (g_net_read_fd g) ;;;
  close_if_open (g_net_write_fd g) ;;;
  ret (Exited 1).

(** [main] (lines 54-112), its arguments counted and [argv[6]] converted;
    beside the ending and the set-up calls, the calls of [pump]. *)
Definition main (argc mtu : Z) (host : endianness) (env : list syscalls)
  : sysM (ending * list event) :=
  let dies g := e <~ die g ;; ret (e, []) in
  let g0 := mk_globals (-1) (-1) (-1) in
  if argc <? 7 then dies g0
  else if mtu <? MIN_MTU then dies g0
  else
    r <~ net_create_unix_socket false ;;
    let g1 := mk_globals r (g_net_write_fd g0) (g_net_tap_fd g0) in
    if r =? -1 then dies g1
    else
      w <~ net_connect_unix_socket ;;
      let g2 := mk_globals r w (g_net_tap_fd g1) in
      if w =? -1 then dies g2
      else
        t <~ net_create_tap ;;
        let g3 := mk_globals r w t in
        if t =? -1 then dies g3
        else
          match pump mtu host env with
          | (Returned _, evs) => ret (Exited 0, evs)
          | (Running st, evs) => ret (InPump st, evs)
          end.

(** *** Vocabulary of the properties *)

Fixpoint close_one (fd : Z) (open : list Z) : list Z :=
  match open with
  | [] => []
  | x :: open' => if x =? fd then open' else x :: close_one fd open'
  end.

(** The descriptors that a sequence of calls leaves open, the latest
    first. *)
Fixpoint still_open (open : list Z) (calls : list call) : list Z :=
  match calls with
  | [] => open
  | Socket r :: calls' | OpenTun r :: calls' =>
      still_open (if r <? 0 then open else r :: open) calls'
  | Close fd :: calls' => still_open (close_one fd open) calls'
  | _ :: calls' => still_open open calls'
  end.

(** A call that opens a descriptor fails with -1 or gives a descriptor
    above 0; any other call fails with -1 or gives 0 or more. *)
Definition posix (c : call) : Prop :=
  match c with
  | Socket r | OpenTun r => r = -1 \/ 0 < r
  | FcntlGetfl _ r | FcntlSetfl _ r | Bind _ r | Chmod r | Connect _ r
  | IoctlTunsetiff _ r => -1 <= r
  | Unlink | Close _ => True
  end.

(** What a creator did that returned [r]: it failed with -1 and left open
    what was open before, or it returned a descriptor above 0 and left that
    open too. *)
Definition kept_or_closed (r : Z) (calls : list call) : Prop :=
  forall open,
    (r = -1 /\ still_open open calls = open) \/
    (0 < r /\ still_open open calls = r :: open).

(** A piece of set-up code run from the first answer. *)
Definition run {A : Type} (m : sysM A) (ans : answers) : A * list call :=
  let '(a, calls, _) := m ans 0%nat in (a, calls).

(** The answers [vs], in this order, followed by zeros. *)
Definition answering (vs : list Z) : answers := fun k => nth k vs 0.

End Setup.

(** * Properties *)

(** ** The length field *)

Section CodecFacts.
Import Codec.

Lemma land_255_mod (v : Z) : Z.land v 255 = v mod 256.
Proof. change 255 with (Z.ones 8). rewrite Z.land_ones by lia. reflexivity. Qed.

Lemma shiftr_8_div (v : Z) : Z.shiftr v 8 = v / 256.
Proof. rewrite Z.shiftr_div_pow2 by lia. reflexivity. Qed.

Lemma join_bytes (v : Z) :
  0 <= v < 65536 -> Z.lor (Z.land v 255) (Z.shiftl (Z.shiftr v 8) 8) = v.
Proof.
  intros _.
  rewrite <- Z.ldiff_ones_r by lia.
  change (Z.ones 8) with 255.
  rewrite Z.lor_comm. apply Z.lor_ldiff_and.
Qed.

Lemma get_set_i (host : endianness) (x : Z) :
  get_i host (set_i host x) = to_u16 x.
Proof.
  assert (R : 0 <= to_u16 x < 65536) by (unfold to_u16; apply Z.mod_pos_bound; lia).
  destruct host; unfold get_i, set_i; cbn [b0 b1]; apply join_bytes; exact R.
Qed.

Lemma set_i_little_bytes (x : Z) :
  bytes_of (set_i LittleEndian x) = [Z.land x 255; Z.land (Z.shiftr x 8) 255].
Proof.
  unfold bytes_of, set_i, to_u16; cbn [b0 b1].
  rewrite !land_255_mod, !shiftr_8_div.
  f_equal; [|f_equal]; Z.div_mod_to_equations; lia.
Qed.

Lemma to_u16_small (x : Z) : 0 <= x <= 65535 -> to_u16 x = x.
Proof. intros H. unfold to_u16. apply Z.mod_small. lia. Qed.

(** C9. A length between 0 and 65535, stored through the [uint16_t] member
    of the union and read back from its two bytes, is the same length, on a
    host of either byte order. *)
Theorem length_field_roundtrip (host : endianness) (L : Z) :
  0 <= L <= 65535 ->
  let bytes := bytes_of (set_i host L) in
  get_i host (mk_b_u16 (nth 0 bytes 0) (nth 1 bytes 0)) = L.
Proof.
  intros H bytes. subst bytes. unfold bytes_of. cbn [nth].
  transitivity (get_i host (set_i host L)).
  - destruct (set_i host L); reflexivity.
  - rewrite get_set_i. apply to_u16_small. exact H.
Qed.

Lemma length_field_roundtrip_witness :
  let bytes := bytes_of (set_i LittleEndian 590) in
  bytes = [78; 2] /\ get_i LittleEndian (mk_b_u16 (nth 0 bytes 0) (nth 1 bytes 0)) = 590.
Proof.
  split; [reflexivity | apply (length_field_roundtrip LittleEndian 590); lia].
Defined.

End CodecFacts.

(** ** Byte arrays *)

Section MemFacts.
Import Mem.

Lemma firstn_plus {A} (n m : nat) (l : list A) :
  firstn (n + m) l = firstn n l ++ firstn m (skipn n l).
Proof.
  revert l. induction n as [|n IH]; intros l; [reflexivity|].
  destruct l as [|a l]; cbn [Nat.add firstn skipn app].
  - now rewrite firstn_nil.
  - now rewrite IH.
Qed.

Lemma slice_split (b : list Z) (off n m : Z) :
  0 <= off -> 0 <= n -> 0 <= m ->
  slice b off n ++ slice b (off + n) m = slice b off (n + m).
Proof.
  intros Ho Hn Hm. unfold slice.
  rewrite !Z2Nat.inj_add by lia.
  rewrite firstn_plus, skipn_skipn, (Nat.add_comm (Z.to_nat n)). reflexivity.
Qed.

Lemma slice_zero (b : list Z) (off : Z) : slice b off 0 = [].
Proof. reflexivity. Qed.

Lemma slice_prefix (a b : list Z) :
  slice (a ++ b) 0 (count_of a) = a.
Proof.
  unfold slice, count_of. rewrite Nat2Z.id. cbn [Z.to_nat skipn].
  rewrite firstn_app, Nat.sub_diag, firstn_all. cbn. apply app_nil_r.
Qed.

(** Storing two bytes at the start, after a payload at offset 2: the array
    then begins with the two bytes and the payload. *)
Lemma store_header_payload (b : list Z) (h0 h1 : Z) (data : list Z) :
  (2 <= length b)%nat ->
  exists rest,
    store (store b 2 data) 0 [h0; h1] = ([h0; h1] ++ data) ++ rest.
Proof.
  intros Hb. unfold store. cbn [Z.to_nat firstn Nat.add length app].
  destruct b as [|x [|y b]]; cbn [length] in Hb; try lia.
  change (Pos.to_nat 2) with 2%nat. cbn [firstn skipn app Nat.add].
  eexists. reflexivity.
Qed.

Lemma store_at_start (b data : list Z) :
  store b 0 data = data ++ skipn (length data) b.
Proof. reflexivity. Qed.

End MemFacts.

(** ** The pump *)

Section PumpFacts.
Import Codec Mem Pump.

Lemma framed_little (data : list Z) : framed LittleEndian data = le_frame data.
Proof. unfold framed, le_frame. now rewrite set_i_little_bytes. Qed.

Lemma frames_read_little (evs : list event) :
  frames_read LittleEndian evs = le_frames evs.
Proof.
  induction evs as [|e evs IH]; [reflexivity|].
  destruct e as [|off len [errno|[|b data]]| | |]; cbn [frames_read le_frames];
    rewrite ?IH, ?framed_little; reflexivity.
Qed.

Lemma wire_app (e1 e2 : list event) : wire (e1 ++ e2) = wire e1 ++ wire e2.
Proof.
  induction e1 as [|e e1 IH]; [reflexivity|].
  destruct e; cbn [app wire]; rewrite IH, ?app_assoc; reflexivity.
Qed.

Lemma frames_read_app (host : endianness) (e1 e2 : list event) :
  frames_read host (e1 ++ e2) = frames_read host e1 ++ frames_read host e2.
Proof.
  induction e1 as [|e e1 IH]; [reflexivity|].
  destruct e as [|off len [errno|[|b data]]| | |]; cbn [app frames_read];
    rewrite IH, ?app_assoc; reflexivity.
Qed.

Lemma conserves_and_then MTU host (f g : step) :
  conserves MTU host f -> conserves MTU host g ->
  conserves MTU host (and_then f g).
Proof.
  intros Hf Hg st r ev st' Hok Hrun Henv Hst.
  unfold and_then in Hrun.
  destruct (f st) as [[st1|st1|code] ev1] eqn:Ef.
  - destruct (g st1) as [r2 ev2] eqn:Eg.
    injection Hrun as <- <-.
    apply Forall_app in Henv as [Henv1 Henv2].
    destruct (Hf st (Fall st1) ev1 st1 Hok Ef Henv1 eq_refl) as [Hok1 Hw1].
    destruct (Hg st1 r2 ev2 st' Hok1 Eg Henv2 Hst) as [Hok2 Hw2].
    split; [exact Hok2|].
    rewrite wire_app, frames_read_app, <- app_assoc, Hw2.
    rewrite !app_assoc. f_equal. exact Hw1.
  - injection Hrun as <- <-. exact (Hf st _ _ st' Hok Ef Henv Hst).
  - injection Hrun as <- <-. discriminate Hst.
Qed.

Lemma conserves_tap_fill MTU mtu host sc : conserves MTU host (tap_fill mtu host sc).
Proof.
  intros st r ev st' [Hlen Hoff] Hrun Henv Hst.
  unfold tap_fill in Hrun.
  destruct (rtotal st =? 0) eqn:Eidle.
  - apply Z.eqb_eq in Eidle.
    assert (Hpend : pending st = []).
    { unfold pending. replace (rtotal st - roff st) with 0 by lia. apply slice_zero. }
    destruct (r_read sc) as [errno|data] eqn:Eread.
    + injection Hrun as <- <-. unfold on_errno in Hst.
      destruct (errno =? EAGAIN); [|discriminate Hst].
      injection Hst as <-. split; [split; assumption|].
      cbn. now rewrite app_nil_r.
    + destruct (count_of data =? 0) eqn:Ecount.
      * injection Hrun as <- <-. injection Hst as <-.
        split; [split; assumption|].
        apply Z.eqb_eq in Ecount. unfold count_of in Ecount.
        destruct data; [|cbn [length] in Ecount; lia].
        cbn. now rewrite app_nil_r.
      * injection Hrun as <- <-. injection Hst as <-.
        apply Z.eqb_neq in Ecount.
        destruct data as [|b data]; [contradiction Ecount; reflexivity|].
        remember (b :: data) as frame eqn:Eframe.
        destruct (store_header_payload (rbuf st)
                    (b0 (set_i host (count_of frame)))
                    (b1 (set_i host (count_of frame))) frame Hlen)
          as [rest Hstore].
        unfold bytes_of. change hsz with 2. rewrite Hstore.
        split.
        -- split; cbn [rbuf roff rtotal]; [|unfold count_of; lia].
           rewrite !length_app. cbn [length]. lia.
        -- rewrite Hpend. subst frame. cbn [wire frames_read app].
           unfold pending; cbn [rbuf roff rtotal]. unfold framed, bytes_of.
           replace (count_of (b :: data) + 2 - 0)
             with (count_of ([b0 (set_i host (count_of (b :: data)));
                              b1 (set_i host (count_of (b :: data)))] ++ b :: data)).
           ++ rewrite app_nil_r. apply (slice_prefix (_ :: _ :: b :: data) rest).
           ++ unfold count_of. rewrite length_app. cbn [length]. lia.
  - injection Hrun as <- <-. injection Hst as <-.
    split; [split; assumption|]. cbn. now rewrite app_nil_r.
Qed.

Lemma conserves_tap_drain MTU host sc : conserves MTU host (tap_drain sc).
Proof.
  intros st r ev st' [Hlen Hoff] Hrun Henv Hst.
  unfold tap_drain in Hrun.
  destruct (r_sendto sc) as [errno|n] eqn:Esend.
  - injection Hrun as <- <-. unfold on_errno in Hst.
    destruct (errno =? EAGAIN); [|discriminate Hst].
    injection Hst as <-. split; [split; assumption|].
    cbn. now rewrite app_nil_r.
  - destruct (roff st + n >=? rtotal st) eqn:Edone;
      rewrite Z.geb_leb in Edone;
      [apply Z.leb_le in Edone | apply Z.leb_gt in Edone];
      injection Hrun as <- <-; injection Hst as <-;
      apply Forall_inv in Henv; cbn in Henv;
      cbn [wire frames_read]; rewrite !app_nil_r;
      unfold pending, tap_ok; cbn [rbuf roff rtotal].
    + split; [split; [assumption|lia]|].
      assert (n = rtotal st - roff st) as -> by lia.
      rewrite ?Z.sub_diag, ?slice_zero, ?app_nil_r. reflexivity.
    + split; [split; [assumption|lia]|].
      rewrite slice_split by lia. f_equal. lia.
Qed.

Lemma untouched_conserves MTU host f :
  tap_untouched host f -> conserves MTU host f.
Proof.
  intros Hf st r ev st' Hok Hrun _ Hst.
  destruct (Hf st r ev st' Hrun Hst) as [(Hb & Ho & Ht) [Hw Hfr]].
  unfold tap_ok, pending in *. rewrite Hb, Ho, Ht, Hw, Hfr.
  split; [exact Hok|]. now rewrite app_nil_r.
Qed.

Ltac flow_cases Hrun Hst :=
  repeat match type of Hrun with
         | context [if ?c then _ else _] => destruct c
         | context [match ?x with _ => _ end] => destruct x
         end;
  injection Hrun as <- <-;
  try (unfold on_errno in Hst;
       match type of Hst with
       | context [if ?c then _ else _] => destruct c
       end);
  try discriminate Hst;
  injection Hst as <-;
  repeat split.

Lemma untouched_sock_fill mtu host sc : tap_untouched host (sock_fill mtu host sc).
Proof. intros st r ev st' Hrun Hst. unfold sock_fill in Hrun. flow_cases Hrun Hst. Qed.

Lemma untouched_sock_drain host sc : tap_untouched host (sock_drain sc).
Proof. intros st r ev st' Hrun Hst. unfold sock_drain in Hrun. flow_cases Hrun Hst. Qed.

Lemma untouched_sock_reset host : tap_untouched host sock_reset.
Proof. intros st r ev st' Hrun Hst. unfold sock_reset in Hrun. flow_cases Hrun Hst. Qed.

Lemma conserves_skip MTU host : conserves MTU host (fun st => (Fall st, [])).
Proof.
  intros st r ev st' Hok Hrun _ Hst. injection Hrun as <- <-. injection Hst as <-.
  split; [exact Hok|]. cbn. now rewrite app_nil_r.
Qed.

Lemma conserves_tap_section MTU mtu host sc ready :
  conserves MTU host (tap_section mtu host sc ready).
Proof.
  destruct ready.
  - apply (conserves_and_then MTU host (tap_fill mtu host sc) (tap_drain sc)).
    + apply conserves_tap_fill.
    + apply conserves_tap_drain.
  - apply conserves_skip.
Qed.

Lemma conserves_sock_section MTU mtu host sc ready :
  conserves MTU host (sock_section mtu host sc ready).
Proof.
  destruct ready.
  - apply (conserves_and_then MTU host (sock_fill mtu host sc)
             (and_then (sock_drain sc) sock_reset)).
    + apply untouched_conserves, untouched_sock_fill.
    + apply conserves_and_then; apply untouched_conserves.
      * apply untouched_sock_drain.
      * apply untouched_sock_reset.
  - apply conserves_skip.
Qed.

Lemma conserves_pump_iter MTU mtu host sc :
  conserves MTU host (pump_iter mtu host sc).
Proof.
  intros st r ev st' Hok Hrun Henv Hst. unfold pump_iter in Hrun.
  destruct (r_select sc) as [errno|tun_ready read_ready].
  - injection Hrun as <- <-. discriminate Hst.
  - destruct ((tap_section mtu host sc tun_ready;; sock_section mtu host sc read_ready) st)
      as [r1 ev1] eqn:Ebody.
    injection Hrun as <- <-.
    apply Forall_inv_tail in Henv.
    exact (conserves_and_then MTU host _ _
             (conserves_tap_section MTU mtu host sc tun_ready)
             (conserves_sock_section MTU mtu host sc read_ready)
             st r1 ev1 st' Hok Ebody Henv Hst).
Qed.

(** Over any run of the loop that has not returned: the bytes sent, then the
    bytes still pending, are the bytes that were pending at the start, then
    the frames read since, framed. *)
Lemma pump_loop_conserves MTU mtu host env :
  forall st st' evs,
    tap_ok st ->
    pump_loop mtu host env st = (Running st', evs) ->
    Forall (env_ok MTU) evs ->
    tap_ok st' /\
    wire evs ++ pending st' = pending st ++ frames_read host evs.
Proof.
  induction env as [|sc env IH]; intros st st' evs Hok Hrun Henv.
  - injection Hrun as <- <-. split; [exact Hok|]. cbn. now rewrite app_nil_r.
  - cbn [pump_loop] in Hrun.
    destruct (pump_iter mtu host sc st) as [r ev] eqn:Eiter.
    assert (Hnext : forall st1, state_of r = Some st1 ->
              (let (out, ev') := pump_loop mtu host env st1 in (out, ev ++ ev'))
                = (Running st', evs) ->
              tap_ok st' /\ wire evs ++ pending st' = pending st ++ frames_read host evs).
    { intros st1 Hst Hrest.
      destruct (pump_loop mtu host env st1) as [out ev'] eqn:Erest.
      injection Hrest as -> <-.
      apply Forall_app in Henv as [Henv1 Henv2].
      destruct (conserves_pump_iter MTU mtu host sc st r ev st1 Hok Eiter Henv1 Hst)
        as [Hok1 Hw1].
      destruct (IH st1 st' ev' Hok1 Erest Henv2) as [Hok2 Hw2].
      split; [exact Hok2|].
      rewrite wire_app, frames_read_app, <- app_assoc, Hw2.
      rewrite !app_assoc. f_equal. exact Hw1. }
    destruct r as [st1|st1|code].
    + apply (Hnext st1 eq_refl Hrun).
    + apply (Hnext st1 eq_refl Hrun).
    + discriminate Hrun.
Qed.

Lemma sized_tap_ok MTU st :
  0 <= MTU -> sized MTU st -> 0 <= roff st <= rtotal st -> tap_ok st.
Proof.
  intros HM [Hr _] Hoff. split; [|exact Hoff].
  rewrite Hr. unfold hsz. lia.
Qed.

(** C2, on a little-endian host. Over any run of the pump that starts with
    the TAP-to-socket direction idle, the bytes sent are, frame after frame,
    the byte [L & 0xFF], the byte [(L >> 8) & 0xFF] and the [L] bytes read
    from the TAP; what is missing of the last frame is still in the buffer. *)
Theorem wire_frames_little_endian (MTU : Z) (env : list syscalls)
    (st st' : state) (evs : list event) :
  0 <= MTU -> sized MTU st -> idle_tap st ->
  pump_loop (MTU + hsz) LittleEndian env st = (Running st', evs) ->
  Forall (env_ok MTU) evs ->
  wire evs ++ pending st' = le_frames evs.
Proof.
  intros HM Hsz [Ht Ho] Hrun Henv.
  assert (Hok : tap_ok st) by (apply (sized_tap_ok MTU); [assumption..|lia]).
  destruct (pump_loop_conserves MTU _ LittleEndian env st st' evs Hok Hrun Henv)
    as [_ Hw].
  rewrite Hw, frames_read_little.
  unfold pending. rewrite Ht, Ho. reflexivity.
Qed.

Lemma wire_frames_little_endian_witness :
  pump 590 LittleEndian [tap_frame payload4 (TxCount 6)]
    = (Running (sending ([4; 0] ++ payload4) 0 0),
       [Select; Read 2 592 (RxData payload4);
        Sendto 0 6 (TxCount 6) ([4; 0] ++ payload4)]) /\
  wire [Select; Read 2 592 (RxData payload4);
        Sendto 0 6 (TxCount 6) ([4; 0] ++ payload4)]
    ++ pending (sending ([4; 0] ++ payload4) 0 0)
  = le_frames [Select; Read 2 592 (RxData payload4);
               Sendto 0 6 (TxCount 6) ([4; 0] ++ payload4)].
Proof.
  split; [vm_compute; reflexivity|].
  apply (wire_frames_little_endian 590 [tap_frame payload4 (TxCount 6)] (init 590)).
  - lia.
  - split; reflexivity.
  - split; reflexivity.
  - vm_compute; reflexivity.
  - repeat constructor; cbn; lia.
Defined.

(** C2 as worded fails: on a big-endian host the frame DE AD BE EF leaves
    with the header 00 04. *)
Lemma header_follows_host_order : ~ (forall host, wire_low_byte_first host).
Proof.
  intros H.
  specialize (H BigEndian 590 [tap_frame payload4 (TxCount 6)] (init 590)
                (sending ([0; 4] ++ payload4) 0 0)
                [Select; Read 2 592 (RxData payload4);
                 Sendto 0 6 (TxCount 6) ([0; 4] ++ payload4)]).
  assert (Hwire : [0; 4; 222; 173; 190; 239] = [4; 0; 222; 173; 190; 239]).
  { apply H.
    - lia.
    - split; reflexivity.
    - split; reflexivity.
    - vm_compute; reflexivity.
    - repeat constructor; cbn; lia. }
  discriminate Hwire.
Qed.

(** *** The rest of a frame *)

Lemma tap_reads_app (e1 e2 : list event) :
  tap_reads (e1 ++ e2) = (tap_reads e1 + tap_reads e2)%nat.
Proof.
  induction e1 as [|e e1 IH]; [reflexivity|].
  destruct e; cbn [app tap_reads]; rewrite IH; reflexivity.
Qed.

(** While a frame is being sent the TAP is not read. *)
Lemma tap_section_busy mtu host sc st :
  rtotal st <> 0 -> tap_section mtu host sc true st = tap_drain sc st.
Proof.
  intros H. unfold tap_section, and_then, tap_fill.
  replace (rtotal st =? 0) with false by (symmetry; apply Z.eqb_neq; exact H).
  destruct (tap_drain sc st) as [r ev]. reflexivity.
Qed.

Lemma leaves_tap_sock_fill mtu host sc : leaves_tap (sock_fill mtu host sc).
Proof. intros st r ev st' Hrun Hst. unfold sock_fill in Hrun. flow_cases Hrun Hst. Qed.

Lemma leaves_tap_sock_drain sc : leaves_tap (sock_drain sc).
Proof. intros st r ev st' Hrun Hst. unfold sock_drain in Hrun. flow_cases Hrun Hst. Qed.

Lemma leaves_tap_sock_reset : leaves_tap sock_reset.
Proof. intros st r ev st' Hrun Hst. unfold sock_reset in Hrun. flow_cases Hrun Hst. Qed.

Lemma leaves_tap_and_then (f g : step) :
  leaves_tap f -> leaves_tap g -> leaves_tap (and_then f g).
Proof.
  intros Hf Hg st r ev st' Hrun Hst.
  unfold and_then in Hrun.
  destruct (f st) as [[st1|st1|code] ev1] eqn:Ef.
  - destruct (g st1) as [r2 ev2] eqn:Eg.
    injection Hrun as <- <-.
    destruct (Hf st (Fall st1) ev1 st1 Ef eq_refl) as [[Hb1 [Ho1 Ht1]] [Hw1 Hr1]].
    destruct (Hg st1 r2 ev2 st' Eg Hst) as [[Hb2 [Ho2 Ht2]] [Hw2 Hr2]].
    rewrite wire_app, tap_reads_app, Hw1, Hw2, Hr1, Hr2.
    repeat split; congruence.
  - injection Hrun as <- <-. exact (Hf st _ _ st' Ef Hst).
  - injection Hrun as <- <-. discriminate Hst.
Qed.

(** The socket side neither sends nor reads the TAP, and leaves the frame
    being sent where it is. *)
Lemma sock_section_leaves_tap mtu host sc ready :
  leaves_tap (sock_section mtu host sc ready).
Proof.
  destruct ready.
  - apply (leaves_tap_and_then (sock_fill mtu host sc)
             (and_then (sock_drain sc) sock_reset)).
    + apply leaves_tap_sock_fill.
    + apply leaves_tap_and_then; [apply leaves_tap_sock_drain|apply leaves_tap_sock_reset].
  - intros st r ev st' Hrun Hst. injection Hrun as <- <-. injection Hst as <-.
    repeat split.
Qed.

(** One cycle seen from the frame being sent: what the TAP side leaves, the
    socket side keeps. *)
Lemma pump_iter_after_tap mtu host sc st tun_ready read_ready st1 ev1 r ev st' :
  r_select sc = SelReady tun_ready read_ready ->
  tap_section mtu host sc tun_ready st = (Fall st1, ev1) ->
  pump_iter mtu host sc st = (r, ev) -> state_of r = Some st' ->
  (rbuf st' = rbuf st1 /\ roff st' = roff st1 /\ rtotal st' = rtotal st1) /\
  wire ev = wire ev1 /\ tap_reads ev = tap_reads ev1.
Proof.
  intros Hsel Htap Hrun Hst. unfold pump_iter in Hrun. rewrite Hsel in Hrun.
  unfold and_then in Hrun. rewrite Htap in Hrun.
  destruct (sock_section mtu host sc read_ready st1) as [r2 ev2] eqn:Esock.
  injection Hrun as <- <-.
  destruct (sock_section_leaves_tap _ _ _ _ _ _ _ _ Esock Hst) as [Hsame [Hwire Hreads]].
  split; [exact Hsame|].
  cbn [wire tap_reads]. rewrite wire_app, tap_reads_app, Hwire, Hreads, app_nil_r.
  split; [reflexivity|lia].
Qed.

(** The cycles that send the rest of a frame send exactly the bytes that
    were left, from where the frame stands in the buffer, and read no new
    frame meanwhile. *)
Lemma rest_is_sent mtu host (env : list syscalls) :
  forall st st' evs,
    0 <= roff st < rtotal st ->
    sends_rest (rtotal st - roff st) env ->
    pump_loop mtu host env st = (Running st', evs) ->
    wire evs = pending st /\ idle_tap st' /\ rbuf st' = rbuf st /\
    tap_reads evs = 0%nat.
Proof.
  induction env as [|sc env IH]; intros st st' evs Hbusy Hrest Hrun;
    cbn [sends_rest] in Hrest; [contradiction|].
  cbn [pump_loop] in Hrun.
  destruct (pump_iter mtu host sc st) as [r ev] eqn:Eiter.
  destruct (r_select sc) as [errno|tun_ready read_ready] eqn:Esel; [contradiction|].
  assert (Hnext : forall st1 ev1,
            tap_section mtu host sc tun_ready st = (Fall st1, ev1) ->
            exists st2 evs2,
              pump_loop mtu host env st2 = (Running st', evs2) /\
              (rbuf st2 = rbuf st1 /\ roff st2 = roff st1 /\ rtotal st2 = rtotal st1) /\
              wire evs = wire ev1 ++ wire evs2 /\
              tap_reads evs = (tap_reads ev1 + tap_reads evs2)%nat).
  { intros st1 ev1 Htap.
    assert (Hst : exists st2, state_of r = Some st2 /\
              exists evs2, pump_loop mtu host env st2 = (Running st', evs2) /\
                           evs = ev ++ evs2).
    { destruct r as [st2|st2|code]; try discriminate Hrun;
        exists st2; (split; [reflexivity|]);
        destruct (pump_loop mtu host env st2) as [out evs2];
        injection Hrun as -> <-; exists evs2; split; reflexivity. }
    destruct Hst as [st2 [Hst [evs2 [Hloop ->]]]].
    destruct (pump_iter_after_tap _ _ _ _ _ _ _ _ _ _ _ Esel Htap Eiter Hst)
      as [Hsame [Hwire Hreads]].
    exists st2, evs2. rewrite wire_app, tap_reads_app, Hwire, Hreads.
    repeat split; try apply Hsame; exact Hloop. }
  destruct tun_ready.
  - assert (Hdrain : tap_section mtu host sc true st = tap_drain sc st)
      by (apply tap_section_busy; lia).
    unfold tap_drain in Hdrain.
    destruct (r_sendto sc) as [errno|k] eqn:Esend.
    + destruct Hrest as [-> Hrest].
      unfold pump_iter in Eiter. rewrite Esel in Eiter. unfold and_then in Eiter.
      rewrite Hdrain in Eiter. unfold on_errno in Eiter. rewrite Z.eqb_refl in Eiter.
      injection Eiter as <- <-.
      destruct (pump_loop mtu host env st) as [out evs2] eqn:Eloop.
      injection Hrun as -> <-.
      destruct (IH st st' evs2 Hbusy Hrest Eloop) as [Hwire [Hidle [Hbuf Hreads]]].
      cbn [app wire tap_reads]. repeat split; try assumption; apply Hidle.
    + destruct Hrest as [Hk Hrest].
      destruct (k =? rtotal st - roff st) eqn:Elast.
      * apply Z.eqb_eq in Elast. subst env.
        replace (roff st + k >=? rtotal st) with true in Hdrain
          by (symmetry; rewrite Z.geb_leb; apply Z.leb_le; lia).
        destruct (Hnext _ _ Hdrain) as [st2 [evs2 [Hloop [[Hb [Ho Ht]] [Hwire Hreads]]]]].
        cbn [pump_loop] in Hloop. injection Hloop as <- <-.
        cbn [rbuf roff rtotal wire tap_reads] in *.
        rewrite Hwire, Hreads, !app_nil_r. unfold pending, idle_tap.
        rewrite Elast. repeat split; assumption.
      * apply Z.eqb_neq in Elast.
        replace (roff st + k >=? rtotal st) with false in Hdrain
          by (symmetry; rewrite Z.geb_leb; apply Z.leb_gt; lia).
        destruct (Hnext _ _ Hdrain) as [st2 [evs2 [Hloop [[Hb [Ho Ht]] [Hwire Hreads]]]]].
        cbn [rbuf roff rtotal wire tap_reads] in *.
        destruct (IH st2 st' evs2) as [Hwire2 [Hidle [Hbuf Hreads2]]].
        -- rewrite Ho, Ht. lia.
        -- rewrite Ho, Ht. replace (rtotal st - (roff st + k))
             with (rtotal st - roff st - k) by lia. exact Hrest.
        -- exact Hloop.
        -- rewrite Hwire, Hreads, Hwire2, Hreads2, app_nil_r. unfold pending.
           rewrite Hb, Ho, Ht.
           replace (rtotal st - roff st) with (k + (rtotal st - (roff st + k))) by lia.
           rewrite slice_split by lia.
           repeat split; try apply Hidle; try reflexivity. congruence.
  - assert (Hskip : tap_section mtu host sc false st = (Fall st, [])) by reflexivity.
    destruct (Hnext _ _ Hskip) as [st2 [evs2 [Hloop [[Hb [Ho Ht]] [Hwire Hreads]]]]].
    destruct (IH st2 st' evs2) as [Hwire2 [Hidle [Hbuf Hreads2]]].
    + rewrite Ho, Ht. exact Hbusy.
    + rewrite Ho, Ht. exact Hrest.
    + exact Hloop.
    + rewrite Hwire, Hreads, Hwire2, Hreads2. unfold pending. rewrite Hb, Ho, Ht.
      cbn [wire tap_reads app Nat.add].
      repeat split; try apply Hidle; try reflexivity. congruence.
Qed.

(** C4. While a frame is being sent: a [sendto] that takes [n] bytes, fewer
    than are left, advances [roff] by [n] and leaves [rtotal] and the buffer
    as they are; [EAGAIN] leaves the state as it is. The next cycle asks
    [sendto] for the bytes from [roff + n] on, and when it takes them all the
    direction is idle again. Over any cycles in which the rest is sent, in
    however many pieces, the [n] bytes and the bytes sent in those cycles are
    the bytes that were left of the frame, each once and in order, from the
    same buffer and with no read of the TAP in between. And whatever the loop
    does from there, the bytes sent and the bytes still pending are the bytes
    that were left followed by the frames read later. *)
Theorem partial_sendto_exactly_once (MTU : Z) (host : endianness)
    (st : state) (sc sc_again sc_done : syscalls) (n : Z)
    (env : list syscalls) (st_end : state) (evs : list event)
    (rest : list syscalls) (st_rest : state) (evs_rest : list event) :
  let left := rtotal st - roff st in
  let st1 := mk_state (rbuf st) (wbuf st) (roff st + n) (rtotal st)
                      (woff st) (wtotal st) in
  (2 <= length (rbuf st))%nat ->
  0 <= roff st ->
  r_sendto sc = TxCount n -> 0 <= n < left ->
  r_sendto sc_again = TxErr EAGAIN ->
  r_sendto sc_done = TxCount (left - n) ->
  pump_loop (MTU + hsz) host env st1 = (Running st_end, evs) ->
  Forall (env_ok MTU) evs ->
  sends_rest (left - n) rest ->
  pump_loop (MTU + hsz) host rest st1 = (Running st_rest, evs_rest) ->
  tap_section (MTU + hsz) host sc true st
    = (Fall st1, [Sendto (roff st) left (TxCount n) (slice (rbuf st) (roff st) n)]) /\
  tap_section (MTU + hsz) host sc_again true st
    = (Cont st, [Sendto (roff st) left (TxErr EAGAIN) []]) /\
  tap_section (MTU + hsz) host sc_done true st1
    = (Fall (mk_state (rbuf st) (wbuf st) 0 0 (woff st) (wtotal st)),
       [Sendto (roff st + n) (left - n) (TxCount (left - n))
               (slice (rbuf st) (roff st + n) (left - n))]) /\
  (slice (rbuf st) (roff st) n ++ wire evs_rest = pending st /\
   idle_tap st_rest /\ rbuf st_rest = rbuf st /\ tap_reads evs_rest = 0%nat) /\
  slice (rbuf st) (roff st) n ++ wire evs ++ pending st_end
    = pending st ++ frames_read host evs.
Proof.
  intros left st1 Hlen Hoff Hsend Hn Hagain Hdone Hrun Henv Hrest Hrun_rest.
  subst left.
  assert (Hbusy : (rtotal st =? 0) = false) by (apply Z.eqb_neq; lia).
  split; [|split; [|split; [|split]]].
  - unfold tap_section, and_then, tap_fill, tap_drain. rewrite Hbusy, Hsend.
    assert (Hmore : (roff st + n >=? rtotal st) = false)
      by (rewrite Z.geb_leb; apply Z.leb_gt; lia).
    rewrite Hmore. reflexivity.
  - unfold tap_section, and_then, tap_fill, tap_drain. rewrite Hbusy, Hagain.
    reflexivity.
  - rewrite tap_section_busy by (subst st1; cbn [rtotal]; lia).
    unfold tap_drain. rewrite Hdone. subst st1. cbn [rbuf wbuf roff rtotal woff wtotal].
    replace (roff st + n + (rtotal st - roff st - n) >=? rtotal st) with true
      by (symmetry; rewrite Z.geb_leb; apply Z.leb_le; lia).
    replace (rtotal st - (roff st + n)) with (rtotal st - roff st - n) by lia.
    reflexivity.
  - destruct (rest_is_sent (MTU + hsz) host rest st1 st_rest evs_rest)
      as [Hwire [Hidle [Hbuf Hreads]]].
    + subst st1. cbn [roff rtotal]. lia.
    + subst st1. cbn [roff rtotal].
      replace (rtotal st - (roff st + n)) with (rtotal st - roff st - n) by lia.
      exact Hrest.
    + exact Hrun_rest.
    + split; [|split; [exact Hidle|split; [exact Hbuf|exact Hreads]]].
      rewrite Hwire. subst st1. unfold pending. cbn [rbuf roff rtotal].
      replace (rtotal st - roff st) with (n + (rtotal st - (roff st + n))) by lia.
      rewrite slice_split by lia. reflexivity.
  - assert (Hok1 : tap_ok st1) by (split; subst st1; cbn [rbuf roff rtotal]; [assumption|lia]).
    destruct (pump_loop_conserves MTU _ host env st1 st_end evs Hok1 Hrun Henv)
      as [_ Hw].
    rewrite Hw, app_assoc. f_equal.
    subst st1. unfold pending; cbn [rbuf roff rtotal].
    rewrite slice_split by lia. f_equal. lia.
Qed.

Lemma partial_sendto_exactly_once_witness :
  tap_section 592 LittleEndian (tap_again (TxCount 3)) true
      (sending ([4; 0] ++ payload4) 0 6)
    = (Fall (sending ([4; 0] ++ payload4) 3 6), [Sendto 0 6 (TxCount 3) [4; 0; 222]]) /\
  tap_section 592 LittleEndian (tap_again (TxErr EAGAIN)) true
      (sending ([4; 0] ++ payload4) 0 6)
    = (Cont (sending ([4; 0] ++ payload4) 0 6), [Sendto 0 6 (TxErr EAGAIN) []]) /\
  tap_section 592 LittleEndian (tap_again (TxCount 3)) true
      (sending ([4; 0] ++ payload4) 3 6)
    = (Fall (sending ([4; 0] ++ payload4) 0 0),
       [Sendto 3 3 (TxCount 3) [173; 190; 239]]) /\
  ([4; 0; 222]
     ++ wire [Select; Sendto 3 3 (TxCount 1) [173];
              Select; Recvfrom 592 (RxData []);
              Select; Sendto 4 2 (TxErr EAGAIN) [];
              Select; Sendto 4 2 (TxCount 2) [190; 239]]
     = pending (sending ([4; 0] ++ payload4) 0 6) /\
   idle_tap (sending ([4; 0] ++ payload4) 0 0) /\
   rbuf (sending ([4; 0] ++ payload4) 0 0) = rbuf (sending ([4; 0] ++ payload4) 0 6) /\
   tap_reads [Select; Sendto 3 3 (TxCount 1) [173];
              Select; Recvfrom 592 (RxData []);
              Select; Sendto 4 2 (TxErr EAGAIN) [];
              Select; Sendto 4 2 (TxCount 2) [190; 239]] = 0%nat) /\
  [4; 0; 222] ++ wire [Select; Sendto 3 3 (TxCount 3) [173; 190; 239]]
     ++ pending (sending ([4; 0] ++ payload4) 0 0)
    = pending (sending ([4; 0] ++ payload4) 0 6)
      ++ frames_read LittleEndian [Select; Sendto 3 3 (TxCount 3) [173; 190; 239]].
Proof.
  apply (partial_sendto_exactly_once 590 LittleEndian
           (sending ([4; 0] ++ payload4) 0 6)
           (tap_again (TxCount 3)) (tap_again (TxErr EAGAIN)) (tap_again (TxCount 3)) 3
           [tap_again (TxCount 3)] (sending ([4; 0] ++ payload4) 0 0)
           [Select; Sendto 3 3 (TxCount 3) [173; 190; 239]]
           [tap_again (TxCount 1); sock_datagram [] (TxErr EAGAIN);
            tap_again (TxErr EAGAIN); tap_again (TxCount 2)]
           (sending ([4; 0] ++ payload4) 0 0)
           [Select; Sendto 3 3 (TxCount 1) [173];
            Select; Recvfrom 592 (RxData []);
            Select; Sendto 4 2 (TxErr EAGAIN) [];
            Select; Sendto 4 2 (TxCount 2) [190; 239]]).
  - cbn. lia.
  - cbn. lia.
  - reflexivity.
  - cbn. lia.
  - reflexivity.
  - reflexivity.
  - vm_compute; reflexivity.
  - repeat constructor; cbn; lia.
  - cbn. repeat split; lia.
  - vm_compute; reflexivity.
Defined.

Lemma count_of_framed host (payload : list Z) :
  count_of (framed host payload) = count_of payload + 2.
Proof. unfold framed, bytes_of, count_of. cbn [app length]. lia. Qed.

Lemma decoded_framed host (payload rest : list Z) :
  0 <= count_of payload <= 65535 ->
  decoded host (framed host payload ++ rest) = count_of payload.
Proof.
  intros HL. unfold decoded, framed, bytes_of. cbn [app nth].
  transitivity (get_i host (set_i host (count_of payload))).
  - destruct (set_i host (count_of payload)); reflexivity.
  - rewrite get_set_i. apply to_u16_small. exact HL.
Qed.

Lemma payload_of_framed host (payload rest : list Z) (n : Z) :
  0 <= n <= count_of payload ->
  slice (framed host payload ++ rest) 2 n = firstn (Z.to_nat n) payload.
Proof.
  intros Hn. unfold slice, framed, bytes_of.
  change (Z.to_nat 2) with 2%nat. cbn [app skipn].
  rewrite firstn_app.
  replace (Z.to_nat n - length payload)%nat with 0%nat
    by (unfold count_of in Hn; lia).
  cbn [firstn]. apply app_nil_r.
Qed.

(** X20. A frame within the MTU. A datagram that holds a frame of [L] bytes,
    [0 < L <= MTU], behind its length makes the idle socket-to-TAP direction
    ask the TAP to write the [L] payload bytes at offset 2 of the buffer; if
    the TAP takes them all the direction is idle again, ready for the next
    datagram, and if it takes [n < L] the direction stays busy with
    [woff = n]. *)
Theorem ingress_frame_written (MTU : Z) (host : endianness) (sc : syscalls)
    (st : state) (payload : list Z) (n : Z) :
  let L := count_of payload in
  let wbuf1 := store (wbuf st) 0 (framed host payload) in
  idle_sock st ->
  0 < L <= MTU -> L <= 65535 ->
  r_recvfrom sc = RxData (framed host payload) ->
  r_write sc = TxCount n -> 0 <= n <= L ->
  sock_section (MTU + hsz) host sc true st
    = (Fall (mk_state (rbuf st) wbuf1 (roff st) (rtotal st)
                      (if n >=? L then 0 else n) (if n >=? L then 0 else L)),
       [Recvfrom (MTU + hsz) (RxData (framed host payload));
        Write hsz L (TxCount n) (firstn (Z.to_nat n) payload)]).
Proof.
  intros L wbuf1 [Hwt Hwo] HL H16 Hrecv Hwrite Hn.
  destruct st as [rb wb ro rt wo wt]. cbn [wtotal woff wbuf rbuf roff rtotal] in *.
  subst wo wt.
  assert (Hdec : get_i host (mk_b_u16 (nth 0 wbuf1 0) (nth 1 wbuf1 0)) = L).
  { subst wbuf1. rewrite store_at_start.
    apply (decoded_framed host payload). subst L. lia. }
  assert (Hpay : slice wbuf1 (0 + hsz) n = firstn (Z.to_nat n) payload).
  { subst wbuf1. rewrite store_at_start.
    apply (payload_of_framed host payload). exact Hn. }
  unfold sock_section, and_then, sock_fill, sock_drain, sock_reset.
  cbn [wtotal woff wbuf rbuf roff rtotal]. rewrite Hrecv.
  change (0 =? 0) with true. cbv iota.
  rewrite count_of_framed.
  replace (count_of payload + 2 =? 0) with false
    by (symmetry; apply Z.eqb_neq; subst L; lia).
  fold wbuf1. rewrite Hdec. cbn [wtotal woff wbuf rbuf roff rtotal].
  assert (Hlt : (0 <? L) = true) by (apply Z.ltb_lt; lia).
  rewrite Hlt, Hwrite. cbn [wtotal woff wbuf rbuf roff rtotal].
  rewrite Hpay, Z.add_0_l, Z.sub_0_r. cbn [app].
  destruct (n >=? L); reflexivity.
Qed.

Lemma ingress_frame_written_witness :
  sock_section 592 LittleEndian (sock_datagram ([4; 0] ++ reply4) (TxCount 4)) true (init 590)
    = (Fall (mk_state (repeat 0 592) (([4; 0] ++ reply4) ++ repeat 0 586) 0 0 0 0),
       [Recvfrom 592 (RxData ([4; 0] ++ reply4)); Write 2 4 (TxCount 4) reply4]).
Proof.
  apply (ingress_frame_written 590 LittleEndian
           (sock_datagram ([4; 0] ++ reply4) (TxCount 4)) (init 590) reply4 4).
  - split; reflexivity.
  - cbn. lia.
  - cbn. lia.
  - reflexivity.
  - reflexivity.
  - cbn. lia.
Defined.

(** Two datagrams in a row, each taken by the TAP in one write: the TAP
    gets CA FE BA BE and then DE AD BE EF. *)
Example two_datagrams_in_a_row :
  exists st' evs,
    pump 590 LittleEndian
         [sock_datagram ([4; 0] ++ reply4) (TxCount 4);
          sock_datagram ([4; 0] ++ payload4) (TxCount 4)]
      = (Running st', evs) /\
    tap_written evs = reply4 ++ payload4 /\ idle_sock st'.
Proof.
  eexists. eexists. split; [vm_compute; reflexivity|].
  split; [reflexivity|split; reflexivity].
Qed.

(** The drop that the specification words is not what happens: with MTU
    1486 a datagram that announces 4096 bytes leaves the direction busy. *)
Lemma oversize_not_dropped : ~ oversize_dropped.
Proof.
  intros H.
  destruct (H 1486 LittleEndian
              (sock_datagram [0; 16; 1; 2; 3; 4] (TxCount 4096)) (init 1486)
              [0; 16; 1; 2; 3; 4])
    as [st' [Hrun _]].
  - split; reflexivity.
  - split; reflexivity.
  - reflexivity.
  - cbn. lia.
  - vm_compute. reflexivity.
  - vm_compute in Hrun. discriminate Hrun.
Qed.

(** C1. A datagram whose two length bytes announce [L] bytes, more than the
    MTU, is not dropped: [wtotal] takes [L] as it comes and the direction
    enters [write] for the [L] bytes at offset 2 of [wbuf], a range that
    ends past the [MTU + 2] bytes the buffer has. *)
Theorem oversize_frame_overruns_buffer (MTU : Z) (host : endianness)
    (sc : syscalls) (st : state) (data : list Z) :
  let L := decoded host data in
  let wbuf1 := store (wbuf st) 0 data in
  0 <= MTU -> sized MTU st -> idle_sock st ->
  r_recvfrom sc = RxData data ->
  2 <= count_of data <= MTU + hsz ->
  MTU < L ->
  exists r written,
    sock_section (MTU + hsz) host sc true st
      = (r, [Recvfrom (MTU + hsz) (RxData data); Write hsz L (r_write sc) written]) /\
    count_of wbuf1 = MTU + hsz /\
    count_of wbuf1 < hsz + L.
Proof.
  intros L wbuf1 HMTU [_ Hsize] [Hwt Hwo] Hrecv Hcount HL.
  assert (Hfit : count_of wbuf1 = MTU + hsz).
  { subst wbuf1. unfold count_of in *. unfold store.
    rewrite !length_app, length_firstn, length_skipn, Hsize.
    change (Z.to_nat 0) with 0%nat. unfold hsz in *. lia. }
  assert (Hview : get_i host (mk_b_u16 (nth 0 wbuf1 0) (nth 1 wbuf1 0)) = L).
  { subst wbuf1 L. rewrite store_at_start. unfold decoded.
    destruct data as [|a [|b data]]; try (unfold count_of in Hcount; cbn in Hcount; lia).
    reflexivity. }
  assert (Hsome : (count_of data =? 0) = false) by (apply Z.eqb_neq; lia).
  assert (Hbusy : (0 <? L) = true) by (apply Z.ltb_lt; lia).
  destruct st as [rb wb ro rt wo wt]. cbn [wtotal woff wbuf rbuf roff rtotal] in *.
  subst wo wt.
  unfold sock_section, and_then, sock_fill, sock_drain, sock_reset.
  cbn [wtotal woff wbuf rbuf roff rtotal]. rewrite Hrecv.
  change (0 =? 0) with true. cbv iota. rewrite Hsome.
  fold wbuf1. rewrite Hview. cbn [wtotal woff wbuf rbuf roff rtotal].
  rewrite Hbusy, Z.add_0_l, Z.sub_0_r.
  destruct (r_write sc) as [errno|n].
  - unfold on_errno. destruct (errno =? EAGAIN);
      eexists; eexists; (split; [reflexivity|split; [exact Hfit|lia]]).
  - cbn [wtotal woff wbuf rbuf roff rtotal]. destruct (0 + n >=? L);
      eexists; eexists; (split; [reflexivity|split; [exact Hfit|lia]]).
Qed.

Lemma oversize_frame_overruns_buffer_witness :
  exists r written,
    sock_section (1486 + hsz) LittleEndian
        (sock_datagram [0; 16; 1; 2; 3; 4] (TxCount 1486)) true (init 1486)
      = (r, [Recvfrom (1486 + hsz) (RxData [0; 16; 1; 2; 3; 4]);
             Write hsz (decoded LittleEndian [0; 16; 1; 2; 3; 4])
                   (r_write (sock_datagram [0; 16; 1; 2; 3; 4] (TxCount 1486)))
                   written]) /\
    count_of (store (wbuf (init 1486)) 0 [0; 16; 1; 2; 3; 4]) = 1486 + hsz /\
    count_of (store (wbuf (init 1486)) 0 [0; 16; 1; 2; 3; 4])
      < hsz + decoded LittleEndian [0; 16; 1; 2; 3; 4].
Proof.
  apply (oversize_frame_overruns_buffer 1486 LittleEndian
           (sock_datagram [0; 16; 1; 2; 3; 4] (TxCount 1486)) (init 1486)
           [0; 16; 1; 2; 3; 4]).
  - lia.
  - split; reflexivity.
  - split; reflexivity.
  - reflexivity.
  - cbn. lia.
  - vm_compute. reflexivity.
Defined.

(** C8, at MTU 590. A TAP read may deliver the 592 bytes it is asked for;
    the direction then holds [rtotal = 594], two more than the buffer has,
    and asks [sendto] for 594 bytes. In the other direction a datagram that
    announces 4096 bytes sets [wtotal = 4096]. Either breaks the invariant,
    which the initial state has. *)
Theorem totals_exceed_buffer :
  pump_inv 590 (init 590) /\
  (exists st',
     pump 590 LittleEndian [tap_frame (repeat 7 592) (TxErr EAGAIN)]
       = (Running st',
          [Select; Read 2 592 (RxData (repeat 7 592)); Sendto 0 594 (TxErr EAGAIN) []]) /\
     rtotal st' = 594 /\ length (rbuf st') = 594%nat /\ ~ pump_inv 590 st') /\
  (exists st',
     pump 590 LittleEndian [sock_datagram [0; 16; 1; 2; 3; 4] (TxErr EAGAIN)]
       = (Running st',
          [Select; Recvfrom 592 (RxData [0; 16; 1; 2; 3; 4]); Write 2 4096 (TxErr EAGAIN) []]) /\
     wtotal st' = 4096 /\ ~ pump_inv 590 st').
Proof.
  split; [|split].
  - unfold pump_inv, dir_inv; cbn. lia.
  - eexists. split; [vm_compute; reflexivity|].
    split; [reflexivity|]. split; [reflexivity|].
    unfold pump_inv, dir_inv; cbn [roff rtotal]. lia.
  - eexists. split; [vm_compute; reflexivity|].
    split; [reflexivity|].
    unfold pump_inv, dir_inv; cbn [woff wtotal]. lia.
Qed.

(** *** When the pump returns *)















End PumpFacts.

(** ** The forwarder *)

Section ForwardFacts.
Import Codec Mem Forward.

(** *** With the flag cleared, no call is entered *)







(** *** End of file *)

Lemma read_fd_eof_step ro cs w fd count exact :
  working w = true -> ro < count ->
  read_fd_from ro (eof :: cs) w fd count exact
    = read_fd_from ro cs (log (IoRead fd ro (count - ro)) w) fd count exact.
Proof.
  intros Hw Hro. cbn [read_fd_from]. rewrite Hw.
  replace (ro <? count) with true by (symmetry; apply Z.ltb_lt; exact Hro).
  reflexivity.
Qed.

Lemma read_fd_eof_blocked (n : nat) :
  forall ro w fd count exact,
    working w = true -> ro < count ->
    read_fd_from ro (repeat eof n) w fd count exact = None.
Proof.
  induction n as [|n IH]; intros ro w fd count exact Hw Hro.
  - cbn [repeat read_fd_from]. rewrite Hw.
    replace (ro <? count) with true by (symmetry; apply Z.ltb_lt; exact Hro).
    reflexivity.
  - cbn [repeat]. rewrite read_fd_eof_step by assumption.
    apply IH; [exact Hw|exact Hro].
Qed.

Lemma read_fd_eof_until_stop (n : nat) :
  forall ro w fd count exact,
    working w = true -> ro < count ->
    read_fd_from ro (repeat eof n ++ [eof_then_stop]) w fd count exact
      = Some (ro, [],
              mk_world false (buf w)
                (trace w ++ repeat (IoRead fd ro (count - ro)) (S n))).
Proof.
  induction n as [|n IH]; intros ro w fd count exact Hw Hro.
  - cbn [repeat app read_fd_from]. rewrite Hw.
    replace (ro <? count) with true by (symmetry; apply Z.ltb_lt; exact Hro).
    reflexivity.
  - cbn [repeat app]. rewrite read_fd_eof_step by assumption.
    rewrite IH by assumption. cbn [log buf trace].
    rewrite <- app_assoc. reflexivity.
Qed.

(** C6, as the code has it. An end of file is no failure for [read_fd]: a
    completion with 0 bytes is followed by the same read again. After any
    number of them the call is still waiting, and so is the forwarder; the
    call ends when [fwd_stop] has run, with the count gathered before. *)
Theorem eof_is_retried (host : endianness) (args : fwd_args) (n fuel : nat)
    (w : world) (fd count ro ret : Z) (exact : bool) :
  working w = true -> 0 <= ro < count -> 0 < to_u16 (read_sz args) ->
  read_fd_from ro (repeat eof n) w fd count exact = None /\
  read_fd_from ro (repeat eof n ++ [eof_then_stop]) w fd count exact
    = Some (ro, [],
            mk_world false (buf w)
              (trace w ++ repeat (IoRead fd ro (count - ro)) (S n))) /\
  fwd_loop host args (S fuel) ret (repeat eof n) w = None.
Proof.
  intros Hw Hro Hsz. split; [|split].
  - apply read_fd_eof_blocked; [exact Hw|lia].
  - apply read_fd_eof_until_stop; [exact Hw|lia].
  - cbn [fwd_loop]. rewrite Hw. unfold fwd_body, fwd_chunk, read_fd.
    destruct (read_hdr args).
    + rewrite read_fd_eof_blocked by (assumption || lia). reflexivity.
    + rewrite read_fd_eof_blocked by (assumption || lia). reflexivity.
Qed.

Lemma eof_is_retried_witness :
  read_fd_from 0 (repeat eof 3) (mk_world true [0; 0; 0; 0] []) 0 2 true = None /\
  read_fd_from 0 (repeat eof 3 ++ [eof_then_stop]) (mk_world true [0; 0; 0; 0] []) 0 2 true
    = Some (0, [],
            mk_world false [0; 0; 0; 0] ([] ++ repeat (IoRead 0 0 (2 - 0)) 4)) /\
  fwd_loop LittleEndian (mk_fwd_args 4 true false) 1 0 (repeat eof 3)
           (mk_world true [0; 0; 0; 0] []) = None.
Proof.
  apply (eof_is_retried LittleEndian (mk_fwd_args 4 true false) 3 0
           (mk_world true [0; 0; 0; 0] []) 0 2 0 0 true).
  - reflexivity.
  - lia.
  - reflexivity.
Defined.

(** C6 as worded fails: an end of file followed by the two bytes asked for
    makes the exact read return 2. *)
Lemma eof_does_not_fail_read : ~ eof_fails_read.
Proof.
  intros H.
  destruct (H [completes 2 [4; 0]] (mk_world true [0; 0; 0; 0] []) 0 2)
    as [ret [w' [Hrun Hneg]]].
  - reflexivity.
  - lia.
  - vm_compute in Hrun. discriminate Hrun.
Qed.

(** *** Failed reads, vectored writes, header lengths *)

(** After a read has failed every trip hands the same completion back. *)
Lemma left_unseen_again res n :
  map (left_unseen res) (repeat (completes res []) n) = repeat (completes res []) n.
Proof. induction n as [|n IH]; [reflexivity|]. cbn [repeat map]. rewrite IH. reflexivity. Qed.

Lemma left_unseen_later res res' data n :
  map (left_unseen res) (repeat (completes res' data) n) = repeat (completes res []) n.
Proof. induction n as [|n IH]; [reflexivity|]. cbn [repeat map]. rewrite IH. reflexivity. Qed.

Lemma emitted_reads fd off len n : emitted (repeat (IoRead fd off len) n) = [].
Proof. induction n as [|n IH]; [reflexivity|exact IH]. Qed.

Lemma repeat_snoc {A} (x : A) n : repeat x n ++ [x] = x :: repeat x n.
Proof. induction n as [|n IH]; [reflexivity|]. cbn [repeat app]. rewrite IH. reflexivity. Qed.

(** One iteration of the plain path on an unseen failed completion: the
    read is submitted, the completion comes back, nothing is written. *)
Lemma fwd_body_unseen host args res stop cs w :
  read_hdr args = false -> 0 < to_u16 (read_sz args) ->
  working w = true -> res < 0 ->
  fwd_body host args (mk_completion (Cqe res []) stop :: cs) w
    = Some (inl 0, map (left_unseen res) cs,
            stopped_by (mk_completion (Cqe res []) stop)
              (log (IoRead rfd 0 (to_u16 (read_sz args))) w)).
Proof.
  intros Hrh Hsz Hw Hres.
  unfold fwd_body, fwd_chunk, read_fd. rewrite Hrh. cbn [read_fd_from c_cq].
  rewrite Hw. replace (0 <? to_u16 (read_sz args)) with true
    by (symmetry; apply Z.ltb_lt; exact Hsz).
  replace (res <? 0) with true by (symmetry; apply Z.ltb_lt; exact Hres).
  rewrite Z.sub_0_r. reflexivity.
Qed.

(** While it is not stopped the worker goes round on the failed completion
    for as long as the ring answers. *)
Lemma fwd_loop_spins host args res (n : nat) :
  read_hdr args = false -> 0 < to_u16 (read_sz args) -> res < 0 ->
  forall fuel ret w,
    working w = true ->
    fwd_loop host args fuel ret (repeat (completes res []) n) w = None.
Proof.
  intros Hrh Hsz Hres. induction n as [|n IH]; intros fuel ret w Hw;
    (destruct fuel as [|fuel]; [reflexivity|]); cbn [fwd_loop repeat]; rewrite Hw.
  - unfold fwd_body, fwd_chunk, read_fd. rewrite Hrh. cbn [read_fd_from].
    rewrite Hw. replace (0 <? to_u16 (read_sz args)) with true
      by (symmetry; apply Z.ltb_lt; exact Hsz).
    reflexivity.
  - unfold completes at 1. rewrite fwd_body_unseen by assumption.
    rewrite left_unseen_again. apply IH. exact Hw.
Qed.

(** When it is stopped it returns 0, having submitted reads only. *)
Lemma fwd_loop_spins_until_stop host args res (n : nat) :
  read_hdr args = false -> 0 < to_u16 (read_sz args) -> res < 0 ->
  forall fuel ret w,
    working w = true ->
    fwd_loop host args (n + 2 + fuel) ret
      (repeat (completes res []) n ++ [completes_then_stop res []]) w
    = Some (0, [],
            mk_world false (buf w)
              (trace w ++ repeat (IoRead rfd 0 (to_u16 (read_sz args))) (S n))).
Proof.
  intros Hrh Hsz Hres. induction n as [|n IH]; intros fuel ret w Hw;
    cbn [Nat.add fwd_loop repeat app]; rewrite Hw.
  - unfold completes_then_stop. rewrite fwd_body_unseen by assumption.
    reflexivity.
  - unfold completes at 1. rewrite fwd_body_unseen by assumption.
    rewrite map_app, left_unseen_again. cbn [map]. cbv beta iota.
    change (left_unseen res (completes_then_stop res [])) with (completes_then_stop res []).
    rewrite (IH fuel 0) by exact Hw. cbn [stopped_by completes c_stop log buf trace].
    rewrite <- app_assoc. reflexivity.
Qed.

(** C7, at a read that fails with [EBADF]. [read_fd] returns 0, where
    [write_fd] and [writev_fd] return a negative value for the same
    completion; it returns before the completion is marked as seen, so the
    completion is what every later wait hands back. [fwd] takes the 0 for an
    empty chunk and goes on: whatever number [n] of reads the source would
    still answer with data, the worker only submits its read again and
    again, forwards nothing and does not return; when it is stopped it
    returns 0. *)
Theorem failed_read_is_swallowed (n fuel : nat) :
  read_fd [completes (- EBADF) []] (mk_world true [0; 0; 0; 0] []) rfd 4 false
    = Some (0, [], mk_world true [0; 0; 0; 0] [IoRead 0 0 4]) /\
  write_fd [completes (- EBADF) []] (mk_world true [0; 0; 0; 0] []) wfd 4
    = Some (-2, [], mk_world true [0; 0; 0; 0] [IoWrite 1 0 4 []]) /\
  writev_fd [completes (- EBADF) []] (mk_world true [0; 0; 0; 0] []) wfd [[4; 0]; [0; 0; 0; 0]]
    = Some (- EBADF, [],
            mk_world true [0; 0; 0; 0] [IoWritev 1 [[4; 0]; [0; 0; 0; 0]] []]) /\
  read_fd [completes (- EBADF) []; completes 3 [1; 2; 3]]
          (mk_world true [0; 0; 0; 0] []) rfd 4 false
    = Some (0, [completes (- EBADF) []], mk_world true [0; 0; 0; 0] [IoRead 0 0 4]) /\
  fwd LittleEndian (mk_fwd_args 4 false false) (Some [0; 0; 0; 0]) 0 true fuel
      (completes (- EBADF) [] :: repeat (completes 3 [1; 2; 3]) n) = None /\
  exists w,
    fwd LittleEndian (mk_fwd_args 4 false false) (Some [0; 0; 0; 0]) 0 true (n + 3 + fuel)
        (completes (- EBADF) [] :: repeat (completes 3 [1; 2; 3]) n
           ++ [completes_then_stop 3 [1; 2; 3]])
      = Some (0, [], w) /\
    working w = false /\
    trace w = repeat (IoRead 0 0 4) (n + 2) /\
    emitted (trace w) = [].
Proof.
  assert (Hneg : - EBADF < 0) by (unfold EBADF; lia).
  assert (Hsz : 0 < to_u16 (read_sz (mk_fwd_args 4 false false))) by (vm_compute; reflexivity).
  do 4 (split; [vm_compute; reflexivity|]). split.
  - unfold fwd. change (0 <? 0) with false. cbv iota.
    destruct fuel as [|fuel]; [reflexivity|]. cbn [fwd_loop working].
    unfold completes at 1. rewrite fwd_body_unseen by (reflexivity || assumption).
    rewrite left_unseen_later.
    apply fwd_loop_spins; (reflexivity || assumption).
  - eexists. split.
    + unfold fwd. change (0 <? 0) with false. cbv iota.
      replace (n + 3 + fuel)%nat with (S (n + 2 + fuel)) by lia.
      cbn [fwd_loop working].
      unfold completes at 1. rewrite fwd_body_unseen by (reflexivity || assumption).
      rewrite map_app, left_unseen_later. cbn [map].
      change (left_unseen (- EBADF) (completes_then_stop 3 [1; 2; 3]))
        with (completes_then_stop (- EBADF) []).
      apply fwd_loop_spins_until_stop; (reflexivity || assumption).
    + cbn [working trace stopped_by completes c_stop log].
      change (to_u16 (read_sz (mk_fwd_args 4 false false))) with 4.
      change rfd with 0.
      replace (n + 2)%nat with (S (S n)) by lia.
      repeat apply conj.
      * reflexivity.
      * cbn [app repeat]. rewrite <- repeat_snoc. cbn [repeat app].
        rewrite repeat_snoc. reflexivity.
      * cbn [app emitted]. apply emitted_reads.
Qed.

(** C5, on a two-byte header and a four-byte payload. The completion
    condition is the length of the last range, 4, not the sum 6; after a
    write of 3 bytes the whole list is submitted again from its first byte,
    so the sink gets 04 00 01 twice; and on a one-byte payload a write of
    the first header byte alone ends the call with success. *)
Theorem writev_neither_sums_nor_advances :
  writev_count [[4; 0]; [1; 2; 3; 4]] = 4 /\
  (exists w,
     writev_fd [completes 3 []; completes 6 []] (mk_world true [1; 2; 3; 4] []) wfd
               [[4; 0]; [1; 2; 3; 4]] = Some (0, [], w) /\
     emitted (trace w) = [4; 0; 1] ++ [4; 0; 1; 2; 3; 4]) /\
  (exists w,
     writev_fd [completes 1 []] (mk_world true [7; 0; 0; 0] []) wfd [[1; 0]; [7]]
       = Some (0, [], w) /\
     emitted (trace w) = [1]).
Proof.
  split; [reflexivity|].
  split; eexists; (split; [vm_compute; reflexivity | reflexivity]).
Qed.

(** C10, with [read_sz = 1500]. A header 00 10 announces 4096 bytes on a
    little-endian host; the forwarder then submits a read of 4096 bytes into
    its block of 1500, and the 4096 bytes that arrive are stored. *)
Theorem header_length_overruns_buffer :
  exists w,
    fwd LittleEndian (mk_fwd_args 1500 true false) (Some (repeat 0 1500)) 0 true 2
        [completes 2 [0; 16]; completes_then_stop 4096 (repeat 7 4096)]
      = Some (0, [], w) /\
    trace w = [IoRead 0 0 2; IoRead 0 0 4096] /\
    forallb (read_in_bounds 1500) (trace w) = false /\
    length (buf w) = 4096%nat.
Proof.
  eexists. split; [vm_compute; reflexivity|].
  repeat apply conj; vm_compute; reflexivity.
Qed.

End ForwardFacts.

(** ** Shutdown *)

Section ShutdownFacts.
Import Codec Pump Forward.

(** *** A worker stopped on its way *)




















End ShutdownFacts.

(** * Further properties *)

(** ** The I/O primitives of the forwarder *)

Section PrimitiveFacts.
Import Codec Mem Forward.

Lemma emitted_app (e1 e2 : list io_event) :
  emitted (e1 ++ e2) = emitted e1 ++ emitted e2.
Proof.
  induction e1 as [|e e1 IH]; [reflexivity|].
  destruct e; cbn [app emitted]; rewrite IH, ?app_assoc; reflexivity.
Qed.

Lemma slice_nothing (b : list Z) (off n : Z) : n <= 0 -> slice b off n = [].
Proof. intros H. unfold slice. replace (Z.to_nat n) with 0%nat by lia. reflexivity. Qed.

Lemma stopped_by_buf c w : buf (stopped_by c w) = buf w.
Proof. unfold stopped_by. destruct (c_stop c); reflexivity. Qed.

Lemma stopped_by_trace c w : trace (stopped_by c w) = trace w.
Proof. unfold stopped_by. destruct (c_stop c); reflexivity. Qed.

(** [write_fd], when it returns 0 with the flag still set, has put on the
    sink the bytes [wo .. count) of the buffer, each once and in order, however
    the writes were split. *)
Lemma write_fd_drains (cs : list completion) :
  forall wo w fd count cs' w',
    0 <= wo ->
    writes_ok (count - wo) cs ->
    write_fd_from wo cs w fd count = Some (0, cs', w') ->
    working w' = true ->
    buf w' = buf w /\
    exists evs,
      trace w' = trace w ++ evs /\
      emitted evs = slice (buf w) wo (count - wo).
Proof.
  induction cs as [|c cs IH]; intros wo w fd count cs' w' Hwo Hok Hrun Hw'.
  - cbn [write_fd_from] in Hrun.
    destruct (working w && (wo <? count)) eqn:Ego; [discriminate Hrun|].
    injection Hrun as <- <-. split; [reflexivity|].
    exists []. rewrite app_nil_r. split; [reflexivity|].
    rewrite Hw' in Ego. cbn [andb] in Ego. apply Z.ltb_ge in Ego.
    symmetry. apply slice_nothing. lia.
  - cbn [write_fd_from] in Hrun.
    destruct (working w && (wo <? count)) eqn:Ego.
    + apply andb_prop in Ego as [Hw Hlt]. apply Z.ltb_lt in Hlt.
      cbn [writes_ok] in Hok. destruct Hok as [Hnone|Hok]; [lia|].
      destruct (c_cq c) as [|ret|wc data] eqn:Ecq.
      * discriminate Hrun.
      * injection Hrun as Hret _ _. lia.
      * destruct (wc <? 0) eqn:Eneg; [discriminate Hrun|].
        apply Z.ltb_ge in Eneg.
        destruct Hok as [Hneg|[Hwc Hrest]]; [lia|].
        replace (count - wo - wc) with (count - (wo + wc)) in Hrest by lia.
        destruct (IH (wo + wc) _ fd count cs' w' ltac:(lia) Hrest Hrun Hw')
          as [Hbuf [evs [Htr Hem]]].
        rewrite stopped_by_buf in Hbuf, Hem. cbn [log buf] in Hbuf, Hem.
        rewrite stopped_by_trace in Htr. cbn [log trace] in Htr.
        split; [exact Hbuf|].
        exists (IoWrite fd wo (count - wo) (slice (buf w) wo wc) :: evs).
        split.
        -- rewrite Htr, <- app_assoc. reflexivity.
        -- cbn [emitted]. rewrite Hem, slice_split by lia. f_equal. lia.
    + injection Hrun as <- <-. split; [reflexivity|].
      exists []. rewrite app_nil_r. split; [reflexivity|].
      rewrite Hw' in Ego. cbn [andb] in Ego. apply Z.ltb_ge in Ego.
      symmetry. apply slice_nothing. lia.
Qed.

(** X1. Write-all. For every way the ring splits the writes within the
    lengths asked for, a call of [write_fd] for [count] bytes that returns 0
    while the flag is still set has left the buffer as it was and has put on
    the sink exactly the first [count] bytes of the buffer, each once. *)
Theorem write_fd_writes_all (cs cs' : list completion) (w w' : world)
    (fd count : Z) :
  writes_ok count cs ->
  write_fd cs w fd count = Some (0, cs', w') ->
  working w' = true ->
  buf w' = buf w /\
  exists evs,
    trace w' = trace w ++ evs /\
    emitted evs = slice (buf w) 0 count.
Proof.
  intros Hok Hrun Hw'.
  destruct (write_fd_drains cs 0 w fd count cs' w') as [Hbuf [evs [Htr Hem]]].
  - lia.
  - rewrite Z.sub_0_r. exact Hok.
  - exact Hrun.
  - exact Hw'.
  - split; [exact Hbuf|]. exists evs. split; [exact Htr|].
    rewrite Hem, Z.sub_0_r. reflexivity.
Qed.

Lemma write_fd_writes_all_witness :
  buf (mk_world true [1; 2; 3; 4; 5] [IoRead 0 0 5; IoWrite 1 0 5 [1; 2];
                                       IoWrite 1 2 3 []; IoWrite 1 2 3 [3; 4; 5]])
    = buf (mk_world true [1; 2; 3; 4; 5] [IoRead 0 0 5]) /\
  exists evs,
    trace (mk_world true [1; 2; 3; 4; 5] [IoRead 0 0 5; IoWrite 1 0 5 [1; 2];
                                          IoWrite 1 2 3 []; IoWrite 1 2 3 [3; 4; 5]])
      = trace (mk_world true [1; 2; 3; 4; 5] [IoRead 0 0 5]) ++ evs /\
    emitted evs = slice (buf (mk_world true [1; 2; 3; 4; 5] [IoRead 0 0 5])) 0 5.
Proof.
  apply (write_fd_writes_all
           [completes 2 []; completes 0 []; completes 3 []; completes 9 []]
           [completes 9 []]
           (mk_world true [1; 2; 3; 4; 5] [IoRead 0 0 5]) _ 1 5).
  - cbn. repeat (right; right; split; [lia|]). left. lia.
  - vm_compute. reflexivity.
  - reflexivity.
Defined.


(** *** Reading *)

Lemma firstn_store (b : list Z) (off : Z) (d : list Z) :
  (Z.to_nat off <= length b)%nat ->
  firstn (Z.to_nat off) (store b off d) = firstn (Z.to_nat off) b.
Proof.
  intros H. unfold store.
  rewrite firstn_app, length_firstn, Nat.min_l by exact H.
  rewrite Nat.sub_diag, firstn_firstn, Nat.min_id. cbn. apply app_nil_r.
Qed.

Lemma slice_store (b : list Z) (off : Z) (d : list Z) :
  0 <= off -> (Z.to_nat off <= length b)%nat ->
  slice (store b off d) off (count_of d) = d.
Proof.
  intros Ho H. unfold slice, store, count_of. rewrite Nat2Z.id.
  rewrite skipn_app, length_firstn, Nat.min_l by exact H.
  rewrite Nat.sub_diag, skipn_firstn_comm, Nat.sub_diag. cbn [firstn skipn app].
  rewrite firstn_app, Nat.sub_diag, firstn_all. cbn. apply app_nil_r.
Qed.

Lemma length_store (b : list Z) (off : Z) (d : list Z) :
  (Z.to_nat off <= length b)%nat ->
  (Z.to_nat off + length d <= length (store b off d))%nat.
Proof.
  intros H. unfold store.
  rewrite !length_app, length_firstn, Nat.min_l by exact H. lia.
Qed.

Lemma slice_firstn (b : list Z) (m off n : Z) :
  0 <= off -> 0 <= n -> off + n <= m ->
  slice (firstn (Z.to_nat m) b) off n = slice b off n.
Proof.
  intros Ho Hn Hm. unfold slice.
  rewrite skipn_firstn_comm, firstn_firstn.
  f_equal. lia.
Qed.

Lemma firstn_shorter (b b' : list Z) (m n : Z) :
  0 <= n <= m ->
  firstn (Z.to_nat m) b = firstn (Z.to_nat m) b' ->
  firstn (Z.to_nat n) b = firstn (Z.to_nat n) b'.
Proof.
  intros Hn H.
  replace (Z.to_nat n) with (Nat.min (Z.to_nat n) (Z.to_nat m)) by lia.
  rewrite <- !firstn_firstn, H. reflexivity.
Qed.

Lemma length_delivered res data :
  0 <= res <= count_of data ->
  count_of (firstn (Z.to_nat res) data) = res.
Proof.
  intros H. unfold count_of in *. rewrite length_firstn. lia.
Qed.

(** What [read_fd] has gathered when it returns a positive count with the
    flag still set. *)
Lemma read_fd_gathers (cs : list completion) :
  forall ro w fd count exact r cs' w',
    0 <= ro <= count -> count <= 65535 ->
    (Z.to_nat ro <= length (buf w))%nat ->
    reads_ok (count - ro) cs ->
    read_fd_from ro cs w fd count exact = Some (r, cs', w') ->
    working w' = true -> 0 < r ->
    exists used,
      cs = used ++ cs' /\
      ro <= r <= count /\ (exact = true -> r = count) /\
      firstn (Z.to_nat ro) (buf w') = firstn (Z.to_nat ro) (buf w) /\
      slice (buf w') ro (r - ro) = all_delivered used.
Proof.
  induction cs as [|c cs IH];
    intros ro w fd count exact r cs' w' Hro H16 Hlen Hok Hrun Hw' Hr.
  - cbn [read_fd_from] in Hrun.
    destruct (working w && (ro <? count)) eqn:Ego; [discriminate Hrun|].
    injection Hrun as <- <- <-. exists []. rewrite Hw' in Ego. cbn [andb] in Ego.
    apply Z.ltb_ge in Ego.
    split; [|split; [|split; [|split]]]; try reflexivity; try lia.
    rewrite Z.sub_diag. reflexivity.
  - cbn [read_fd_from] in Hrun.
    destruct (working w && (ro <? count)) eqn:Ego.
    + apply andb_prop in Ego as [Hw Hlt]. apply Z.ltb_lt in Hlt.
      cbn [reads_ok] in Hok. destruct Hok as [Hnone|Hok]; [lia|].
      destruct (c_cq c) as [|ret|res data] eqn:Ecq.
      * injection Hrun as Hret _ _. lia.
      * injection Hrun as Hret _ _. lia.
      * destruct (res <? 0) eqn:Eneg; [injection Hrun as Hret _ _; lia|].
        apply Z.ltb_ge in Eneg.
        destruct Hok as [Hneg|[Hres [Hdata Hrest]]]; [lia|].
        assert (Hrc : to_u16 res = res) by (apply to_u16_small; lia).
        rewrite Hrc in Hrun.
        assert (Hdel : delivered c = firstn (Z.to_nat res) data)
          by (unfold delivered; rewrite Ecq; reflexivity).
        destruct (res <=? 0) eqn:Ezero.
        -- apply Z.leb_le in Ezero. assert (res = 0) as -> by lia.
           rewrite Z.sub_0_r in Hrest.
           match type of Hrun with
           | read_fd_from _ _ ?w1 _ _ _ = _ =>
               assert (Hlen1 : (Z.to_nat ro <= length (buf w1))%nat)
                 by (rewrite stopped_by_buf; exact Hlen);
               destruct (IH ro w1 fd count exact r cs' w' Hro H16 Hlen1
                           Hrest Hrun Hw' Hr)
                 as [used [Hcs [Hrange [Hex [Hpre Hgot]]]]]
           end.
           rewrite stopped_by_buf in Hpre. cbn [log buf] in Hpre.
           exists (c :: used).
           split; [|split; [|split; [|split]]].
           ++ rewrite Hcs. reflexivity.
           ++ lia.
           ++ exact Hex.
           ++ exact Hpre.
           ++ unfold all_delivered. cbn [map concat]. rewrite Hdel. exact Hgot.
        -- apply Z.leb_gt in Ezero.
           assert (Hro1 : to_u16 (ro + res) = ro + res) by (apply to_u16_small; lia).
           rewrite Hro1 in Hrun.
           rewrite stopped_by_buf in Hrun. cbn [log buf] in Hrun.
           set (d := firstn (Z.to_nat res) data) in *.
           assert (Hd : count_of d = res) by (apply length_delivered; lia).
           set (w2 := set_buf (store (buf w) ro d) _) in Hrun.
           assert (Hb2 : buf w2 = store (buf w) ro d) by reflexivity.
           destruct exact; cbn [negb] in Hrun.
           ++ replace (count - ro - res) with (count - (ro + res)) in Hrest by lia.
              assert (Hlen2 : (Z.to_nat (ro + res) <= length (buf w2))%nat).
              { rewrite Hb2. pose proof (length_store (buf w) ro d Hlen).
                unfold count_of in Hd. lia. }
              destruct (IH (ro + res) w2 fd count true r cs' w' ltac:(lia) H16
                          Hlen2 Hrest Hrun Hw' Hr)
                as [used [Hcs [Hrange [Hex [Hpre Hgot]]]]].
              exists (c :: used).
              split; [|split; [|split; [|split]]].
              ** rewrite Hcs. reflexivity.
              ** lia.
              ** exact Hex.
              ** apply (firstn_shorter _ _ (ro + res) ro) in Hpre; [|lia].
                 rewrite Hpre, Hb2. apply firstn_store. exact Hlen.
              ** unfold all_delivered. cbn [map concat]. rewrite Hdel. fold d.
                 fold (all_delivered used). rewrite <- Hgot.
                 replace (r - ro) with (res + (r - (ro + res))) by lia.
                 rewrite <- slice_split by lia. f_equal.
                 rewrite <- (slice_firstn (buf w') (ro + res)) by lia.
                 rewrite Hpre, slice_firstn by lia.
                 rewrite Hb2, <- Hd. apply slice_store; [lia|exact Hlen].
           ++ injection Hrun as <- <- <-.
              exists [c].
              split; [|split; [|split; [|split]]].
              ** reflexivity.
              ** lia.
              ** discriminate.
              ** rewrite Hb2. apply firstn_store. exact Hlen.
              ** unfold all_delivered. cbn [map concat]. rewrite Hdel, app_nil_r.
                 fold d. replace (ro + res - ro) with (count_of d) by lia.
                 rewrite Hb2. apply slice_store; [lia|exact Hlen].
    + injection Hrun as <- <- <-. exists []. rewrite Hw' in Ego. cbn [andb] in Ego.
      apply Z.ltb_ge in Ego.
      split; [|split; [|split; [|split]]]; try reflexivity; try lia.
      rewrite Z.sub_diag. reflexivity.
Qed.

(** X2. Read-exact and read-once. For every way the ring splits the reads
    within the lengths asked for, a call of [read_fd] for [count] bytes that
    returns a positive [r] while the flag is still set has used up a prefix of
    the ring's answers and holds in the first [r] bytes of the buffer exactly
    the bytes those answers delivered, in order; [r] is at most [count], and
    is [count] when the read is exact. *)
Theorem read_fd_gathers_delivered (cs cs' : list completion) (w w' : world)
    (fd count r : Z) (exact : bool) :
  0 <= count <= 65535 ->
  reads_ok count cs ->
  read_fd cs w fd count exact = Some (r, cs', w') ->
  working w' = true -> 0 < r ->
  exists used,
    cs = used ++ cs' /\
    r <= count /\ (exact = true -> r = count) /\
    slice (buf w') 0 r = all_delivered used.
Proof.
  intros Hcount Hok Hrun Hw' Hr.
  assert (Hok0 : reads_ok (count - 0) cs) by (rewrite Z.sub_0_r; exact Hok).
  assert (Hlen : (Z.to_nat 0 <= length (buf w))%nat) by (cbn; lia).
  destruct (read_fd_gathers cs 0 w fd count exact r cs' w'
              ltac:(lia) ltac:(lia) Hlen Hok0 Hrun Hw' Hr)
    as [used [Hcs [Hrange [Hex [_ Hgot]]]]].
  exists used. rewrite Z.sub_0_r in Hgot.
  split; [exact Hcs|]. split; [lia|]. split; [exact Hex|exact Hgot].
Qed.

Lemma read_fd_gathers_delivered_witness :
  exists used,
    [completes 1 [7; 9]; eof; completes 3 [1; 2; 3]; completes 5 []]
      = used ++ [completes 5 []] /\
    4 <= 4 /\ (true = true -> 4 = 4) /\
    slice (buf (mk_world true [7; 1; 2; 3; 0; 0]
                  [IoRead 0 0 4; IoRead 0 1 3; IoRead 0 1 3])) 0 4
      = all_delivered used.
Proof.
  apply (read_fd_gathers_delivered
           [completes 1 [7; 9]; eof; completes 3 [1; 2; 3]; completes 5 []]
           [completes 5 []]
           (mk_world true [0; 0; 0; 0; 0; 0] []) _ 0 4 4 true).
  - lia.
  - cbn. repeat (right; right; split; [lia|]; split; [cbn; lia|]). left. lia.
  - vm_compute. reflexivity.
  - reflexivity.
  - lia.
Defined.

End PrimitiveFacts.

(** ** One iteration of the forwarder *)

Section ForwarderLoopFacts.
Import Codec Mem Forward.

Lemma read_fd_done ro cs w fd count exact :
  count <= ro -> read_fd_from ro cs w fd count exact = Some (ro, cs, w).
Proof.
  intros H. assert (E : (ro <? count) = false) by (apply Z.ltb_ge; exact H).
  destruct cs; cbn [read_fd_from]; rewrite E, andb_false_r; reflexivity.
Qed.

Lemma write_fd_done wo cs w fd count :
  count <= wo -> write_fd_from wo cs w fd count = Some (0, cs, w).
Proof.
  intros H. assert (E : (wo <? count) = false) by (apply Z.ltb_ge; exact H).
  destruct cs; cbn [write_fd_from]; rewrite E, andb_false_r; reflexivity.
Qed.

Lemma writev_fd_done wo cs w fd iovecs count :
  count <= wo -> writev_fd_from wo cs w fd iovecs count = Some (0, cs, w).
Proof.
  intros H. assert (E : (wo <? count) = false) by (apply Z.ltb_ge; exact H).
  destruct cs; cbn [writev_fd_from]; rewrite E, andb_false_r; reflexivity.
Qed.

(** A read that the ring completes in full at once. *)
Lemma read_fd_in_one (data : list Z) cs w fd count exact :
  working w = true -> 0 < count <= 65535 ->
  read_fd (completes count data :: cs) w fd count exact
    = Some (count, cs,
            set_buf (store (buf w) 0 (firstn (Z.to_nat count) data))
                    (log (IoRead fd 0 count) w)).
Proof.
  intros Hw Hc. unfold read_fd. cbn [read_fd_from completes c_cq c_stop stopped_by].
  rewrite Hw.
  assert (E1 : (0 <? count) = true) by (apply Z.ltb_lt; lia).
  assert (E2 : (count <? 0) = false) by (apply Z.ltb_ge; lia).
  assert (E3 : to_u16 count = count) by (apply to_u16_small; lia).
  assert (E4 : (count <=? 0) = false) by (apply Z.leb_gt; lia).
  rewrite E1. cbn [andb]. rewrite E2, Z.add_0_l, !E3, E4, Z.sub_0_r.
  change (buf (log (IoRead fd 0 count) w)) with (buf w).
  destruct exact; cbn [negb]; [|reflexivity].
  apply read_fd_done. lia.
Qed.

(** A write that the ring takes in full at once. *)
Lemma write_fd_in_one (data : list Z) cs w fd count :
  working w = true -> 0 < count ->
  write_fd (completes count data :: cs) w fd count
    = Some (0, cs, log (IoWrite fd 0 count (slice (buf w) 0 count)) w).
Proof.
  intros Hw Hc. unfold write_fd. cbn [write_fd_from completes c_cq c_stop stopped_by].
  rewrite Hw.
  assert (E1 : (0 <? count) = true) by (apply Z.ltb_lt; lia).
  assert (E2 : (count <? 0) = false) by (apply Z.ltb_ge; lia).
  rewrite E1. cbn [andb]. rewrite E2, Z.add_0_l, Z.sub_0_r.
  apply write_fd_done. lia.
Qed.

(** A write that fails. *)
Lemma write_fd_fails (data : list Z) cs w fd count wc :
  working w = true -> 0 < count -> wc < 0 ->
  write_fd (completes wc data :: cs) w fd count
    = Some (-2, cs, log (IoWrite fd 0 count []) w).
Proof.
  intros Hw Hc Hwc. unfold write_fd.
  cbn [write_fd_from completes c_cq c_stop stopped_by]. rewrite Hw.
  assert (E1 : (0 <? count) = true) by (apply Z.ltb_lt; lia).
  assert (E2 : (wc <? 0) = true) by (apply Z.ltb_lt; lia).
  rewrite E1. cbn [andb]. rewrite E2, Z.sub_0_r.
  rewrite (slice_nothing (buf w) 0 wc) by lia. reflexivity.
Qed.

(** A header and a chunk that the ring takes in full at once. *)
Lemma writev_fd_in_one (data : list Z) cs w fd (hdr chunk : list Z) :
  working w = true -> count_of hdr = 2 -> 0 < count_of chunk ->
  writev_fd (completes (count_of chunk + 2) data :: cs) w fd [hdr; chunk]
    = Some (0, cs, log (IoWritev fd [hdr; chunk] (hdr ++ chunk)) w).
Proof.
  intros Hw Hh Hc. unfold writev_fd, writev_count. cbn [fold_left].
  cbn [writev_fd_from completes c_cq c_stop stopped_by]. rewrite Hw.
  assert (E1 : (0 <? count_of chunk) = true) by (apply Z.ltb_lt; lia).
  assert (E2 : (count_of chunk + 2 <? 0) = false) by (apply Z.ltb_ge; lia).
  rewrite E1. cbn [andb]. rewrite E2, Z.add_0_l.
  rewrite writev_fd_done by lia.
  cbn [concat]. rewrite app_nil_r.
  replace (Z.to_nat (count_of chunk + 2)) with (length (hdr ++ chunk)).
  - rewrite firstn_all. reflexivity.
  - unfold count_of in *. rewrite length_app. lia.
Qed.

(** A vectored write that fails. *)
Lemma writev_fd_fails (data : list Z) cs w fd (hdr chunk : list Z) wc :
  working w = true -> 0 < count_of chunk -> wc < 0 ->
  writev_fd (completes wc data :: cs) w fd [hdr; chunk]
    = Some (wc, cs, log (IoWritev fd [hdr; chunk] []) w).
Proof.
  intros Hw Hc Hwc. unfold writev_fd, writev_count. cbn [fold_left].
  cbn [writev_fd_from completes c_cq c_stop stopped_by]. rewrite Hw.
  assert (E1 : (0 <? count_of chunk) = true) by (apply Z.ltb_lt; lia).
  assert (E2 : (wc <? 0) = true) by (apply Z.ltb_lt; lia).
  rewrite E1. cbn [andb]. rewrite E2.
  replace (Z.to_nat wc) with 0%nat by lia. reflexivity.
Qed.

Lemma slice_store_start (b d : list Z) (n : Z) :
  n = count_of d -> slice (store b 0 d) 0 n = d.
Proof.
  intros ->. apply slice_store; [lia|cbn; lia].
Qed.

Lemma count_store_fit (b d : list Z) :
  count_of d <= count_of b -> count_of (store b 0 d) = count_of b.
Proof.
  unfold count_of, store. intros H.
  rewrite !length_app, length_skipn. cbn [Z.to_nat firstn length]. lia.
Qed.

Lemma firstn_count (d : list Z) : firstn (Z.to_nat (count_of d)) d = d.
Proof. unfold count_of. rewrite Nat2Z.id. apply firstn_all. Qed.

(** X3. Framed in, plain out. With [read_hdr] set and [write_hdr] clear, an
    iteration whose reads deliver the two-byte length of a chunk of [L]
    bytes and then the chunk, and whose write takes the [L] bytes, puts on
    the sink exactly the chunk, without its length, and goes on to the next
    iteration. *)
Theorem fwd_strips_header (host : endianness) (args : fwd_args)
    (payload junk : list Z) (cs : list completion) (w : world) :
  let L := count_of payload in
  read_hdr args = true -> write_hdr args = false ->
  working w = true -> 0 < L <= 65535 ->
  2 <= count_of (buf w) -> L <= count_of (buf w) ->
  exists b,
    fwd_body host args
      (completes 2 (bytes_of (set_i host L)) :: completes L payload
         :: completes L junk :: cs) w
    = Some (inl 0, cs,
            mk_world true b
              (trace w ++ [IoRead rfd 0 2; IoRead rfd 0 L; IoWrite wfd 0 L payload])) /\
    slice b 0 L = payload /\ count_of b = count_of (buf w).
Proof.
  intros L Hrh Hwh Hw HL Hb2min HbL.
  unfold fwd_body. rewrite Hrh.
  rewrite read_fd_in_one by (assumption || lia).
  change (2 <? 0) with false. cbv iota.
  set (w1 := set_buf _ _).
  assert (Hw1 : working w1 = true) by exact Hw.
  assert (Hsz : get_i host (mk_b_u16 (nth 0 (buf w1) 0) (nth 1 (buf w1) 0)) = L).
  { subst w1. cbn [set_buf buf]. rewrite store_at_start.
    change (Z.to_nat 2) with 2%nat. unfold bytes_of. cbn [firstn app nth].
    transitivity (get_i host (set_i host L)).
    - destruct (set_i host L); reflexivity.
    - rewrite get_set_i. apply to_u16_small. lia. }
  rewrite Hsz. unfold fwd_chunk.
  rewrite read_fd_in_one by (assumption || lia).
  replace (L <? 0) with false by (symmetry; apply Z.ltb_ge; lia).
  rewrite (to_u16_small L) by lia.
  replace (L <=? 0) with false by (symmetry; apply Z.leb_gt; lia).
  rewrite Hwh.
  set (w2 := set_buf _ _).
  assert (Hw2 : working w2 = true) by exact Hw.
  rewrite write_fd_in_one by (assumption || lia).
  change (0 <? 0) with false. cbv iota.
  assert (Hb2 : slice (buf w2) 0 L = payload).
  { subst w2. cbn [set_buf buf]. subst L. rewrite firstn_count.
    apply slice_store_start. reflexivity. }
  exists (buf w2). split; [|split; [exact Hb2|]].
  - rewrite Hb2. subst w2 w1. unfold log, set_buf. cbn [working buf trace].
    rewrite Hw, <- !app_assoc. reflexivity.
  - subst w2 w1. cbn [set_buf log buf]. subst L. rewrite firstn_count.
    change (Z.to_nat 2) with 2%nat.
    assert (Hh : count_of (store (buf w) 0
                   (firstn 2 (bytes_of (set_i host (count_of payload)))))
                 = count_of (buf w)).
    { apply count_store_fit. unfold bytes_of, count_of. cbn [firstn length].
      unfold count_of in Hb2min. lia. }
    rewrite count_store_fit; [exact Hh|]. rewrite Hh. exact HbL.
Qed.

Lemma fwd_strips_header_witness :
  exists b,
    fwd_body LittleEndian (mk_fwd_args 1500 true false)
      (completes 2 (bytes_of (set_i LittleEndian (count_of [202; 254; 186; 190])))
         :: completes (count_of [202; 254; 186; 190]) [202; 254; 186; 190]
         :: completes (count_of [202; 254; 186; 190]) [] :: [eof])
      (mk_world true (repeat 0 1500) [])
    = Some (inl 0, [eof],
            mk_world true b
              (trace (mk_world true (repeat 0 1500) [])
                 ++ [IoRead rfd 0 2; IoRead rfd 0 (count_of [202; 254; 186; 190]);
                     IoWrite wfd 0 (count_of [202; 254; 186; 190]) [202; 254; 186; 190]])) /\
    slice b 0 (count_of [202; 254; 186; 190]) = [202; 254; 186; 190] /\
    count_of b = count_of (buf (mk_world true (repeat 0 1500) [])).
Proof.
  apply (fwd_strips_header LittleEndian (mk_fwd_args 1500 true false)
           [202; 254; 186; 190] [] [eof] (mk_world true (repeat 0 1500) [])).
  - reflexivity.
  - reflexivity.
  - reflexivity.
  - cbn. lia.
  - vm_compute. discriminate.
  - vm_compute. discriminate.
Defined.

(** A read-once that the ring completes with [n] bytes. *)
Lemma read_fd_once (data : list Z) cs w fd count n :
  working w = true -> 0 < n <= count -> count <= 65535 ->
  read_fd (completes n data :: cs) w fd count false
    = Some (n, cs,
            set_buf (store (buf w) 0 (firstn (Z.to_nat n) data))
                    (log (IoRead fd 0 count) w)).
Proof.
  intros Hw Hn Hc. unfold read_fd. cbn [read_fd_from completes c_cq c_stop stopped_by].
  rewrite Hw.
  assert (E1 : (0 <? count) = true) by (apply Z.ltb_lt; lia).
  assert (E2 : (n <? 0) = false) by (apply Z.ltb_ge; lia).
  assert (E3 : to_u16 n = n) by (apply to_u16_small; lia).
  assert (E4 : (n <=? 0) = false) by (apply Z.leb_gt; lia).
  rewrite E1. cbn [andb]. rewrite E2, Z.add_0_l, !E3, E4, Z.sub_0_r.
  reflexivity.
Qed.

(** X4. Plain in, framed out. With [read_hdr] clear and [write_hdr] set, an
    iteration whose read delivers a chunk of [n] bytes, at most [read_sz],
    and whose vectored write takes the [n + 2] bytes at once, puts on the
    sink the length [n] as the host lays it out followed by the chunk: the
    header tells the size of what was read, not [read_sz]. *)
Theorem fwd_adds_header (host : endianness) (args : fwd_args)
    (chunk junk : list Z) (cs : list completion) (w : world) :
  let n := count_of chunk in
  let hdr := bytes_of (set_i host n) in
  read_hdr args = false -> write_hdr args = true ->
  working w = true ->
  0 < n <= read_sz args -> read_sz args <= 65535 ->
  read_sz args <= count_of (buf w) ->
  exists b,
    fwd_body host args (completes n chunk :: completes (n + 2) junk :: cs) w
    = Some (inl 0, cs,
            mk_world true b
              (trace w ++ [IoRead rfd 0 (read_sz args);
                           IoWritev wfd [hdr; chunk] (hdr ++ chunk)])) /\
    count_of b = count_of (buf w).
Proof.
  intros n hdr Hrh Hwh Hw Hn H16 Hb.
  unfold fwd_body. rewrite Hrh. unfold fwd_chunk.
  rewrite (to_u16_small (read_sz args)) by lia.
  rewrite read_fd_once by (assumption || lia).
  replace (n <? 0) with false by (symmetry; apply Z.ltb_ge; lia).
  rewrite (to_u16_small n) by lia.
  replace (n <=? 0) with false by (symmetry; apply Z.leb_gt; lia).
  rewrite Hwh.
  set (w1 := set_buf _ _).
  assert (Hw1 : working w1 = true) by exact Hw.
  assert (Hb1 : slice (buf w1) 0 n = chunk).
  { subst w1. cbn [set_buf buf]. subst n. rewrite firstn_count.
    apply slice_store_start. reflexivity. }
  rewrite Hb1. subst hdr n.
  rewrite writev_fd_in_one by (assumption || reflexivity || lia).
  change (0 <? 0) with false. cbv iota.
  exists (buf w1). split.
  - subst w1. unfold log, set_buf. cbn [working buf trace].
    rewrite Hw, <- !app_assoc. reflexivity.
  - subst w1. cbn [set_buf log buf]. rewrite firstn_count.
    apply count_store_fit. lia.
Qed.

Lemma fwd_adds_header_witness :
  exists b,
    fwd_body LittleEndian (mk_fwd_args 1500 false true)
      (completes (count_of [1; 2; 3]) [1; 2; 3]
         :: completes (count_of [1; 2; 3] + 2) [] :: [eof])
      (mk_world true (repeat 0 1500) [])
    = Some (inl 0, [eof],
            mk_world true b
              (trace (mk_world true (repeat 0 1500) [])
                 ++ [IoRead rfd 0 (read_sz (mk_fwd_args 1500 false true));
                     IoWritev wfd
                       [bytes_of (set_i LittleEndian (count_of [1; 2; 3])); [1; 2; 3]]
                       (bytes_of (set_i LittleEndian (count_of [1; 2; 3])) ++ [1; 2; 3])])) /\
    count_of b = count_of (buf (mk_world true (repeat 0 1500) [])).
Proof.
  apply (fwd_adds_header LittleEndian (mk_fwd_args 1500 false true)
           [1; 2; 3] [] [eof] (mk_world true (repeat 0 1500) [])).
  - reflexivity.
  - reflexivity.
  - reflexivity.
  - cbn. lia.
  - cbn. lia.
  - vm_compute. discriminate.
Defined.

(** X5. A write that fails ends the worker. While the flag is set, when
    the read of an iteration delivers a chunk and the write of it completes
    with a negative [wc], [fwd]'s loop returns at once, whatever is left of
    its iterations: [-2] on the plain path, [wc] on the vectored one. *)
Theorem failed_write_ends_worker (host : endianness) (args : fwd_args)
    (fuel : nat) (ret wc : Z) (chunk junk : list Z)
    (cs : list completion) (w : world) :
  let n := count_of chunk in
  read_hdr args = false ->
  working w = true ->
  0 < n <= read_sz args -> read_sz args <= 65535 ->
  wc < 0 ->
  exists w',
    fwd_loop host args (S fuel) ret (completes n chunk :: completes wc junk :: cs) w
    = Some (if write_hdr args then wc else -2, cs, w') /\
    emitted (trace w') = emitted (trace w).
Proof.
  intros n Hrh Hw Hn H16 Hwc.
  cbn [fwd_loop]. rewrite Hw.
  unfold fwd_body. rewrite Hrh. unfold fwd_chunk.
  rewrite (to_u16_small (read_sz args)) by lia.
  rewrite read_fd_once by (assumption || lia).
  replace (n <? 0) with false by (symmetry; apply Z.ltb_ge; lia).
  rewrite (to_u16_small n) by lia.
  replace (n <=? 0) with false by (symmetry; apply Z.leb_gt; lia).
  set (w1 := set_buf _ _).
  assert (Hw1 : working w1 = true) by exact Hw.
  assert (Hb1 : slice (buf w1) 0 n = chunk).
  { subst w1. cbn [set_buf buf]. subst n. rewrite firstn_count.
    apply slice_store_start. reflexivity. }
  assert (Htr : trace w1 = trace w ++ [IoRead rfd 0 (read_sz args)]) by reflexivity.
  destruct (write_hdr args).
  - rewrite Hb1, writev_fd_fails by (assumption || (subst n; lia)).
    replace (wc <? 0) with true by (symmetry; apply Z.ltb_lt; lia).
    eexists. split; [reflexivity|].
    cbn [log trace]. rewrite Htr, !emitted_app. cbn. rewrite !app_nil_r. reflexivity.
  - rewrite write_fd_fails by (assumption || lia).
    change (-2 <? 0) with true. cbv iota.
    eexists. split; [reflexivity|].
    cbn [log trace]. rewrite Htr, !emitted_app. cbn. rewrite !app_nil_r. reflexivity.
Qed.

Lemma failed_write_ends_worker_witness :
  exists w',
    fwd_loop LittleEndian (mk_fwd_args 1500 false false) 5 0
      (completes (count_of [1; 2; 3]) [1; 2; 3] :: completes (-32) []
         :: [completes 3 [4; 5; 6]])
      (mk_world true (repeat 0 1500) [])
    = Some (if write_hdr (mk_fwd_args 1500 false false) then -32 else -2,
            [completes 3 [4; 5; 6]], w') /\
    emitted (trace w') = emitted (trace (mk_world true (repeat 0 1500) [])).
Proof.
  apply (failed_write_ends_worker LittleEndian (mk_fwd_args 1500 false false) 4 0 (-32)
           [1; 2; 3] [] [completes 3 [4; 5; 6]] (mk_world true (repeat 0 1500) [])).
  - reflexivity.
  - reflexivity.
  - cbn. lia.
  - cbn. lia.
  - lia.
Defined.

(** *** Where the plain path reads *)

Lemma adds_refl len w : adds_reads_at_start len w w.
Proof. exists []. split; [now rewrite app_nil_r|constructor]. Qed.

Lemma adds_trans len w1 w2 w3 :
  adds_reads_at_start len w1 w2 -> adds_reads_at_start len w2 w3 ->
  adds_reads_at_start len w1 w3.
Proof.
  intros [e1 [H1 F1]] [e2 [H2 F2]]. exists (e1 ++ e2). split.
  - rewrite H2, H1, app_assoc. reflexivity.
  - apply Forall_app. split; assumption.
Qed.

Lemma adds_same_trace len w w' :
  trace w' = trace w -> adds_reads_at_start len w w'.
Proof. intros H. exists []. split; [now rewrite app_nil_r|constructor]. Qed.

Lemma adds_log len e w c :
  match e with IoRead _ off n => off = 0 /\ n = len | _ => True end ->
  adds_reads_at_start len w (stopped_by c (log e w)).
Proof.
  intros H. exists [e]. split.
  - rewrite stopped_by_trace. reflexivity.
  - constructor; [exact H|constructor].
Qed.

Lemma plain_read_adds (cs : list completion) :
  forall w fd count r cs' w',
    read_fd_from 0 cs w fd count false = Some (r, cs', w') ->
    adds_reads_at_start count w w'.
Proof.
  induction cs as [|c cs IH]; intros w fd count r cs' w' Hrun;
    cbn [read_fd_from] in Hrun;
    destruct (working w && (0 <? count)); try discriminate Hrun;
    try (injection Hrun as _ _ <-; apply adds_refl).
  assert (Hlog : adds_reads_at_start count w
                   (stopped_by c (log (IoRead fd 0 (count - 0)) w)))
    by (apply adds_log; split; [reflexivity|lia]).
  destruct (c_cq c) as [|ret|res data].
  - injection Hrun as _ _ <-. apply adds_same_trace, stopped_by_trace.
  - injection Hrun as _ _ <-. exact Hlog.
  - destruct (res <? 0); [injection Hrun as _ _ <-; exact Hlog|].
    destruct (to_u16 res <=? 0).
    + apply (adds_trans _ _ _ _ Hlog). exact (IH _ _ _ _ _ _ Hrun).
    + cbn [negb] in Hrun. injection Hrun as _ _ <-.
      apply (adds_trans _ _ _ _ Hlog). apply adds_same_trace. reflexivity.
Qed.

Lemma write_adds len (cs : list completion) :
  forall wo w fd count r cs' w',
    write_fd_from wo cs w fd count = Some (r, cs', w') ->
    adds_reads_at_start len w w'.
Proof.
  induction cs as [|c cs IH]; intros wo w fd count r cs' w' Hrun;
    cbn [write_fd_from] in Hrun;
    destruct (working w && (wo <? count)); try discriminate Hrun;
    try (injection Hrun as _ _ <-; apply adds_refl).
  destruct (c_cq c) as [|ret|wc data].
  - injection Hrun as _ _ <-. apply adds_same_trace, stopped_by_trace.
  - injection Hrun as _ _ <-. apply adds_log. exact I.
  - destruct (wc <? 0).
    + injection Hrun as _ _ <-. apply adds_log. exact I.
    + eapply adds_trans; [|exact (IH _ _ _ _ _ _ _ Hrun)]. apply adds_log. exact I.
Qed.

Lemma writev_adds len (cs : list completion) :
  forall wo w fd iovecs count r cs' w',
    writev_fd_from wo cs w fd iovecs count = Some (r, cs', w') ->
    adds_reads_at_start len w w'.
Proof.
  induction cs as [|c cs IH]; intros wo w fd iovecs count r cs' w' Hrun;
    cbn [writev_fd_from] in Hrun;
    destruct (working w && (wo <? count)); try discriminate Hrun;
    try (injection Hrun as _ _ <-; apply adds_refl).
  destruct (c_cq c) as [|ret|wc data].
  - injection Hrun as _ _ <-. apply adds_same_trace, stopped_by_trace.
  - injection Hrun as _ _ <-. apply adds_log. exact I.
  - destruct (wc <? 0).
    + injection Hrun as _ _ <-. apply adds_log. exact I.
    + eapply adds_trans; [|exact (IH _ _ _ _ _ _ _ _ Hrun)]. apply adds_log. exact I.
Qed.

Lemma plain_chunk_adds host args sz cs w r cs' w' :
  fwd_chunk host args sz false cs w = Some (r, cs', w') ->
  adds_reads_at_start sz w w'.
Proof.
  unfold fwd_chunk, read_fd, write_fd, writev_fd. intros Hrun.
  destruct (read_fd_from 0 cs w rfd sz false) as [[[ret cs1] w1]|] eqn:Eread;
    [|discriminate Hrun].
  apply plain_read_adds in Eread.
  destruct (ret <? 0); [injection Hrun as _ _ <-; exact Eread|].
  destruct (to_u16 ret <=? 0); [injection Hrun as _ _ <-; exact Eread|].
  destruct (write_hdr args).
  - match type of Hrun with
    | context [writev_fd_from ?a ?b ?c ?d ?e ?f] =>
        destruct (writev_fd_from a b c d e f) as [[[ret1 cs2] w2]|] eqn:Ewrite;
          [|discriminate Hrun]
    end.
    injection Hrun as _ _ <-.
    apply (adds_trans _ _ _ _ Eread). exact (writev_adds _ _ _ _ _ _ _ _ _ _ Ewrite).
  - destruct (write_fd_from 0 cs1 w1 wfd (to_u16 ret)) as [[[ret1 cs2] w2]|] eqn:Ewrite;
      [|discriminate Hrun].
    injection Hrun as _ _ <-.
    apply (adds_trans _ _ _ _ Eread). exact (write_adds _ _ _ _ _ _ _ _ _ Ewrite).
Qed.

Lemma plain_loop_adds host args (fuel : nat) :
  read_hdr args = false ->
  forall ret cs w r cs' w',
    fwd_loop host args fuel ret cs w = Some (r, cs', w') ->
    adds_reads_at_start (to_u16 (read_sz args)) w w'.
Proof.
  intros Hrh. induction fuel as [|fuel IH]; intros ret cs w r cs' w' Hrun;
    [discriminate Hrun|].
  cbn [fwd_loop] in Hrun.
  destruct (working w); [|injection Hrun as _ _ <-; apply adds_refl].
  unfold fwd_body in Hrun. rewrite Hrh in Hrun.
  destruct (fwd_chunk host args (to_u16 (read_sz args)) false cs w)
    as [[[res cs1] w1]|] eqn:Echunk; [|discriminate Hrun].
  apply plain_chunk_adds in Echunk.
  destruct res as [ret1|ret1].
  - apply (adds_trans _ _ _ _ Echunk). exact (IH _ _ _ _ _ _ Hrun).
  - injection Hrun as _ _ <-. exact Echunk.
Qed.

(** X6. Without [read_hdr] the forwarder never reads past its block: in
    every run of [fwd] that returns, whatever the ring answers, each read
    submitted asks for [read_sz] bytes at offset 0 of the block of
    [read_sz] bytes. *)
Theorem plain_reads_stay_in_block (host : endianness) (args : fwd_args)
    (block : option (list Z)) (reg : Z) (flag : bool) (fuel : nat)
    (cs cs' : list completion) (r : Z) (w' : world) :
  read_hdr args = false ->
  0 <= read_sz args <= 65535 ->
  fwd host args block reg flag fuel cs = Some (r, cs', w') ->
  reads_at_start (read_sz args) (trace w') /\
  forallb (read_in_bounds (read_sz args)) (trace w') = true.
Proof.
  intros Hrh Hsz Hrun.
  assert (Hat : reads_at_start (read_sz args) (trace w')).
  { unfold fwd in Hrun. destruct block as [bytes|].
    - destruct (reg <? 0).
      + injection Hrun as _ _ <-. constructor.
      + apply (plain_loop_adds host args fuel Hrh) in Hrun.
        destruct Hrun as [evs [Htr Hevs]]. cbn [trace app] in Htr.
        rewrite Htr, <- (to_u16_small (read_sz args)) by exact Hsz. exact Hevs.
    - injection Hrun as _ _ <-. constructor. }
  split; [exact Hat|].
  apply forallb_forall. intros e Hin.
  unfold reads_at_start in Hat. rewrite Forall_forall in Hat.
  specialize (Hat e Hin). destruct e as [fd off n| |]; try reflexivity.
  destruct Hat as [-> ->]. cbn [read_in_bounds].
  apply andb_true_intro. split; [reflexivity|apply Z.leb_le; lia].
Qed.

Lemma plain_reads_stay_in_block_witness :
  reads_at_start (read_sz (mk_fwd_args 4 false false))
    (trace (mk_world false [1; 2; 3; 0]
              [IoRead 0 0 4; IoRead 0 0 4; IoWrite 1 0 3 [1; 2; 3]; IoRead 0 0 4])) /\
  forallb (read_in_bounds (read_sz (mk_fwd_args 4 false false)))
    (trace (mk_world false [1; 2; 3; 0]
              [IoRead 0 0 4; IoRead 0 0 4; IoWrite 1 0 3 [1; 2; 3]; IoRead 0 0 4])) = true.
Proof.
  apply (plain_reads_stay_in_block LittleEndian (mk_fwd_args 4 false false)
           (Some [0; 0; 0; 0]) 0 true 3
           [eof; completes 3 [1; 2; 3]; completes 3 []; eof_then_stop]
           [] 0).
  - reflexivity.
  - cbn. lia.
  - vm_compute. reflexivity.
Defined.

End ForwarderLoopFacts.

(** ** The pump, socket to TAP *)

Section IngressFacts.
Import Codec Mem Pump.

Lemma tap_written_app (e1 e2 : list event) :
  tap_written (e1 ++ e2) = tap_written e1 ++ tap_written e2.
Proof.
  induction e1 as [|e e1 IH]; [reflexivity|].
  destruct e; cbn [app tap_written]; rewrite IH, ?app_assoc; reflexivity.
Qed.

Lemma payloads_app (e1 e2 : list event) :
  payloads (e1 ++ e2) = payloads e1 ++ payloads e2.
Proof.
  induction e1 as [|e e1 IH]; [reflexivity|].
  destruct e as [| | |len [errno|[|b data]]|]; cbn [app payloads];
    rewrite IH, ?app_assoc; reflexivity.
Qed.

Lemma delivers_and_then host (f g : step) :
  delivers host f -> delivers host g -> delivers host (and_then f g).
Proof.
  intros Hf Hg st r ev st' Hok Hrun Henv Hst.
  unfold and_then in Hrun.
  destruct (f st) as [[st1|st1|code] ev1] eqn:Ef.
  - destruct (g st1) as [r2 ev2] eqn:Eg.
    injection Hrun as <- <-.
    apply Forall_app in Henv as [Henv1 Henv2].
    destruct (Hf st (Fall st1) ev1 st1 Hok Ef Henv1 eq_refl) as [Hok1 Hw1].
    destruct (Hg st1 r2 ev2 st' Hok1 Eg Henv2 Hst) as [Hok2 Hw2].
    split; [exact Hok2|].
    rewrite tap_written_app, payloads_app, <- app_assoc, Hw2.
    rewrite !app_assoc. f_equal. exact Hw1.
  - injection Hrun as <- <-. exact (Hf st _ _ st' Hok Ef Henv Hst).
  - injection Hrun as <- <-. discriminate Hst.
Qed.

Lemma untouched_delivers host f : sock_untouched f -> delivers host f.
Proof.
  intros Hf st r ev st' Hok Hrun _ Hst.
  destruct (Hf st r ev st' Hrun Hst) as [(Hb & Ho & Ht) [Hw Hp]].
  unfold sock_ok, pending_w in *. rewrite Hb, Ho, Ht, Hw, Hp.
  split; [exact Hok|]. now rewrite app_nil_r.
Qed.

Ltac step_cases Hrun Hst :=
  repeat match type of Hrun with
         | context [if ?c then _ else _] => destruct c
         | context [match ?x with _ => _ end] => destruct x
         end;
  injection Hrun as <- <-;
  try (unfold on_errno in Hst;
       match type of Hst with
       | context [if ?c then _ else _] => destruct c
       end);
  try discriminate Hst;
  injection Hst as <-;
  repeat split.

Lemma sock_untouched_tap_fill mtu host sc : sock_untouched (tap_fill mtu host sc).
Proof. intros st r ev st' Hrun Hst. unfold tap_fill in Hrun. step_cases Hrun Hst. Qed.

Lemma sock_untouched_tap_drain sc : sock_untouched (tap_drain sc).
Proof. intros st r ev st' Hrun Hst. unfold tap_drain in Hrun. step_cases Hrun Hst. Qed.

Lemma delivers_skip host : delivers host (fun st => (Fall st, [])).
Proof.
  intros st r ev st' Hok Hrun _ Hst. injection Hrun as <- <-. injection Hst as <-.
  split; [exact Hok|]. cbn. now rewrite app_nil_r.
Qed.

Lemma payload_after_header (data rest : list Z) :
  2 <= count_of data ->
  slice (data ++ rest) 2 (count_of data - 2) = skipn 2 data.
Proof.
  intros H. unfold slice, count_of in *. change (Z.to_nat 2) with 2%nat.
  rewrite skipn_app.
  replace (2 - length data)%nat with 0%nat by lia. cbn [skipn].
  rewrite firstn_app.
  replace (Z.to_nat (Z.of_nat (length data) - 2)) with (length (skipn 2 data))
    by (rewrite length_skipn; lia).
  rewrite firstn_all, Nat.sub_diag. cbn. apply app_nil_r.
Qed.

Lemma decoded_prefix host (data rest : list Z) :
  2 <= count_of data ->
  get_i host (mk_b_u16 (nth 0 (data ++ rest) 0) (nth 1 (data ++ rest) 0))
    = decoded host data.
Proof.
  intros H. unfold decoded.
  destruct data as [|x [|y data]]; unfold count_of in H; cbn [length] in H; try lia.
  reflexivity.
Qed.

Lemma delivers_sock_fill mtu host sc : delivers host (sock_fill mtu host sc).
Proof.
  intros st r ev st' Hok Hrun Henv Hst. unfold sock_ok in Hok.
  unfold sock_fill in Hrun.
  destruct (wtotal st =? 0) eqn:Eidle.
  - apply Z.eqb_eq in Eidle.
    assert (Hpend : pending_w st = []).
    { unfold pending_w. apply slice_nothing. lia. }
    destruct (r_recvfrom sc) as [errno|data] eqn:Erecv.
    + injection Hrun as <- <-. unfold on_errno in Hst.
      destruct (errno =? EAGAIN); [|discriminate Hst].
      injection Hst as <-. split; [exact Hok|]. cbn. now rewrite app_nil_r.
    + destruct (count_of data =? 0) eqn:Ecount.
      * injection Hrun as <- <-. injection Hst as <-. split; [exact Hok|].
        apply Z.eqb_eq in Ecount. unfold count_of in Ecount.
        destruct data; [|cbn [length] in Ecount; lia].
        cbn. now rewrite app_nil_r.
      * injection Hrun as <- <-. injection Hst as <-.
        apply Z.eqb_neq in Ecount.
        destruct data as [|b data]; [contradiction Ecount; reflexivity|].
        apply Forall_inv in Henv. cbn [ingress_ok] in Henv.
        destruct Henv as [Hcount Hdec].
        rewrite store_at_start, decoded_prefix, Hdec by lia.
        split; [unfold sock_ok; cbn [wbuf woff wtotal]; lia|].
        rewrite Hpend. unfold pending_w. cbn [wbuf woff wtotal].
        cbn [tap_written payloads app].
        assert (woff st = 0) as -> by lia.
        rewrite Z.add_0_l, Z.sub_0_r, app_nil_r. change hsz with 2.
        apply (payload_after_header (b :: data)). lia.
  - injection Hrun as <- <-. injection Hst as <-.
    split; [exact Hok|]. cbn. now rewrite app_nil_r.
Qed.

Lemma delivers_sock_drain host sc : delivers host (sock_drain sc).
Proof.
  intros st r ev st' Hok Hrun Henv Hst. unfold sock_ok in Hok.
  unfold sock_drain in Hrun.
  destruct (woff st <? wtotal st) eqn:Ebusy.
  - apply Z.ltb_lt in Ebusy.
    destruct (r_write sc) as [errno|n] eqn:Ewrite.
    + injection Hrun as <- <-. unfold on_errno in Hst.
      destruct (errno =? EAGAIN); [|discriminate Hst].
      injection Hst as <-. split; [exact Hok|]. cbn. now rewrite app_nil_r.
    + injection Hrun as <- <-. injection Hst as <-.
      apply Forall_inv in Henv. cbn in Henv.
      unfold sock_ok, pending_w. cbn [wbuf woff wtotal tap_written payloads].
      split; [lia|]. rewrite !app_nil_r.
      replace (woff st + n + hsz) with (woff st + hsz + n) by lia.
      unfold hsz. rewrite slice_split by lia. f_equal. lia.
  - injection Hrun as <- <-. injection Hst as <-.
    split; [exact Hok|]. cbn. now rewrite app_nil_r.
Qed.

Lemma delivers_sock_reset host : delivers host sock_reset.
Proof.
  intros st r ev st' Hok Hrun Henv Hst. unfold sock_ok in Hok.
  unfold sock_reset in Hrun.
  destruct (woff st >=? wtotal st) eqn:Edone.
  - rewrite Z.geb_leb in Edone. apply Z.leb_le in Edone.
    injection Hrun as <- <-. injection Hst as <-.
    unfold sock_ok, pending_w. cbn [wbuf woff wtotal tap_written payloads].
    split; [lia|].
    rewrite !slice_nothing by lia. reflexivity.
  - injection Hrun as <- <-. injection Hst as <-.
    split; [exact Hok|]. cbn. now rewrite app_nil_r.
Qed.

Lemma delivers_pump_iter mtu host sc : delivers host (pump_iter mtu host sc).
Proof.
  intros st r ev st' Hok Hrun Henv Hst. unfold pump_iter in Hrun.
  destruct (r_select sc) as [errno|tun_ready read_ready].
  - injection Hrun as <- <-. discriminate Hst.
  - destruct ((tap_section mtu host sc tun_ready;; sock_section mtu host sc read_ready) st)
      as [r1 ev1] eqn:Ebody.
    injection Hrun as <- <-.
    apply Forall_inv_tail in Henv.
    assert (Hbody : delivers host
              (tap_section mtu host sc tun_ready;; sock_section mtu host sc read_ready)).
    { apply delivers_and_then.
      - unfold tap_section. destruct tun_ready; [|apply delivers_skip].
        apply (delivers_and_then host (tap_fill mtu host sc) (tap_drain sc));
          apply untouched_delivers.
        + apply sock_untouched_tap_fill.
        + apply sock_untouched_tap_drain.
      - unfold sock_section. destruct read_ready; [|apply delivers_skip].
        apply (delivers_and_then host (sock_fill mtu host sc)
                 (and_then (sock_drain sc) sock_reset)).
        + apply delivers_sock_fill.
        + apply delivers_and_then;
            [apply delivers_sock_drain | apply delivers_sock_reset]. }
    exact (Hbody st r1 ev1 st' Hok Ebody Henv Hst).
Qed.

Lemma pump_loop_delivers mtu host env :
  forall st st' evs,
    sock_ok st ->
    pump_loop mtu host env st = (Running st', evs) ->
    Forall (ingress_ok host) evs ->
    sock_ok st' /\
    tap_written evs ++ pending_w st' = pending_w st ++ payloads evs.
Proof.
  induction env as [|sc env IH]; intros st st' evs Hok Hrun Henv.
  - injection Hrun as <- <-. split; [exact Hok|]. cbn. now rewrite app_nil_r.
  - cbn [pump_loop] in Hrun.
    destruct (pump_iter mtu host sc st) as [r ev] eqn:Eiter.
    assert (Hnext : forall st1, state_of r = Some st1 ->
              (let (out, ev') := pump_loop mtu host env st1 in (out, ev ++ ev'))
                = (Running st', evs) ->
              sock_ok st' /\
              tap_written evs ++ pending_w st' = pending_w st ++ payloads evs).
    { intros st1 Hst Hrest.
      destruct (pump_loop mtu host env st1) as [out ev'] eqn:Erest.
      injection Hrest as -> <-.
      apply Forall_app in Henv as [Henv1 Henv2].
      destruct (delivers_pump_iter mtu host sc st r ev st1 Hok Eiter Henv1 Hst)
        as [Hok1 Hw1].
      destruct (IH st1 st' ev' Hok1 Erest Henv2) as [Hok2 Hw2].
      split; [exact Hok2|].
      rewrite tap_written_app, payloads_app, <- app_assoc, Hw2.
      rewrite !app_assoc. f_equal. exact Hw1. }
    destruct r as [st1|st1|code].
    + apply (Hnext st1 eq_refl Hrun).
    + apply (Hnext st1 eq_refl Hrun).
    + discriminate Hrun.
Qed.

(** X7. Socket to TAP, over any run. From an idle direction, whenever every
    datagram announces in its two length bytes the bytes that follow them,
    and however the TAP splits the writes, the bytes written to the TAP
    followed by the bytes of the current frame still to write are the
    payloads of the datagrams received, in order: nothing inserted, dropped
    or repeated. *)
Theorem ingress_payloads_written (mtu : Z) (host : endianness)
    (env : list syscalls) (st st' : state) (evs : list event) :
  idle_sock st ->
  pump_loop mtu host env st = (Running st', evs) ->
  Forall (ingress_ok host) evs ->
  tap_written evs ++ pending_w st' = payloads evs.
Proof.
  intros [Ht Ho] Hrun Henv.
  destruct (pump_loop_delivers mtu host env st st' evs) as [_ Hw].
  - unfold sock_ok. lia.
  - exact Hrun.
  - exact Henv.
  - rewrite Hw. unfold pending_w. rewrite slice_nothing by lia. reflexivity.
Qed.

Lemma ingress_payloads_written_witness :
  tap_written [Select; Recvfrom 592 (RxData ([4; 0] ++ reply4));
               Write 2 4 (TxCount 3) [202; 254; 186];
               Select; Write 5 1 (TxCount 1) [190]]
    ++ pending_w (mk_state (repeat 0 592) (([4; 0] ++ reply4) ++ repeat 0 586) 0 0 0 0)
  = payloads [Select; Recvfrom 592 (RxData ([4; 0] ++ reply4));
              Write 2 4 (TxCount 3) [202; 254; 186];
              Select; Write 5 1 (TxCount 1) [190]].
Proof.
  apply (ingress_payloads_written 592 LittleEndian
           [sock_datagram ([4; 0] ++ reply4) (TxCount 3);
            sock_datagram [] (TxCount 1)] (init 590)).
  - split; reflexivity.
  - vm_compute. reflexivity.
  - repeat (apply Forall_cons; [cbn; try lia; try (split; [lia|reflexivity])|]).
    apply Forall_nil.
Defined.

End IngressFacts.

(** ** The pump, iteration by iteration *)

Section LoopFacts.
Import Codec Mem Pump.

Ltac bool_facts :=
  repeat match goal with
         | H : (_ =? _) = true |- _ => apply Z.eqb_eq in H
         | H : (_ =? _) = false |- _ => apply Z.eqb_neq in H
         | H : (_ <? _) = true |- _ => apply Z.ltb_lt in H
         | H : (_ <? _) = false |- _ => apply Z.ltb_ge in H
         | H : (_ >=? _) = _ |- _ => rewrite Z.geb_leb in H
         | H : (_ <=? _) = true |- _ => apply Z.leb_le in H
         | H : (_ <=? _) = false |- _ => apply Z.leb_gt in H
         end.

Ltac plain_scrutinee x :=
  lazymatch x with
  | context [if _ then _ else _] => fail
  | context [match _ with _ => _ end] => fail
  | _ => idtac
  end.

Ltac run_cases Hrun :=
  repeat (cbn beta iota zeta in Hrun;
          match type of Hrun with
          | context [if ?c then _ else _] => plain_scrutinee c; destruct c eqn:?
          | context [match ?x with _ => _ end] => plain_scrutinee x; destruct x eqn:?
          end).

Ltac env_facts :=
  repeat match goal with
         | H : Forall _ (_ :: _) |- _ =>
             apply Forall_cons_iff in H; destruct H
         | H : Forall _ (_ ++ _) |- _ =>
             apply Forall_app in H; destruct H
         end.

(** The TAP-to-socket half of an iteration keeps its side of the invariant
    and leaves the other side alone. *)
Lemma tap_section_keeps mtu host sc ready st r ev st' :
  dir_ok (roff st) (rtotal st) -> rtotal st <= mtu + hsz ->
  tap_section mtu host sc ready st = (r, ev) ->
  Forall lengths_ok ev -> state_of r = Some st' ->
  (dir_ok (roff st') (rtotal st') /\ rtotal st' <= mtu + hsz) /\
  woff st' = woff st /\ wtotal st' = wtotal st.
Proof.
  intros Hdir Hmax Hrun Henv Hst.
  unfold tap_section, and_then, tap_fill, tap_drain, on_errno in Hrun.
  run_cases Hrun; injection Hrun as <- <-; try discriminate Hst;
    injection Hst as <-; cbn [app] in Henv; env_facts;
    cbn [lengths_ok tx_ok] in *; bool_facts;
    unfold dir_ok, hsz, count_of in *; cbn [roff rtotal woff wtotal] in *;
    (split; [split|split; reflexivity]); lia.
Qed.

(** The socket-to-TAP half does the same on its side. *)
Lemma sock_section_keeps mtu host sc ready st r ev st' :
  dir_ok (woff st) (wtotal st) ->
  sock_section mtu host sc ready st = (r, ev) ->
  Forall lengths_ok ev -> state_of r = Some st' ->
  dir_ok (woff st') (wtotal st') /\
  roff st' = roff st /\ rtotal st' = rtotal st.
Proof.
  intros Hdir Hrun Henv Hst.
  unfold sock_section, and_then, sock_fill, sock_drain, sock_reset, on_errno in Hrun.
  run_cases Hrun; injection Hrun as <- <-; try discriminate Hst;
    injection Hst as <-; cbn [app] in Henv; env_facts;
    cbn [lengths_ok tx_ok] in *; bool_facts;
    unfold dir_ok, hsz in *; cbn [roff rtotal woff wtotal] in *;
    (split; [|split; reflexivity]); lia.
Qed.

Lemma pump_iter_keeps mtu host sc st r ev st' :
  loop_inv mtu st ->
  pump_iter mtu host sc st = (r, ev) ->
  Forall lengths_ok ev -> state_of r = Some st' ->
  loop_inv mtu st'.
Proof.
  intros (Hr & Hmax & Hw) Hrun Henv Hst. unfold pump_iter in Hrun.
  destruct (r_select sc) as [errno|tun_ready read_ready].
  - injection Hrun as <- <-. discriminate Hst.
  - unfold and_then in Hrun.
    destruct (tap_section mtu host sc tun_ready st) as [[st1|st1|code] ev1] eqn:Etap.
    + destruct (sock_section mtu host sc read_ready st1) as [r2 ev2] eqn:Esock.
      injection Hrun as <- <-. apply Forall_inv_tail in Henv.
      apply Forall_app in Henv as [Henv1 Henv2].
      destruct (tap_section_keeps mtu host sc tun_ready st _ _ st1 Hr Hmax Etap Henv1 eq_refl)
        as [[Hr1 Hmax1] [Ho1 Ht1]].
      rewrite <- Ho1, <- Ht1 in Hw.
      destruct (sock_section_keeps mtu host sc read_ready st1 _ _ st' Hw Esock Henv2 Hst)
        as [Hw2 [Ho2 Ht2]].
      unfold loop_inv. rewrite Ho2, Ht2. repeat split; assumption.
    + injection Hrun as <- <-. injection Hst as <-. apply Forall_inv_tail in Henv.
      destruct (tap_section_keeps mtu host sc tun_ready st _ _ st1 Hr Hmax Etap Henv eq_refl)
        as [[Hr1 Hmax1] [Ho1 Ht1]].
      unfold loop_inv. rewrite Ho1, Ht1. repeat split; assumption.
    + injection Hrun as <- <-. discriminate Hst.
Qed.

(** X8. What the loop keeps. Whatever the calls answer within the lengths
    they were asked for, at the top of every iteration each direction is
    either idle with offset and total both 0, or busy with
    [0 <= offset < total]; and [rtotal] is at most the local [mtu] plus 2,
    which is the configured MTU plus 4. *)
Theorem loop_invariant_kept (mtu : Z) (host : endianness)
    (env : list syscalls) (st st' : state) (evs : list event) :
  loop_inv mtu st ->
  pump_loop mtu host env st = (Running st', evs) ->
  Forall lengths_ok evs ->
  loop_inv mtu st'.
Proof.
  revert st evs. induction env as [|sc env IH]; intros st evs Hinv Hrun Henv.
  - injection Hrun as <- <-. exact Hinv.
  - cbn [pump_loop] in Hrun.
    destruct (pump_iter mtu host sc st) as [r ev] eqn:Eiter.
    assert (Hnext : forall st1, state_of r = Some st1 ->
              (let (out, ev') := pump_loop mtu host env st1 in (out, ev ++ ev'))
                = (Running st', evs) -> loop_inv mtu st').
    { intros st1 Hst Hrest.
      destruct (pump_loop mtu host env st1) as [out ev'] eqn:Erest.
      injection Hrest as -> <-.
      apply Forall_app in Henv as [Henv1 Henv2].
      apply (IH st1 ev'); [|exact Erest|exact Henv2].
      exact (pump_iter_keeps mtu host sc st r ev st1 Hinv Eiter Henv1 Hst). }
    destruct r as [st1|st1|code].
    + apply (Hnext st1 eq_refl Hrun).
    + apply (Hnext st1 eq_refl Hrun).
    + discriminate Hrun.
Qed.

Lemma loop_invariant_kept_witness :
  loop_inv 592 (sending ([4; 0] ++ payload4) 3 6).
Proof.
  apply (loop_invariant_kept 592 LittleEndian
           [tap_frame payload4 (TxCount 3)] (init 590) _
           [Select; Read 2 592 (RxData payload4); Sendto 0 6 (TxCount 3) [4; 0; 222]]).
  - unfold loop_inv, dir_ok. cbn. lia.
  - vm_compute. reflexivity.
  - repeat (apply Forall_cons; [cbn; lia|]). apply Forall_nil.
Defined.

Lemma firstn_count_of (d : list Z) : firstn (Z.to_nat (count_of d)) d = d.
Proof. unfold count_of. rewrite Nat2Z.id. apply firstn_all. Qed.

(** *** What ends the pump *)

Ltac failed_call Hrun :=
  run_cases Hrun; try discriminate Hrun; injection Hrun as <- <-;
  bool_facts; (split; [assumption|]);
  eexists []; eexists; (split; [reflexivity|reflexivity]).

Lemma failed_tap_fill mtu host sc : returns_failed (tap_fill mtu host sc).
Proof.
  intros st code ev Hrun. unfold tap_fill, on_errno in Hrun. failed_call Hrun.
Qed.

Lemma failed_tap_drain sc : returns_failed (tap_drain sc).
Proof.
  intros st code ev Hrun. unfold tap_drain, on_errno in Hrun. failed_call Hrun.
Qed.

Lemma failed_sock_fill mtu host sc : returns_failed (sock_fill mtu host sc).
Proof.
  intros st code ev Hrun. unfold sock_fill, on_errno in Hrun. failed_call Hrun.
Qed.

Lemma failed_sock_drain sc : returns_failed (sock_drain sc).
Proof.
  intros st code ev Hrun. unfold sock_drain, on_errno in Hrun. failed_call Hrun.
Qed.

Lemma failed_sock_reset : returns_failed sock_reset.
Proof.
  intros st code ev Hrun. unfold sock_reset in Hrun.
  destruct (woff st >=? wtotal st); discriminate Hrun.
Qed.

Lemma failed_skip : returns_failed (fun st => (Fall st, [])).
Proof. intros st code ev Hrun. discriminate Hrun. Qed.

Lemma ends_in_failure_after code ev1 ev :
  ends_in_failure code ev -> ends_in_failure code (ev1 ++ ev).
Proof.
  intros [Hne [ev0 [e [-> Hfail]]]]. split; [exact Hne|].
  exists (ev1 ++ ev0), e. split; [apply app_assoc|exact Hfail].
Qed.

Lemma failed_and_then (f g : step) :
  returns_failed f -> returns_failed g -> returns_failed (and_then f g).
Proof.
  intros Hf Hg st code ev Hrun. unfold and_then in Hrun.
  destruct (f st) as [[st1|st1|c] ev1] eqn:Ef.
  - destruct (g st1) as [r2 ev2] eqn:Eg. injection Hrun as -> <-.
    apply ends_in_failure_after. exact (Hg st1 code ev2 Eg).
  - discriminate Hrun.
  - injection Hrun as -> <-. exact (Hf st code ev1 Ef).
Qed.

Lemma failed_body mtu host sc tun_ready read_ready :
  returns_failed (and_then (tap_section mtu host sc tun_ready)
                           (sock_section mtu host sc read_ready)).
Proof.
  apply failed_and_then.
  - destruct tun_ready; [|apply failed_skip].
    apply (failed_and_then (tap_fill mtu host sc) (tap_drain sc));
      [apply failed_tap_fill|apply failed_tap_drain].
  - destruct read_ready; [|apply failed_skip].
    apply (failed_and_then (sock_fill mtu host sc) (and_then (sock_drain sc) sock_reset));
      [apply failed_sock_fill|].
    apply failed_and_then; [apply failed_sock_drain|apply failed_sock_reset].
Qed.

(** An iteration returns from [select], or from the last call it entered. *)
Lemma pump_iter_returns mtu host sc st code ev :
  pump_iter mtu host sc st = (Ret code, ev) ->
  (r_select sc = SelErr code /\ ev = [Select]) \/ ends_in_failure code ev.
Proof.
  intros Hrun. unfold pump_iter in Hrun.
  destruct (r_select sc) as [errno|tun_ready read_ready] eqn:Esel.
  - injection Hrun as -> <-. left. split; reflexivity.
  - destruct (and_then (tap_section mtu host sc tun_ready)
                       (sock_section mtu host sc read_ready) st)
      as [r1 ev1] eqn:Ebody.
    injection Hrun as -> <-. right.
    apply (ends_in_failure_after code [Select] ev1).
    exact (failed_body mtu host sc tun_ready read_ready st code ev1 Ebody).
Qed.

(** A loop that has returned ran some iterations to their end and returned
    from the next. *)
Lemma pump_loop_returns mtu host (env : list syscalls) :
  forall st code evs,
    pump_loop mtu host env st = (Returned code, evs) ->
    exists env0 sc env1 st1 evs0 ev,
      env = env0 ++ sc :: env1 /\
      pump_loop mtu host env0 st = (Running st1, evs0) /\
      pump_iter mtu host sc st1 = (Ret code, ev) /\
      evs = evs0 ++ ev.
Proof.
  induction env as [|sc env IH]; intros st code evs Hrun; [discriminate Hrun|].
  cbn [pump_loop] in Hrun.
  destruct (pump_iter mtu host sc st) as [r ev] eqn:Eiter.
  assert (Hnext : forall st2,
            (let (out, ev') := pump_loop mtu host env st2 in (out, ev ++ ev'))
              = (Returned code, evs) ->
            pump_iter mtu host sc st = (r, ev) ->
            (forall env0, pump_loop mtu host (sc :: env0) st
                          = let (out, ev') := pump_loop mtu host env0 st2 in
                            (out, ev ++ ev')) ->
            exists env0 sc0 env1 st1 evs0 ev0,
              sc :: env = env0 ++ sc0 :: env1 /\
              pump_loop mtu host env0 st = (Running st1, evs0) /\
              pump_iter mtu host sc0 st1 = (Ret code, ev0) /\
              evs = evs0 ++ ev0).
  { intros st2 Hrest _ Hunfold.
    destruct (pump_loop mtu host env st2) as [out ev'] eqn:Erest.
    injection Hrest as -> <-.
    destruct (IH st2 code ev' Erest)
      as [env0 [sc0 [env1 [st1 [evs0 [ev0 [Henv [Hrun0 [Hiter0 Hevs]]]]]]]]].
    exists (sc :: env0), sc0, env1, st1, (ev ++ evs0), ev0.
    split; [rewrite Henv; reflexivity|].
    split; [rewrite Hunfold, Hrun0; reflexivity|].
    split; [exact Hiter0|]. rewrite Hevs, app_assoc. reflexivity. }
  destruct r as [st2|st2|c].
  - apply (Hnext st2 Hrun Eiter). intros env0. cbn [pump_loop]. rewrite Eiter. reflexivity.
  - apply (Hnext st2 Hrun Eiter). intros env0. cbn [pump_loop]. rewrite Eiter. reflexivity.
  - injection Hrun as -> <-.
    exists [], sc, env, st, [], ev. repeat split; assumption.
Qed.

(** X9. What [pump] returns. Whenever [pump] returns, it has run some
    iterations to their end and returns from the next one, either because
    its [select] failed, with the errno of [select], or because the last call
    it entered, a [read], [sendto], [recvfrom] or [write], failed with an
    errno other than [EAGAIN], and then with that errno. *)
Theorem pump_returns_only_errno (MTU : Z) (host : endianness)
    (env : list syscalls) (code : Z) (evs : list event) :
  pump MTU host env = (Returned code, evs) ->
  exists env0 sc env1 st evs0 ev,
    env = env0 ++ sc :: env1 /\
    pump MTU host env0 = (Running st, evs0) /\
    pump_iter (MTU + hsz) host sc st = (Ret code, ev) /\
    evs = evs0 ++ ev /\
    ((r_select sc = SelErr code /\ ev = [Select]) \/ ends_in_failure code ev).
Proof.
  unfold pump. intros Hrun.
  destruct (pump_loop_returns (MTU + hsz) host env (init MTU) code evs Hrun)
    as [env0 [sc [env1 [st [evs0 [ev [Henv [Hrun0 [Hiter Hevs]]]]]]]]].
  exists env0, sc, env1, st, evs0, ev.
  repeat (split; [assumption|]).
  exact (pump_iter_returns _ _ _ _ _ _ Hiter).
Qed.

Lemma pump_returns_only_errno_witness :
  exists env0 sc env1 st evs0 ev,
    [quiet; sock_datagram ([4; 0] ++ reply4) (TxErr 5); quiet]
      = env0 ++ sc :: env1 /\
    pump 590 LittleEndian env0 = (Running st, evs0) /\
    pump_iter (590 + hsz) LittleEndian sc st = (Ret 5, ev) /\
    [Select; Read 2 592 (RxErr EAGAIN);
     Select; Recvfrom 592 (RxData ([4; 0] ++ reply4)); Write 2 4 (TxErr 5) []]
      = evs0 ++ ev /\
    ((r_select sc = SelErr 5 /\ ev = [Select]) \/ ends_in_failure 5 ev).
Proof.
  apply (pump_returns_only_errno 590 LittleEndian
           [quiet; sock_datagram ([4; 0] ++ reply4) (TxErr 5); quiet] 5
           [Select; Read 2 592 (RxErr EAGAIN);
            Select; Recvfrom 592 (RxData ([4; 0] ++ reply4)); Write 2 4 (TxErr 5) []]).
  vm_compute. reflexivity.
Defined.

(** X10. The TAP side's [continue] ends the iteration. When the TAP is
    reported ready and its side does not get through, because the read says
    [EAGAIN] or yields 0 bytes, or because [sendto] says [EAGAIN], the
    iteration ends there: no [recvfrom] and no [write] is entered, even with
    the socket reported ready, and the socket-to-TAP state is untouched. *)
Theorem tap_continue_skips_socket (mtu : Z) (host : endianness)
    (sc : syscalls) (st : state) (read_ready : bool) :
  r_select sc = SelReady true read_ready ->
  (rtotal st = 0 /\ (r_read sc = RxErr EAGAIN \/ r_read sc = RxData [])) \/
  (r_sendto sc = TxErr EAGAIN /\
   (rtotal st <> 0 \/ exists b data, r_read sc = RxData (b :: data))) ->
  exists st' ev,
    pump_iter mtu host sc st = (Cont st', Select :: ev) /\
    sock_calls ev = 0%nat /\
    wbuf st' = wbuf st /\ woff st' = woff st /\ wtotal st' = wtotal st.
Proof.
  intros Hsel Hcase.
  unfold pump_iter. rewrite Hsel.
  unfold tap_section, and_then, tap_fill, tap_drain.
  destruct Hcase as [[Hidle Hread]|[Hsend Hwhy]].
  - rewrite Hidle. change (0 =? 0) with true. cbv iota.
    destruct Hread as [-> | ->].
    + eexists. eexists. split; [reflexivity|]. repeat split.
    + eexists. eexists. split; [reflexivity|]. repeat split.
  - rewrite Hsend.
    destruct (rtotal st =? 0) eqn:Eidle.
    + apply Z.eqb_eq in Eidle.
      destruct Hwhy as [Hbusy|[b [data Hread]]]; [contradiction|].
      rewrite Hread.
      assert (Ecount : (count_of (b :: data) =? 0) = false)
        by (apply Z.eqb_neq; unfold count_of; cbn [length]; lia).
      rewrite Ecount. cbn beta iota zeta.
      eexists. eexists. split; [reflexivity|]. repeat split.
    + cbn beta iota zeta.
      eexists. eexists. split; [reflexivity|]. repeat split.
Qed.

Lemma tap_continue_skips_socket_witness :
  exists st' ev,
    pump_iter 592 LittleEndian
      (mk_syscalls (SelReady true true) (RxData []) (TxCount 0)
                   (RxData ([4; 0] ++ reply4)) (TxCount 4)) (init 590)
      = (Cont st', Select :: ev) /\
    sock_calls ev = 0%nat /\
    wbuf st' = wbuf (init 590) /\ woff st' = woff (init 590) /\
    wtotal st' = wtotal (init 590).
Proof.
  apply (tap_continue_skips_socket 592 LittleEndian
           (mk_syscalls (SelReady true true) (RxData []) (TxCount 0)
                        (RxData ([4; 0] ++ reply4)) (TxCount 4)) (init 590) true).
  - reflexivity.
  - left. split; [reflexivity|right; reflexivity].
Defined.

(** X11. Loop back. For a frame of [L] bytes, [0 < L <= MTU], on a host of
    either byte order: what the TAP-to-socket direction of one pump puts on
    the wire in one [sendto], received as a datagram by the socket-to-TAP
    direction of a pump on a host of the same byte order and taken by its
    TAP in one [write], is written to that TAP as the [L] bytes of the
    frame. *)
Theorem loopback_reproduces_frame (MTU : Z) (host : endianness)
    (data : list Z) (sc_a sc_b : syscalls) (st_a st_b : state) :
  let L := count_of data in
  let sent := wire (snd (tap_section (MTU + hsz) host sc_a true st_a)) in
  idle_tap st_a -> (2 <= length (rbuf st_a))%nat -> idle_sock st_b ->
  0 < L <= MTU -> L <= 65535 ->
  r_read sc_a = RxData data -> r_sendto sc_a = TxCount (L + hsz) ->
  r_recvfrom sc_b = RxData sent -> r_write sc_b = TxCount L ->
  sent = framed host data /\
  tap_written (snd (sock_section (MTU + hsz) host sc_b true st_b)) = data.
Proof.
  intros L sent [Hrt Hro] Hlen [Hwt Hwo] HL H16 Hread Hsend Hrecv Hwrite.
  assert (Hsent : sent = framed host data).
  { subst sent. unfold tap_section, and_then, tap_fill, tap_drain.
    rewrite Hrt, Hread. change (0 =? 0) with true. cbv iota.
    replace (count_of data =? 0) with false
      by (symmetry; apply Z.eqb_neq; subst L; lia).
    cbn beta iota zeta. cbn [rbuf roff rtotal]. rewrite Hsend.
    destruct (store_header_payload (rbuf st_a)
                (b0 (set_i host (count_of data)))
                (b1 (set_i host (count_of data))) data Hlen) as [rest Hstore].
    unfold bytes_of. change hsz with 2. rewrite Hstore.
    change (0 + (L + 2) >=? count_of data + 2) with (L + 2 >=? L + 2).
    replace (L + 2 >=? L + 2) with true
      by (symmetry; rewrite Z.geb_leb; apply Z.leb_le; lia).
    cbn [snd app wire]. rewrite app_nil_r. unfold framed, bytes_of.
    replace (L + 2)
      with (count_of ([b0 (set_i host (count_of data));
                       b1 (set_i host (count_of data))] ++ data))
      by (unfold count_of; rewrite length_app; cbn [length]; subst L;
          unfold count_of; lia).
    apply (slice_prefix (_ :: _ :: data) rest). }
  split; [exact Hsent|].
  rewrite Hsent in Hrecv.
  unfold sock_section, and_then, sock_fill, sock_drain, sock_reset.
  rewrite Hwt, Hrecv. change (0 =? 0) with true. cbv iota.
  rewrite count_of_framed.
  replace (count_of data + 2 =? 0) with false
    by (symmetry; apply Z.eqb_neq; subst L; lia).
  cbn beta iota zeta. cbn [wbuf woff wtotal].
  rewrite store_at_start.
  replace (get_i host _) with L
    by (symmetry; apply (decoded_framed host data); subst L; lia).
  rewrite Hwo.
  replace (0 <? L) with true by (symmetry; apply Z.ltb_lt; lia).
  rewrite Hwrite. cbn beta iota zeta. cbn [wbuf woff wtotal].
  rewrite (payload_of_framed host data) by (subst L; lia).
  destruct (0 + L >=? L); cbn [snd app tap_written]; rewrite !app_nil_r;
    subst L; apply firstn_count_of.
Qed.

Lemma loopback_reproduces_frame_witness :
  wire (snd (tap_section (590 + hsz) BigEndian (tap_frame payload4 (TxCount 6)) true
               (init 590)))
    = framed BigEndian payload4 /\
  tap_written
    (snd (sock_section (590 + hsz) BigEndian
            (sock_datagram [0; 4; 222; 173; 190; 239] (TxCount 4)) true (init 590)))
    = payload4.
Proof.
  apply (loopback_reproduces_frame 590 BigEndian payload4
           (tap_frame payload4 (TxCount 6))
           (sock_datagram [0; 4; 222; 173; 190; 239] (TxCount 4))
           (init 590) (init 590)).
  - split; reflexivity.
  - vm_compute. lia.
  - split; reflexivity.
  - cbn. lia.
  - cbn. lia.
  - reflexivity.
  - reflexivity.
  - vm_compute. reflexivity.
  - reflexivity.
Defined.

End LoopFacts.

(** ** The pump and its buffers *)

Section BufferFacts.
Import Codec Mem Pump.

Lemma length_store_fit (b : list Z) (off : Z) (d : list Z) :
  0 <= off -> off + count_of d <= count_of b ->
  length (store b off d) = length b.
Proof.
  unfold count_of, store. intros Ho H.
  rewrite !length_app, length_firstn, length_skipn. lia.
Qed.

Lemma keeps_safe_and_then MTU host (f g : step) :
  keeps_safe MTU host f -> keeps_safe MTU host g ->
  keeps_safe MTU host (and_then f g).
Proof.
  intros Hf Hg st r ev Hsafe Hrun Henv.
  unfold and_then in Hrun.
  destruct (f st) as [[st1|st1|code] ev1] eqn:Ef.
  - destruct (g st1) as [r2 ev2] eqn:Eg.
    injection Hrun as <- <-.
    apply Forall_app in Henv as [Henv1 Henv2].
    destruct (Hf st (Fall st1) ev1 Hsafe Ef Henv1) as [Hin1 Hst1].
    destruct (Hg st1 r2 ev2 (Hst1 st1 eq_refl) Eg Henv2) as [Hin2 Hst2].
    split; [apply Forall_app; split; assumption|exact Hst2].
  - injection Hrun as <- <-. exact (Hf st _ _ Hsafe Ef Henv).
  - injection Hrun as <- <-. exact (Hf st _ _ Hsafe Ef Henv).
Qed.

Lemma keeps_safe_skip MTU host : keeps_safe MTU host (fun st => (Fall st, [])).
Proof.
  intros st r ev Hsafe Hrun _. injection Hrun as <- <-.
  split; [constructor|]. intros st' Hst. injection Hst as <-. exact Hsafe.
Qed.

Ltac flow_state Hst :=
  try (unfold on_errno in Hst;
       match type of Hst with
       | context [if ?c then _ else _] => destruct c
       end);
  try discriminate Hst; injection Hst as <-.

Lemma keeps_safe_tap_fill MTU host sc :
  keeps_safe MTU host (tap_fill (MTU + hsz) host sc).
Proof.
  intros st r ev Hsafe Hrun Henv.
  pose proof Hsafe as (HM & [Hrb Hwb] & [Hro Hrt] & Hw).
  unfold tap_fill in Hrun.
  destruct (rtotal st =? 0) eqn:Eidle;
    [|injection Hrun as <- <-; split; [constructor|];
      intros st' Hst; injection Hst as <-; exact Hsafe].
  destruct (r_read sc) as [errno|data] eqn:Eread.
  - injection Hrun as <- <-. split; [repeat constructor|].
    intros st' Hst. flow_state Hst. exact Hsafe.
  - assert (Hfit : count_of data <= MTU).
    { destruct (count_of data =? 0); injection Hrun as _ <-;
        apply Forall_inv in Henv; destruct Henv as [Hfit _]; exact Hfit. }
    assert (Hin : in_buffer MTU (Read hsz (MTU + hsz) (RxData data)))
      by (cbn [in_buffer]; unfold hsz; lia).
    destruct (count_of data =? 0) eqn:Ecount; injection Hrun as <- <-;
      (split; [constructor; [exact Hin|constructor]|]).
    + intros st' Hst. injection Hst as <-. exact Hsafe.
    + intros st' Hst. injection Hst as <-.
      unfold safe, sized. cbn [rbuf wbuf roff rtotal woff wtotal].
      assert (Hlen1 : length (store (rbuf st) hsz data) = length (rbuf st)).
      { apply length_store_fit; unfold hsz, count_of in *; lia. }
      assert (Hlen2 : length (store (store (rbuf st) hsz data) 0
                                (bytes_of (set_i host (count_of data))))
                      = length (rbuf st)).
      { rewrite <- Hlen1. apply length_store_fit; [lia|].
        unfold bytes_of, count_of in *. cbn [length]. rewrite Hlen1.
        unfold hsz in *. lia. }
      rewrite Hlen2. unfold count_of, hsz in *. repeat split; try assumption; lia.
Qed.

Lemma keeps_safe_tap_drain MTU host sc : keeps_safe MTU host (tap_drain sc).
Proof.
  intros st r ev Hsafe Hrun Henv.
  pose proof Hsafe as (HM & Hsz & [Hro Hrt] & Hw).
  unfold tap_drain in Hrun.
  assert (Hin : forall res sent,
            in_buffer MTU (Sendto (roff st) (rtotal st - roff st) res sent))
    by (intros; cbn [in_buffer]; lia).
  destruct (r_sendto sc) as [errno|n] eqn:Esend.
  - injection Hrun as <- <-. split; [constructor; [apply Hin|constructor]|].
    intros st' Hst. flow_state Hst. exact Hsafe.
  - assert (Hn : 0 <= n <= rtotal st - roff st).
    { destruct (roff st + n >=? rtotal st); injection Hrun as _ <-;
        apply Forall_inv in Henv; destruct Henv as [Hn _]; exact Hn. }
    destruct (roff st + n >=? rtotal st) eqn:Edone;
      rewrite Z.geb_leb in Edone;
      [apply Z.leb_le in Edone | apply Z.leb_gt in Edone];
      injection Hrun as <- <-;
      (split; [constructor; [apply Hin|constructor]|]);
      intros st' Hst; injection Hst as <-;
      unfold safe, sized in *; cbn [rbuf wbuf roff rtotal woff wtotal];
      unfold hsz in *; repeat split; try tauto; lia.
Qed.

Lemma keeps_safe_sock_fill MTU host sc :
  keeps_safe MTU host (sock_fill (MTU + hsz) host sc).
Proof.
  intros st r ev Hsafe Hrun Henv.
  pose proof Hsafe as (HM & [Hrb Hwb] & Hr & [Hwo Hwt]).
  unfold sock_fill in Hrun.
  destruct (wtotal st =? 0) eqn:Eidle;
    [|injection Hrun as <- <-; split; [constructor|];
      intros st' Hst; injection Hst as <-; exact Hsafe].
  apply Z.eqb_eq in Eidle.
  destruct (r_recvfrom sc) as [errno|data] eqn:Erecv.
  - injection Hrun as <- <-. split; [repeat constructor|].
    intros st' Hst. flow_state Hst. exact Hsafe.
  - assert (Hboth : well_formed MTU host (Recvfrom (MTU + hsz) (RxData data))).
    { destruct (count_of data =? 0); injection Hrun as _ <-;
        apply Forall_inv in Henv; exact Henv. }
    destruct Hboth as [Hfit Hframe]. cbn [env_ok] in Hfit.
    assert (Hin : in_buffer MTU (Recvfrom (MTU + hsz) (RxData data)))
      by (cbn [in_buffer]; exact Hfit).
    destruct (count_of data =? 0) eqn:Ecount; injection Hrun as <- <-;
      (split; [constructor; [exact Hin|constructor]|]).
    + intros st' Hst. injection Hst as <-. exact Hsafe.
    + intros st' Hst. injection Hst as <-.
      apply Z.eqb_neq in Ecount.
      destruct data as [|b data]; [contradiction Ecount; reflexivity|].
      cbn [ingress_ok] in Hframe. destruct Hframe as [Hcount Hdec].
      assert (Hlen1 : length (store (wbuf st) 0 (b :: data)) = length (wbuf st)).
      { apply length_store_fit; [lia|]. unfold count_of in *. rewrite Hwb.
        unfold hsz in *. lia. }
      rewrite store_at_start.
      assert (Hd : get_i host
                     (mk_b_u16 (nth 0 ((b :: data) ++ skipn (length (b :: data)) (wbuf st)) 0)
                               (nth 1 ((b :: data) ++ skipn (length (b :: data)) (wbuf st)) 0))
                   = count_of (b :: data) - 2).
      { rewrite <- Hdec. unfold decoded.
        destruct data as [|y data];
          [unfold count_of in Hcount; cbn [length] in Hcount; lia|reflexivity]. }
      rewrite Hd. rewrite store_at_start in Hlen1.
      unfold safe, sized. cbn [rbuf wbuf roff rtotal woff wtotal].
      rewrite Hlen1. unfold hsz in *. repeat split; try tauto; lia.
Qed.

Lemma keeps_safe_sock_drain MTU host sc : keeps_safe MTU host (sock_drain sc).
Proof.
  intros st r ev Hsafe Hrun Henv.
  pose proof Hsafe as (HM & Hsz & Hr & [Hwo Hwt]).
  unfold sock_drain in Hrun.
  destruct (woff st <? wtotal st) eqn:Ebusy;
    [|injection Hrun as <- <-; split; [constructor|];
      intros st' Hst; injection Hst as <-; exact Hsafe].
  assert (Hin : forall res sent,
            in_buffer MTU (Write (woff st + hsz) (wtotal st - woff st) res sent))
    by (intros; cbn [in_buffer]; unfold hsz; lia).
  destruct (r_write sc) as [errno|n] eqn:Ewrite.
  - injection Hrun as <- <-. split; [constructor; [apply Hin|constructor]|].
    intros st' Hst. flow_state Hst. exact Hsafe.
  - injection Hrun as <- <-.
    apply Forall_inv in Henv as Hn. destruct Hn as [Hn _]. cbn [env_ok tx_ok] in Hn.
    split; [constructor; [apply Hin|constructor]|].
    intros st' Hst. injection Hst as <-.
    unfold safe, sized in *. cbn [rbuf wbuf roff rtotal woff wtotal].
    repeat split; try tauto; lia.
Qed.

Lemma keeps_safe_sock_reset MTU host : keeps_safe MTU host sock_reset.
Proof.
  intros st r ev Hsafe Hrun Henv.
  pose proof Hsafe as (HM & Hsz & Hr & [Hwo Hwt]).
  unfold sock_reset in Hrun.
  destruct (woff st >=? wtotal st); injection Hrun as <- <-;
    (split; [constructor|]); intros st' Hst; injection Hst as <-;
    [|exact Hsafe].
  unfold safe, sized in *. cbn [rbuf wbuf roff rtotal woff wtotal].
  repeat split; try tauto; lia.
Qed.

Lemma keeps_safe_pump_iter MTU host sc :
  keeps_safe MTU host (pump_iter (MTU + hsz) host sc).
Proof.
  intros st r ev Hsafe Hrun Henv. unfold pump_iter in Hrun.
  destruct (r_select sc) as [errno|tun_ready read_ready].
  - injection Hrun as <- <-. split; [repeat constructor|]. intros st' Hst.
    discriminate Hst.
  - destruct ((tap_section (MTU + hsz) host sc tun_ready;;
               sock_section (MTU + hsz) host sc read_ready) st)
      as [r1 ev1] eqn:Ebody.
    injection Hrun as <- <-.
    apply Forall_inv_tail in Henv.
    assert (Hbody : keeps_safe MTU host
              (tap_section (MTU + hsz) host sc tun_ready;;
               sock_section (MTU + hsz) host sc read_ready)).
    { apply keeps_safe_and_then.
      - unfold tap_section. destruct tun_ready; [|apply keeps_safe_skip].
        apply (keeps_safe_and_then MTU host (tap_fill (MTU + hsz) host sc) (tap_drain sc)).
        + apply keeps_safe_tap_fill.
        + apply keeps_safe_tap_drain.
      - unfold sock_section. destruct read_ready; [|apply keeps_safe_skip].
        apply (keeps_safe_and_then MTU host (sock_fill (MTU + hsz) host sc)
                 (and_then (sock_drain sc) sock_reset)).
        + apply keeps_safe_sock_fill.
        + apply keeps_safe_and_then;
            [apply keeps_safe_sock_drain | apply keeps_safe_sock_reset]. }
    destruct (Hbody st r1 ev1 Hsafe Ebody Henv) as [Hin Hst].
    split; [constructor; [exact I|exact Hin]|exact Hst].
Qed.

Lemma pump_loop_safe MTU host env :
  forall st out evs,
    safe MTU st ->
    pump_loop (MTU + hsz) host env st = (out, evs) ->
    Forall (well_formed MTU host) evs ->
    Forall (in_buffer MTU) evs /\
    forall st', out = Running st' -> safe MTU st'.
Proof.
  induction env as [|sc env IH]; intros st out evs Hsafe Hrun Henv.
  - injection Hrun as <- <-. split; [constructor|].
    intros st' Hst. injection Hst as <-. exact Hsafe.
  - cbn [pump_loop] in Hrun.
    destruct (pump_iter (MTU + hsz) host sc st) as [r ev] eqn:Eiter.
    assert (Hnext : forall st1, state_of r = Some st1 ->
              (let (out, ev') := pump_loop (MTU + hsz) host env st1 in (out, ev ++ ev'))
                = (out, evs) ->
              Forall (in_buffer MTU) evs /\
              forall st', out = Running st' -> safe MTU st').
    { intros st1 Hst Hrest.
      destruct (pump_loop (MTU + hsz) host env st1) as [out' ev'] eqn:Erest.
      injection Hrest as -> <-.
      apply Forall_app in Henv as [Henv1 Henv2].
      destruct (keeps_safe_pump_iter MTU host sc st r ev Hsafe Eiter Henv1)
        as [Hin1 Hst1].
      destruct (IH st1 out ev' (Hst1 st1 Hst) Erest Henv2) as [Hin2 Hst2].
      split; [apply Forall_app; split; assumption|exact Hst2]. }
    destruct r as [st1|st1|code].
    + apply (Hnext st1 eq_refl Hrun).
    + apply (Hnext st1 eq_refl Hrun).
    + injection Hrun as <- <-.
      destruct (keeps_safe_pump_iter MTU host sc st _ ev Hsafe Eiter Henv) as [Hin _].
      split; [exact Hin|]. intros st' Hst. discriminate Hst.
Qed.

Lemma init_safe MTU : 0 <= MTU -> safe MTU (init MTU).
Proof.
  intros HM. unfold safe, sized, init. cbn [rbuf wbuf roff rtotal woff wtotal].
  rewrite repeat_length. unfold hsz. repeat split; lia.
Qed.

(** X12. The pump stays inside its buffers on well-formed input. When the
    TAP delivers frames of at most [MTU] bytes, every datagram announces in
    its two length bytes the bytes that follow them, and no transfer exceeds
    the length asked for, then over every run of [pump] each store into a
    staging buffer and each range handed to [sendto] or [write] lies inside
    the [MTU + 2] bytes of the buffer, and the buffers keep their size. *)
Theorem pump_stays_in_buffers (MTU : Z) (host : endianness)
    (env : list syscalls) (out : outcome) (evs : list event) :
  0 <= MTU ->
  pump MTU host env = (out, evs) ->
  Forall (well_formed MTU host) evs ->
  Forall (in_buffer MTU) evs /\
  forall st', out = Running st' -> safe MTU st'.
Proof.
  intros HM Hrun Henv. unfold pump in Hrun.
  exact (pump_loop_safe MTU host env (init MTU) out evs (init_safe MTU HM) Hrun Henv).
Qed.

Lemma pump_stays_in_buffers_witness :
  Forall (in_buffer 590)
    [Select; Read 2 592 (RxData payload4); Sendto 0 6 (TxCount 6) ([4; 0] ++ payload4)] /\
  forall st', Running (sending ([4; 0] ++ payload4) 0 0) = Running st' -> safe 590 st'.
Proof.
  apply (pump_stays_in_buffers 590 LittleEndian [tap_frame payload4 (TxCount 6)]).
  - lia.
  - vm_compute. reflexivity.
  - repeat (apply Forall_cons; [split; cbn; try lia; exact I|]). apply Forall_nil.
Defined.

End BufferFacts.

(** ** Prefix lengths and interface aliases *)

Section NetFacts.
Import Mem Net.

Lemma strchr_absent (s : list Z) (c : Z) : ~ In c s -> strchr s c = None.
Proof.
  induction s as [|x s IH]; intros Hn; [reflexivity|].
  cbn [strchr]. destruct (Z.eqb_spec x c) as [->|Hne].
  - contradiction Hn. left. reflexivity.
  - apply IH. intros Hin. apply Hn. right. exact Hin.
Qed.

Lemma strchr_first (s rest : list Z) (c : Z) :
  ~ In c s -> strchr (s ++ c :: rest) c = Some (c :: rest).
Proof.
  induction s as [|x s IH]; intros Hn; cbn [app strchr].
  - rewrite Z.eqb_refl. reflexivity.
  - destruct (Z.eqb_spec x c) as [->|Hne].
    + contradiction Hn. left. reflexivity.
    + apply IH. intros Hin. apply Hn. right. exact Hin.
Qed.

Lemma digits_value_stop (acc : Z) (rest : list Z) :
  no_digit_ahead rest -> digits_value acc rest = acc.
Proof.
  destruct rest as [|x rest]; [reflexivity|].
  cbn [no_digit_ahead digits_value]. intros ->. reflexivity.
Qed.

Lemma digits_value_uint (d : Decimal.uint) :
  forall (acc : nat) (rest : list Z),
    no_digit_ahead rest ->
    digits_value (Z.of_nat acc) (uint_chars d ++ rest)
      = Z.of_nat (Nat.of_uint_acc d acc).
Proof.
  induction d; intros acc rest Hrest; cbn [uint_chars app Nat.of_uint_acc];
    [apply digits_value_stop; exact Hrest|..];
    cbn [digits_value]; change (isdigit _) with true; cbv iota;
    rewrite <- (IHd _ rest Hrest); f_equal;
    rewrite Nat.tail_mul_spec; lia.
Qed.

Lemma digits_value_decimal (n : nat) (rest : list Z) :
  no_digit_ahead rest ->
  digits_value 0 (decimal n ++ rest) = Z.of_nat n.
Proof.
  intros Hrest. unfold decimal.
  change 0 with (Z.of_nat 0).
  rewrite (digits_value_uint (Nat.to_uint n) 0 rest Hrest).
  change (Nat.of_uint_acc (Nat.to_uint n) 0) with (Nat.of_uint (Nat.to_uint n)).
  rewrite DecimalNat.Unsigned.of_to. reflexivity.
Qed.

Lemma to_int_small (x : Z) : - 2 ^ 31 <= x < 2 ^ 31 -> to_int x = x.
Proof.
  intros H. unfold to_int. rewrite Z.mod_small by lia. lia.
Qed.

Lemma decimal_nonempty (n : nat) : decimal n <> [].
Proof.
  unfold decimal. intros H.
  destruct (Nat.to_uint n) eqn:E; try discriminate H.
  pose proof (DecimalNat.Unsigned.of_to n) as Hn. rewrite E in Hn.
  subst n. cbn in E. discriminate E.
Qed.

Lemma uint_chars_head (d : Decimal.uint) (x : Z) (ds : list Z) :
  uint_chars d = x :: ds -> 48 <= x <= 57.
Proof. destruct d; cbn [uint_chars]; intros H; inversion H; lia. Qed.

Lemma atol_decimal (n : nat) (rest : list Z) :
  no_digit_ahead rest -> Z.of_nat n <= LONG_MAX ->
  atol (decimal n ++ rest) = Z.of_nat n.
Proof.
  intros Hrest Hmax. unfold atol.
  pose proof (digits_value_decimal n rest Hrest) as Hval.
  destruct (decimal n) as [|x ds] eqn:Edec;
    [exfalso; exact (decimal_nonempty n Edec)|].
  apply uint_chars_head in Edec.
  assert (Hsp : isspace x = false).
  { unfold isspace. apply orb_false_intro.
    - apply Z.eqb_neq. lia.
    - apply andb_false_intro2. apply Z.leb_gt. lia. }
  assert (Hm : (x =? minus) = false) by (apply Z.eqb_neq; unfold minus; lia).
  assert (Hp : (x =? plus) = false) by (apply Z.eqb_neq; unfold plus; lia).
  cbn [app skip_spaces] in *. rewrite Hsp, Hm, Hp, Hval.
  unfold LONG_MIN, LONG_MAX in *.
  rewrite Z.min_r by lia. rewrite Z.max_r by lia. reflexivity.
Qed.

(** X13. A prefix length that is written is read back. For an address text
    without a slash, a number [n] below 2^31 and any text behind it that does
    not start with a digit, [parse_prefix_len] of the address, a slash, the
    decimal digits of [n] and that text is [n]; the value is taken as it is,
    also when it exceeds 128. [net_if_addr6] hands [n] on as the prefix
    length; [net_route6] stores it in 16 bits and hands on [n mod 65536],
    which is [n] as long as [n] is below 65536. *)
Theorem prefix_len_roundtrip (addr rest : list Z) (n : nat) :
  ~ In slash addr -> no_digit_ahead rest -> Z.of_nat n < 2 ^ 31 ->
  parse_prefix_len (addr ++ [slash] ++ decimal n ++ rest) = Z.of_nat n /\
  prefix_len_or_128 (addr ++ [slash] ++ decimal n ++ rest) = Z.of_nat n /\
  if_addr6_prefixlen (addr ++ [slash] ++ decimal n ++ rest) = Z.of_nat n /\
  route6_dst_len (addr ++ [slash] ++ decimal n ++ rest) = Z.of_nat n mod 65536 /\
  (Z.of_nat n < 65536 ->
   route6_dst_len (addr ++ [slash] ++ decimal n ++ rest) = Z.of_nat n).
Proof.
  intros Haddr Hrest Hn.
  assert (Hp : parse_prefix_len (addr ++ [slash] ++ decimal n ++ rest) = Z.of_nat n).
  { unfold parse_prefix_len. cbn [app].
    rewrite strchr_first by exact Haddr. cbn [tl].
    rewrite atol_decimal; [|exact Hrest|unfold LONG_MAX; lia].
    apply to_int_small. lia. }
  assert (Hpl : prefix_len_or_128 (addr ++ [slash] ++ decimal n ++ rest) = Z.of_nat n).
  { unfold prefix_len_or_128. rewrite Hp.
    replace (Z.of_nat n <? 0) with false by (symmetry; apply Z.ltb_ge; lia).
    reflexivity. }
  split; [exact Hp|]. split; [exact Hpl|].
  unfold if_addr6_prefixlen, route6_dst_len. rewrite Hpl.
  split; [apply Z.mod_small; lia|].
  split; [reflexivity|].
  intros Hsmall. apply Z.mod_small. lia.
Qed.

Lemma prefix_len_roundtrip_witness :
  parse_prefix_len ([102; 101; 56; 48; 58; 58; 49] ++ [slash] ++ decimal 300 ++ [32; 120])
    = Z.of_nat 300 /\
  prefix_len_or_128 ([102; 101; 56; 48; 58; 58; 49] ++ [slash] ++ decimal 300 ++ [32; 120])
    = Z.of_nat 300 /\
  if_addr6_prefixlen ([102; 101; 56; 48; 58; 58; 49] ++ [slash] ++ decimal 300 ++ [32; 120])
    = Z.of_nat 300 /\
  route6_dst_len ([102; 101; 56; 48; 58; 58; 49] ++ [slash] ++ decimal 300 ++ [32; 120])
    = Z.of_nat 300 mod 65536 /\
  (Z.of_nat 300 < 65536 ->
   route6_dst_len ([102; 101; 56; 48; 58; 58; 49] ++ [slash] ++ decimal 300 ++ [32; 120])
     = Z.of_nat 300).
Proof.
  apply (prefix_len_roundtrip [102; 101; 56; 48; 58; 58; 49] [32; 120] 300).
  - cbn. intros H. repeat (destruct H as [H|H]; [discriminate H|]). exact H.
  - reflexivity.
  - cbn. lia.
Defined.

(** X14. No number, no default. For every address text without a slash
    [parse_prefix_len] returns -1, and [net_if_addr6] and [net_route6] then
    use 128; but with a slash at its end and nothing behind it the same text
    gets the prefix length 0, not 128. *)
Theorem prefix_len_missing (addr : list Z) :
  ~ In slash addr ->
  parse_prefix_len addr = -1 /\
  prefix_len_or_128 addr = 128 /\
  prefix_len_or_128 (addr ++ [slash]) = 0.
Proof.
  intros Hn.
  assert (Hno : parse_prefix_len addr = -1).
  { unfold parse_prefix_len. rewrite strchr_absent by exact Hn. reflexivity. }
  split; [exact Hno|]. split.
  - unfold prefix_len_or_128. rewrite Hno. reflexivity.
  - unfold prefix_len_or_128, parse_prefix_len.
    rewrite strchr_first by exact Hn. reflexivity.
Qed.

Lemma prefix_len_missing_witness :
  parse_prefix_len [102; 101; 56; 48; 58; 58; 49] = -1 /\
  prefix_len_or_128 [102; 101; 56; 48; 58; 58; 49] = 128 /\
  prefix_len_or_128 ([102; 101; 56; 48; 58; 58; 49] ++ [slash]) = 0.
Proof.
  apply (prefix_len_missing [102; 101; 56; 48; 58; 58; 49]).
  cbn. intros H. repeat (destruct H as [H|H]; [discriminate H|]). exact H.
Defined.

(** *** Aliases *)

Lemma uint_chars_inj (d d' : Decimal.uint) :
  uint_chars d = uint_chars d' -> d = d'.
Proof.
  revert d'. induction d; intros d' H; destruct d'; cbn [uint_chars] in H;
    try discriminate H; try reflexivity;
    injection H as H; f_equal; apply IHd; exact H.
Qed.

Lemma decimal_inj (n n' : nat) : decimal n = decimal n' -> n = n'.
Proof.
  unfold decimal. intros H.
  apply DecimalNat.Unsigned.to_uint_inj, uint_chars_inj, H.
Qed.

Lemma decimal_three_digits (n : nat) :
  (n < 1000)%nat -> (length (decimal n) <= 3)%nat.
Proof.
  intros Hn.
  assert (Hall : forallb (fun k => Nat.leb (length (decimal k)) 3) (seq 0 1000) = true)
    by (vm_compute; reflexivity).
  rewrite forallb_forall in Hall.
  apply Nat.leb_le, Hall, in_seq. lia.
Qed.

(** X15. The guard of [net_if_alias]. A name of 11 characters or more is
    refused with -1 and neither the counter nor [ifr_name] changes. A
    shorter name is accepted with 0: the counter goes up by one (modulo
    2^32), and [ifr_name] gets at most 14 characters, which leaves room for
    the terminating NUL, and they start with the name and a colon. *)
Theorem net_if_alias_guard (s : alias_state) (name : list Z) :
  (11 <= count_of name -> net_if_alias s name = (-1, s)) /\
  (count_of name < 11 ->
   fst (net_if_alias s name) = 0 /\
   alias_counter (snd (net_if_alias s name)) = (alias_counter s + 1) mod 2 ^ 32 /\
   count_of (ifr_name (snd (net_if_alias s name))) <= 14 /\
   firstn (length name + 1) (ifr_name (snd (net_if_alias s name))) = name ++ [colon]).
Proof.
  unfold net_if_alias, IFNAMSIZ. change (16 - 5) with 11.
  split; intros Hlen.
  - replace (count_of name >=? 11) with true
      by (symmetry; rewrite Z.geb_leb; apply Z.leb_le; exact Hlen).
    reflexivity.
  - replace (count_of name >=? 11) with false
      by (symmetry; rewrite Z.geb_leb; apply Z.leb_gt; exact Hlen).
    cbn [fst snd alias_counter ifr_name].
    split; [reflexivity|]. split; [reflexivity|].
    unfold snprintf_s_colon_d. change (Z.to_nat (16 - 1 - 1)) with 14%nat.
    split.
    + unfold count_of. rewrite length_firstn. lia.
    + rewrite firstn_firstn.
      replace (Nat.min (length name + 1) 14) with (length name + 1)%nat
        by (unfold count_of in Hlen; lia).
      rewrite app_assoc, firstn_app.
      replace (length name + 1 - length (name ++ [colon]))%nat with 0%nat
        by (rewrite length_app; cbn [length]; lia).
      cbn [firstn]. rewrite app_nil_r.
      replace (length name + 1)%nat with (length (name ++ [colon]))
        by (rewrite length_app; reflexivity).
      apply firstn_all.
Qed.

(** X16. Aliases do not repeat for the first 999. For a name of at most 10
    characters, two calls of [net_if_alias] made at different values of the
    counter, both below 999, leave different texts in [ifr_name]: the name,
    a colon and the new value of the counter in decimal, untruncated. *)
Theorem aliases_distinct (s1 s2 : alias_state) (name : list Z) :
  count_of name < 11 ->
  0 <= alias_counter s1 < 999 -> 0 <= alias_counter s2 < 999 ->
  alias_counter s1 <> alias_counter s2 ->
  ifr_name (snd (net_if_alias s1 name))
    = name ++ [colon] ++ decimal (Z.to_nat (alias_counter s1 + 1)) /\
  ifr_name (snd (net_if_alias s1 name)) <> ifr_name (snd (net_if_alias s2 name)).
Proof.
  intros Hlen H1 H2 Hne.
  assert (Halias : forall s, 0 <= alias_counter s < 999 ->
            ifr_name (snd (net_if_alias s name))
              = name ++ [colon] ++ decimal (Z.to_nat (alias_counter s + 1))).
  { intros s Hs. unfold net_if_alias, IFNAMSIZ. change (16 - 5) with 11.
    replace (count_of name >=? 11) with false
      by (symmetry; rewrite Z.geb_leb; apply Z.leb_gt; exact Hlen).
    cbn [snd ifr_name]. unfold snprintf_s_colon_d.
    change (Z.to_nat (16 - 1 - 1)) with 14%nat.
    rewrite Z.mod_small by lia. rewrite to_int_small by lia.
    unfold fmt_d.
    replace (alias_counter s + 1 <? 0) with false by (symmetry; apply Z.ltb_ge; lia).
    apply firstn_all2.
    rewrite !length_app. cbn [length].
    pose proof (decimal_three_digits (Z.to_nat (alias_counter s + 1)) ltac:(lia)).
    unfold count_of in Hlen. lia. }
  split; [exact (Halias s1 H1)|].
  rewrite (Halias s1 H1), (Halias s2 H2). intros Heq.
  apply app_inv_head in Heq. cbn [app] in Heq. injection Heq as Heq.
  apply decimal_inj in Heq. lia.
Qed.

Lemma aliases_distinct_witness :
  ifr_name (snd (net_if_alias (mk_alias_state 9 []) [101; 116; 104; 48]))
    = [101; 116; 104; 48] ++ [colon]
        ++ decimal (Z.to_nat (alias_counter (mk_alias_state 9 []) + 1)) /\
  ifr_name (snd (net_if_alias (mk_alias_state 9 []) [101; 116; 104; 48]))
    <> ifr_name (snd (net_if_alias (mk_alias_state 99 []) [101; 116; 104; 48])).
Proof.
  apply (aliases_distinct (mk_alias_state 9 []) (mk_alias_state 99 [])
           [101; 116; 104; 48]).
  - cbn. lia.
  - cbn. lia.
  - cbn. lia.
  - cbn. lia.
Defined.

End NetFacts.

(** ** Set-up and [main] *)

Section SetupFacts.
Import Codec Pump Setup.

Ltac plain_condition c :=
  lazymatch c with
  | context [if _ then _ else _] => fail
  | context [match _ with _ => _ end] => fail
  | _ => idtac
  end.

Ltac split_conditions :=
  repeat (cbn beta iota zeta;
          match goal with
          | |- context [if ?c then _ else _] => plain_condition c; destruct c eqn:?
          end).

Ltac unfold_setup :=
  unfold run, main, die, close_if_open, net_create_unix_socket,
    net_connect_unix_socket, net_create_tap, bind, ask, tell, ret.

Lemma close_one_head (fd : Z) (open : list Z) : close_one fd (fd :: open) = open.
Proof. cbn [close_one]. rewrite Z.eqb_refl. reflexivity. Qed.

(** X17. The three creators keep or close. Whatever the system calls
    return, [net_create_unix_socket], [net_connect_unix_socket] and
    [net_create_tap] each leave open exactly the descriptor they return
    when they return 0 or more, and none when they return a negative
    value: a descriptor obtained is closed on every failure that is
    reported. *)
Theorem creators_keep_or_close (conn : bool) (ans : answers) (k : nat) :
  (let '(r, calls, _) := net_create_unix_socket conn ans k in
   still_open [] calls = if r <? 0 then [] else [r]) /\
  (let '(r, calls, _) := net_connect_unix_socket ans k in
   still_open [] calls = if r <? 0 then [] else [r]) /\
  (let '(r, calls, _) := net_create_tap ans k in
   still_open [] calls = if r <? 0 then [] else [r]).
Proof.
  unfold_setup.
  repeat apply conj; split_conditions; cbn [app still_open];
    repeat match goal with
           | H : ?c = _ |- context [if ?c then _ else _] => rewrite H
           end;
    cbn [still_open]; rewrite ?close_one_head; try reflexivity;
    try discriminate.
Qed.

Ltac posix_facts :=
  repeat match goal with
         | H : Forall posix (_ :: _) |- _ =>
             apply Forall_cons_iff in H; destruct H
         | H : Forall posix (_ ++ _) |- _ =>
             apply Forall_app in H; destruct H
         | H : Forall posix [] |- _ => clear H
         end;
  cbn [posix] in *.

Ltac bool_to_prop :=
  repeat match goal with
         | H : (_ =? _) = true |- _ => apply Z.eqb_eq in H
         | H : (_ =? _) = false |- _ => apply Z.eqb_neq in H
         | H : (_ <? _) = true |- _ => apply Z.ltb_lt in H
         | H : (_ <? _) = false |- _ => apply Z.ltb_ge in H
         | H : (_ >? _) = _ |- _ => rewrite Z.gtb_ltb in H
         end.

Lemma close_one_other (fd x : Z) (open : list Z) :
  close_one fd (x :: fd :: open) = if x =? fd then fd :: open else x :: open.
Proof.
  cbn [close_one]. destruct (x =? fd); [reflexivity|].
  rewrite Z.eqb_refl. reflexivity.
Qed.

Lemma still_open_app (open : list Z) (c1 c2 : list call) :
  still_open open (c1 ++ c2) = still_open (still_open open c1) c2.
Proof.
  revert open. induction c1 as [|c c1 IH]; intros open; [reflexivity|].
  destruct c; cbn [app still_open]; apply IH.
Qed.

Ltac creator_cases :=
  unfold_setup; split_conditions; cbn [app]; intros Hposix open;
  posix_facts; bool_to_prop; cbn [still_open];
  repeat match goal with
         | |- context [if ?c then _ else _] => destruct c eqn:?
         end;
  bool_to_prop; rewrite ?close_one_head;
  first [left; split; [lia|reflexivity] | right; split; [lia|reflexivity] | lia].

Lemma unix_socket_outcome (conn : bool) (ans : answers) (k : nat) :
  let '(r, calls, _) := net_create_unix_socket conn ans k in
  Forall posix calls -> kept_or_closed r calls.
Proof. creator_cases. Qed.

Lemma connect_outcome (ans : answers) (k : nat) :
  let '(r, calls, _) := net_connect_unix_socket ans k in
  Forall posix calls -> kept_or_closed r calls.
Proof. creator_cases. Qed.

Lemma tap_outcome (ans : answers) (k : nat) :
  let '(r, calls, _) := net_create_tap ans k in
  Forall posix calls -> kept_or_closed r calls.
Proof. creator_cases. Qed.

Lemma die_calls (g : globals) (ans : answers) (k : nat) :
  die g ans k
    = (Exited 1,
       (if g_net_tap_fd g >? 0 then [Close (g_net_tap_fd g)] else [])
         ++ (if g_net_read_fd g >? 0 then [Close (g_net_read_fd g)] else [])
         ++ (if g_net_write_fd g >? 0 then [Close (g_net_write_fd g)] else []),
       k).
Proof.
  unfold die, close_if_open, bind, tell, ret.
  destruct (g_net_tap_fd g >? 0), (g_net_read_fd g >? 0), (g_net_write_fd g >? 0);
    reflexivity.
Qed.

Lemma dies_run (g : globals) (ans : answers) (k : nat) :
  bind (die g) (fun e => ret (e, @nil event)) ans k
    = ((Exited 1, []),
       (if g_net_tap_fd g >? 0 then [Close (g_net_tap_fd g)] else [])
         ++ (if g_net_read_fd g >? 0 then [Close (g_net_read_fd g)] else [])
         ++ (if g_net_write_fd g >? 0 then [Close (g_net_write_fd g)] else []),
       k).
Proof. unfold bind, ret. rewrite die_calls, app_nil_r. reflexivity. Qed.

Lemma gtb_pos (x : Z) : 0 < x -> (x >? 0) = true.
Proof. intros H. rewrite Z.gtb_ltb. apply Z.ltb_lt. exact H. Qed.

(** X18. [main] leaves nothing open when it dies. Whenever [main] ends
    with status 1, every descriptor that the set-up obtained has been
    closed, by the creator that failed or by [die], and [pump] was not
    entered; this for all results of the system calls in which a failure is
    -1 and a descriptor is above 0. *)
Theorem main_dies_clean (argc mtu : Z) (host : endianness)
    (env : list syscalls) (ans : answers) :
  Forall posix (snd (run (main argc mtu host env) ans)) ->
  fst (fst (run (main argc mtu host env) ans)) = Exited 1 ->
  still_open [] (snd (run (main argc mtu host env) ans)) = [] /\
  snd (fst (run (main argc mtu host env) ans)) = [].
Proof.
  unfold run.
  destruct (main argc mtu host env ans 0%nat) as [[[e evs] calls] k] eqn:Emain.
  cbn [fst snd]. intros Hposix Hend. subst e.
  unfold main in Emain. cbn beta zeta in Emain.
  destruct (argc <? 7).
  { rewrite dies_run in Emain. injection Emain as <- <- _. split; reflexivity. }
  destruct (mtu <? MIN_MTU).
  { rewrite dies_run in Emain. injection Emain as <- <- _. split; reflexivity. }
  unfold bind at 1 in Emain.
  pose proof (unix_socket_outcome false ans 0%nat) as Hr.
  destruct (net_create_unix_socket false ans 0%nat) as [[r c1] k1].
  cbn [g_net_read_fd g_net_write_fd g_net_tap_fd] in Emain.
  destruct (r =? -1) eqn:Er.
  - rewrite dies_run in Emain.
    cbn [g_net_read_fd g_net_write_fd g_net_tap_fd] in Emain.
    apply Z.eqb_eq in Er. subst r. cbn [Z.gtb Z.compare app] in Emain.
    injection Emain as <- <- _. rewrite app_nil_r in Hposix |- *.
    destruct (Hr Hposix []) as [[_ Ho]|[Hpos _]]; [|lia].
    split; [exact Ho|reflexivity].
  - apply Z.eqb_neq in Er. unfold bind at 1 in Emain.
    pose proof (connect_outcome ans k1) as Hw.
    destruct (net_connect_unix_socket ans k1) as [[w c2] k2].
    destruct (w =? -1) eqn:Ew.
    + rewrite dies_run in Emain.
      cbn [g_net_read_fd g_net_write_fd g_net_tap_fd] in Emain.
      apply Z.eqb_eq in Ew. subst w. cbn [Z.gtb Z.compare app] in Emain.
      injection Emain as <- <- _.
      apply Forall_app in Hposix as [Hp1 Hp2].
      apply Forall_app in Hp2 as [Hp2 _].
      destruct (Hr Hp1 []) as [[Hbad _]|[Hrpos Ho1]]; [contradiction|].
      destruct (Hw Hp2 [r]) as [[_ Ho2]|[Hpos _]]; [|lia].
      rewrite (gtb_pos r Hrpos), !still_open_app, Ho1, Ho2.
      cbn [app still_open]. rewrite close_one_head. split; reflexivity.
    + apply Z.eqb_neq in Ew. unfold bind at 1 in Emain.
      pose proof (tap_outcome ans k2) as Ht.
      destruct (net_create_tap ans k2) as [[t c3] k3].
      destruct (t =? -1) eqn:Et.
      * rewrite dies_run in Emain.
        cbn [g_net_read_fd g_net_write_fd g_net_tap_fd] in Emain.
        apply Z.eqb_eq in Et. subst t. cbn [Z.gtb Z.compare app] in Emain.
        injection Emain as <- <- _.
        apply Forall_app in Hposix as [Hp1 Hp2].
        apply Forall_app in Hp2 as [Hp2 Hp3].
        apply Forall_app in Hp3 as [Hp3 _].
        destruct (Hr Hp1 []) as [[Hbad _]|[Hrpos Ho1]]; [contradiction|].
        destruct (Hw Hp2 [r]) as [[Hbad _]|[Hwpos Ho2]]; [contradiction|].
        destruct (Ht Hp3 [w; r]) as [[_ Ho3]|[Hpos _]]; [|lia].
        rewrite (gtb_pos r Hrpos), (gtb_pos w Hwpos), !still_open_app, Ho1, Ho2, Ho3.
        cbn [app still_open close_one].
        destruct (w =? r) eqn:Ewr.
        -- apply Z.eqb_eq in Ewr. subst w. rewrite close_one_head.
           split; reflexivity.
        -- rewrite Z.eqb_refl, close_one_head. split; reflexivity.
      * exfalso.
        destruct (pump mtu host env) as [[st|code] pevs];
          cbn [ret] in Emain; discriminate Emain.
Qed.

Lemma main_dies_clean_witness :
  still_open []
    (snd (run (main 7 1486 LittleEndian [] ) (answering [3; 2; 0; 0; 0; 4; -1]))) = [] /\
  snd (fst (run (main 7 1486 LittleEndian []) (answering [3; 2; 0; 0; 0; 4; -1]))) = [].
Proof.
  apply (main_dies_clean 7 1486 LittleEndian [] (answering [3; 2; 0; 0; 0; 4; -1])).
  - match goal with
    | |- Forall posix ?l => let l' := eval vm_compute in l in change (Forall posix l')
    end.
    repeat (apply Forall_cons; [cbn [posix]; lia|]). apply Forall_nil.
  - vm_compute. reflexivity.
Defined.

(** X19. The exit status of [main]. [main] ends with status 1 only from
    [die], before [pump] is entered. [pump] is entered only with at least 7
    arguments and an MTU of at least 590; once it is entered [main] ends
    exactly when [pump] returns, and then with status 0 whatever errno
    [pump] returned. *)
Theorem main_status (argc mtu : Z) (host : endianness)
    (env : list syscalls) (ans : answers) :
  match fst (run (main argc mtu host env) ans) with
  | (Exited status, evs) =>
      (status = 1 /\ evs = []) \/
      (status = 0 /\ 7 <= argc /\ 590 <= mtu /\
       exists code, pump mtu host env = (Returned code, evs))
  | (InPump st, evs) =>
      7 <= argc /\ 590 <= mtu /\ pump mtu host env = (Running st, evs)
  end.
Proof.
  unfold run.
  destruct (main argc mtu host env ans 0%nat) as [[[e evs] calls] k] eqn:Emain.
  cbn [fst]. unfold main in Emain. cbn beta zeta in Emain.
  destruct (argc <? 7) eqn:Eargc.
  { rewrite dies_run in Emain. injection Emain as <- <- _ _. left. split; reflexivity. }
  destruct (mtu <? MIN_MTU) eqn:Emtu.
  { rewrite dies_run in Emain. injection Emain as <- <- _ _. left. split; reflexivity. }
  apply Z.ltb_ge in Eargc, Emtu. change MIN_MTU with 590 in Emtu.
  unfold bind at 1 in Emain.
  destruct (net_create_unix_socket false ans 0%nat) as [[r c1] k1].
  destruct (r =? -1).
  { rewrite dies_run in Emain. injection Emain as <- <- _ _. left. split; reflexivity. }
  unfold bind at 1 in Emain.
  destruct (net_connect_unix_socket ans k1) as [[w c2] k2].
  destruct (w =? -1).
  { rewrite dies_run in Emain. injection Emain as <- <- _ _. left. split; reflexivity. }
  unfold bind at 1 in Emain.
  destruct (net_create_tap ans k2) as [[t c3] k3].
  destruct (t =? -1).
  { rewrite dies_run in Emain. injection Emain as <- <- _ _. left. split; reflexivity. }
  destruct (pump mtu host env) as [[st|code] pevs]; cbn [ret] in Emain;
    injection Emain as <- <- _ _.
  - repeat split; assumption.
  - right. repeat split; try assumption. exists code. reflexivity.
Qed.

End SetupFacts.
